(** * Song downloader: the download orchestration pipeline

    A shallow embedding of [src/main.py] (the FastAPI endpoints
    [download_song_frontend] and [get_track_metadata], the request model
    [DownloadRequest], the metadata extractor [SpotifyTrackExtractor] and
    the download engine [YtDlpDownloader]), of
    [src/download_spotify_song_simple.py] (its two extractors,
    [download_with_ytdlp] and [main]) and of [cookies/merge_cookies.py]
    ([parse_cookie_line], [merge_cookie_files] and [main]).

    Conventions.
    - A Python [str] is a list of Unicode code points ([N]); [lit] turns an
      ASCII literal into such a list.
    - [Optional[str]] is [option str]; a dict is a [gmap]; a directory is an
      association list of its entries in the order [iterdir]/[listdir]
      returns them.
    - Everything outside the repository (the network, yt-dlp, the clock, the
      platform) is a field of [World]; four functions of the Python
      runtime whose tables are not reproduced here ([str.isspace],
      [str.lower], [urllib.parse.quote], [int] on a string) are Section
      variables, so every theorem holds for whatever tables the runtime
      has.
    - What the operating system may refuse (removing the workspace,
      creating the output folder, renaming a cookie file) is decided by the
      world as well; the text of a joined path is that of [posixpath].
    - Effects are threaded through the monad [M]: a state (file system and
      trace of external calls) and an outcome (value, raised exception, or
      an external call still pending when an enclosing deadline expires). *)

From Stdlib Require Import NArith ZArith Ascii String DecimalString Lia
  Sorted.
From stdpp Require Import base list strings gmap.

Set Default Proof Using "Type".

(** ** Python strings *)

Abbreviation str := (list N).

Definition lit (s : string) : str :=
  map N_of_ascii (list_ascii_of_string s).
Arguments lit : simpl never.

(** [bool(s)] for a string: non-empty. *)
Definition truthy (s : str) : bool :=
  match s with [] => false | _ :: _ => true end.

(** [bool(o)] for an [Optional[str]]. *)
Definition truthy_opt (o : option str) : bool :=
  match o with Some s => truthy s | None => false end.

(** [a or b] on [Optional[str]] operands. *)
Definition py_or (a b : option str) : option str :=
  if truthy_opt a then a else b.

Definition str_eqb (a b : str) : bool := bool_decide (a = b).

(** [s.startswith(p)]. *)
Fixpoint startswith (p s : str) : bool :=
  match p, s with
  | [], _ => true
  | _ :: _, [] => false
  | a :: p', b :: s' => (a =? b)%N && startswith p' s'
  end.

(** [s.endswith(p)]. *)
Definition endswith (p s : str) : bool := startswith (rev p) (rev s).

(** [s.find(sub)]: the index of the first occurrence, [None] for Python's -1. *)
Fixpoint find (sub s : str) : option nat :=
  if startswith sub s then Some O
  else match s with
       | [] => None
       | _ :: s' => option_map S (find sub s')
       end.

(** [sub in s]. *)
Definition contains (sub s : str) : bool :=
  match find sub s with Some _ => true | None => false end.

(** [s.split(sep)] for a non-empty [sep] (Python raises [ValueError] on an
    empty one; every call site passes a literal).  [skip] counts the
    characters of a separator just matched that are still to be dropped. *)
Fixpoint split_from (sep : str) (skip : nat) (acc : str) (s : str) : list str :=
  match s with
  | [] => [rev acc]
  | c :: s' =>
      match skip with
      | S k => split_from sep k acc s'
      | O =>
          if startswith sep s
          then rev acc :: split_from sep (length sep - 1) [] s'
          else split_from sep O (c :: acc) s'
      end
  end.

Definition split (sep s : str) : list str := split_from sep O [] s.

(** [sep.join(l)]. *)
Fixpoint join (sep : str) (l : list str) : str :=
  match l with
  | [] => []
  | [x] => x
  | x :: rest => x ++ sep ++ join sep rest
  end.

(** [x in l] for a list of strings. *)
Definition in_list (x : str) (l : list str) : bool := bool_decide (x ∈ l).

(** [l[i]] where the source has made sure the index exists. *)
Definition item (i : nat) (l : list str) : str := nth i l [].

Fixpoint lstrip_with (p : N -> bool) (s : str) : str :=
  match s with
  | [] => []
  | c :: s' => if p c then lstrip_with p s' else s
  end.

Definition strip_with (p : N -> bool) (s : str) : str :=
  rev (lstrip_with p (rev (lstrip_with p s))).

(** [s.strip(chars)]. *)
Definition strip_chars (chars s : str) : str :=
  strip_with (fun c => existsb (N.eqb c) chars) s.

(** [str(n)] for a non-negative integer. *)
Definition decimal (n : N) : str :=
  lit (NilEmpty.string_of_uint (N.to_uint n)).

(** [format(n, "0" + str(width) + "x")]: [n] in lower-case hexadecimal, in
    [width] digits. *)
Definition hex_char (n : N) : N :=
  if (n <? 10)%N then (48 + n)%N else (87 + n)%N.

Fixpoint hex_fixed (width : nat) (n : N) : str :=
  match width with
  | O => []
  | S k => hex_fixed k (n / 16) ++ [hex_char (n mod 16)]
  end.

(** The length of the longest prefix of [s] whose code points satisfy [p]. *)
Fixpoint span_length (p : N -> bool) (s : str) : nat :=
  match s with
  | c :: s' => if p c then S (span_length p s') else O
  | [] => O
  end.

(** [v.encode("latin-1")]: nothing to report when every code point is
    below 256; otherwise the text of the [UnicodeEncodeError], which names
    the first run of code points that have no encoding. *)
Definition latin1_error (v : str) : option str :=
  let start := span_length (fun c => (c <? 256)%N) v in
  match drop start v with
  | [] => None
  | c :: rest =>
      let more := span_length (fun c => (256 <=? c)%N) rest in
      Some (match more with
            | O =>
                lit "'latin-1' codec can't encode character '"
                ++ (if (c <? 65536)%N then lit "\u" ++ hex_fixed 4 c
                    else lit "\U" ++ hex_fixed 8 c)
                ++ lit "' in position " ++ decimal (N.of_nat start)
            | S _ =>
                lit "'latin-1' codec can't encode characters in position "
                ++ decimal (N.of_nat start) ++ lit "-"
                ++ decimal (N.of_nat (start + more))
            end ++ lit ": ordinal not in range(256)")
  end.

(** Characters used by the program. *)
Definition COMMA : str := [44]%N.
Definition SPACE : str := [32]%N.
Definition QUOTE : str := [34]%N.
Definition MIDDLE_DOT : str := [183]%N.

(** ** Data model *)

Module DownloadRequest.
Record t := {
  spotify_url : option str;
  song_url : option str;
  url : option str;
  trackUrl : option str;
  trackId : option str;
  use_consistent_naming : bool;
  title : option str;
  track_name : option str;
  artist : option str;
  artist_name : option str;
  album : option str;
  duration : option str;
  track_id : option str;
  search_query : option str;
  (** [Dict[str, Any]]: the values are taken to be strings, as the
      frontend sends them; other JSON kinds are outside the model. *)
  metadata : option (gmap str str)
}.
End DownloadRequest.

Module TrackInfo.
Record t := {
  name : str;
  artists : list str;
  search_query : str;
  album : option str;
  duration : option str
}.
End TrackInfo.

Module DownloadResult.
Record t := {
  success : bool;
  (** [str(file)] kept as the directory and the entry name it joins. *)
  file_path : option (str * str);
  file_name : option str;
  file_size : option N;
  content_type : option str;
  error : option str
}.
End DownloadResult.

(** ** Exceptions *)

Inductive exn :=
| HTTPException (status_code : N) (detail : str)
| TimeoutError (msg : str)       (* asyncio.TimeoutError *)
| DownloadError (msg : str)      (* yt_dlp.utils.DownloadError *)
| ExtractorError (msg : str)     (* yt_dlp.utils.ExtractorError *)
| OtherException (msg : str)     (* any other subclass of Exception *)
| BaseExc (msg : str).           (* a BaseException that is no Exception *)

(** [isinstance(e, Exception)]. *)
Definition is_Exception (e : exn) : bool :=
  match e with BaseExc _ => false | _ => true end.

(** [str(e)]. *)
Definition exn_str (e : exn) : str :=
  match e with
  | HTTPException c d => decimal c ++ lit ": " ++ d
  | TimeoutError m | DownloadError m | ExtractorError m
  | OtherException m | BaseExc m => m
  end.

(** ** The file system *)

Inductive node := File (content : list N) | Subdir.

(** A directory: its entries in listing order. *)
Abbreviation directory := (list (str * node)).

(** [os.path.join(d, n)] as [posixpath] defines it: an absolute [n]
    replaces [d]; otherwise the two are put together, with a separator
    between them unless [d] is empty or ends with one already.  (On
    Windows [os.path] is [ntpath], whose separator and drive rules are not
    reproduced: the text of a joined path is that of a POSIX run.) *)
Definition path_join (d n : str) : str :=
  if startswith (lit "/") n then n
  else if negb (truthy d) || endswith (lit "/") d then d ++ n
  else d ++ lit "/" ++ n.

(** [file.suffix] of pathlib: from the last dot of the name, unless that dot
    is the first or the last character. *)
Definition suffix (name : str) : str :=
  match find (lit ".") (rev name) with
  | Some k =>
      let i := (length name - 1 - k)%nat in
      if (0 <? i)%nat && (i <? length name - 1)%nat then drop i name else []
  | None => []
  end.

Definition is_file (x : node) : bool :=
  match x with File _ => true | Subdir => false end.

(** ** yt-dlp options, external calls and the world *)

Record ydl_opts := {
  format : str;
  noplaylist : bool;
  quiet : bool;
  no_warnings : bool;
  no_post_overwrites : bool;
  playlist_items : str;
  socket_timeout : N;
  retries : N;
  fragment_retries : option N;
  player_client : list str;           (* extractor_args.youtube.player_client *)
  skip : option (list str);           (* extractor_args.youtube.skip *)
  user_agent : str;                   (* http_headers.User-Agent *)
  geo_bypass : option bool;
  geo_bypass_country : option str;
  outtmpl : option str;
  progress_hooks : bool               (* whether the hook list is set *)
}.

(** How a call of [ydl.download] ends for the coroutine that awaits it: it
    returns, it raises, or it is still running when the deadline of the
    enclosing [asyncio.wait_for] expires (its thread is not stopped then,
    see [wait_for]). *)
Inductive ydl_end := YdlReturns | YdlRaises (e : exn) | YdlPending.

(** The JSON object of the metadata API, with the keys the program reads. *)
Record api_data := {
  has_error : bool;                   (* 'error' in data *)
  api_name : option str;
  api_artists : option (list str);
  api_searchQuery : option str
}.

(** A GET: an HTTP status with the decoded body, or an exception. *)
Inductive reply (A : Type) := Response (status : N) (body : A) | Fails.
Arguments Response {A} status body.
Arguments Fails {A}.

Record World := {
  win32 : bool;                       (* sys.platform == "win32" *)
  gettempdir : str;                   (* tempfile.gettempdir() *)
  time_ms : N;                        (* int(time.time() * 1000) on entry *)
  elapsed : str;                      (* time.time() - start_time as "%.2f" *)
  mkdtemp_suffix : str;               (* the random part mkdtemp chooses *)
  aiohttp_installed : bool;
  api_get : str -> reply api_data;
  (** the oEmbed body is the value of its 'title' key, if it has one *)
  oembed_get : str -> reply (option str);
  (** [ydl.download([url])]: the output directory before and after *)
  ydl_download :
    ydl_opts -> str -> option directory -> option directory * ydl_end;
  (** [shutil.rmtree(d, ignore_errors=True)] at a directory at or below
      [d], given its path and its entries: [None] when the directory is
      removed, and otherwise the entries found there when the call
      returns (those it could not remove, and those a download thread
      that is still running has written in the meantime) *)
  rmtree_leaves : str -> directory -> option directory
}.

Inductive event :=
| EvApiGet (url : str)
| EvOembedGet (url : str)
| EvMkdtemp (d : str)
| EvYdl (opts : ydl_opts) (url : str) (before : option directory)
| EvRmtree (d : str).

(** ** The effect monad *)

Record state := {
  fs : gmap str directory;
  trace : list event;
  (** the local variable [temp_dir] of [download_song_frontend], which its
      [finally] clause reads *)
  temp_dir : option str
}.

Inductive outcome (A : Type) :=
| Ok (a : A)
| Raise (e : exn)
| Pending.
Arguments Ok {A} a.
Arguments Raise {A} e.
Arguments Pending {A}.

Definition M (A : Type) : Type := state -> outcome A * state.

Definition ret {A} (a : A) : M A := fun s => (Ok a, s).

Definition bind {A B} (m : M A) (k : A -> M B) : M B :=
  fun s =>
    match m s with
    | (Ok a, s') => k a s'
    | (Raise e, s') => (Raise e, s')
    | (Pending, s') => (Pending, s')
    end.

Definition raise {A} (e : exn) : M A := fun s => (Raise e, s).

Notation "x <- m ;; k" := (bind m (fun x => k))
  (at level 100, m at next level, right associativity).
Notation "m ;; k" := (bind m (fun _ => k))
  (at level 100, right associativity).

(** [try: body / except ...: handler]; [handler e] is [None] when no
    clause matches [e], which then propagates. *)
Definition try_except {A} (body : M A) (handler : exn -> option (M A)) : M A :=
  fun s =>
    match body s with
    | (Raise e, s') =>
        match handler e with
        | Some h => h s'
        | None => (Raise e, s')
        end
    | r => r
    end.

(** [try: body / finally: fin]. *)
Definition try_finally {A} (body : M A) (fin : M unit) : M A :=
  fun s =>
    match body s with
    | (r, s') =>
        match fin s' with
        | (Ok _, s'') => (r, s'')
        | (Raise e, s'') => (Raise e, s'')
        | (Pending, s'') => (Pending, s'')
        end
    end.

(** [except Exception: h]. *)
Definition on_Exception {A} (h : exn -> M A) (e : exn) : option (M A) :=
  if is_Exception e then Some (h e) else None.

Definition get_state : M state := fun s => (Ok s, s).

Definition emit (ev : event) : M unit :=
  fun s => (Ok tt, {| fs := fs s; trace := trace s ++ [ev]; temp_dir := temp_dir s |}).

Definition set_dir (d : str) (x : option directory) : M unit :=
  fun s => (Ok tt, {| fs := partial_alter (fun _ => x) d (fs s);
                      trace := trace s; temp_dir := temp_dir s |}).

Definition set_temp_dir (d : option str) : M unit :=
  fun s => (Ok tt, {| fs := fs s; trace := trace s; temp_dir := d |}).

(** [Path(d).iterdir()], read at once. *)
Definition iterdir (d : str) : M directory :=
  fun s =>
    match fs s !! d with
    | Some entries => (Ok entries, s)
    | None => (Raise (OtherException
                 (lit "[Errno 2] No such file or directory: '" ++ d ++ lit "'")), s)
    end.

(** [StreamingResponse(iter, media_type=..., headers=...)], with the chunks
    its iterator yields. *)
Record StreamingResponse := {
  media_type : option str;
  headers : list (str * str);
  body_chunks : list (list N)
}.

(** [for i in range(0, len(b), n): yield b[i:i + n]]. *)
Fixpoint chunks_of (fuel n : nat) (b : list N) : list (list N) :=
  match fuel, b with
  | S fuel', _ :: _ => take n b :: chunks_of fuel' n (drop n b)
  | _, _ => []
  end.

(** The entry called [name] of a directory. *)
Fixpoint dir_lookup (name : str) (entries : directory) : option node :=
  match entries with
  | [] => None
  | (n, x) :: rest => if str_eqb n name then Some x else dir_lookup name rest
  end.

(** ** The script's external process *)

(** How [subprocess.run(cmd, ..., timeout=180)] ends. *)
Inductive run_end :=
| Exited (returncode : Z) (stderr : str)
| TimeoutExpired
| RunRaises (e : exn).

Record ScriptWorld := {
  executable : str;                   (* sys.executable *)
  (** the output directory before and after the run *)
  subprocess_run : list str -> directory -> directory * run_end;
  (** [os.makedirs(path)] where nothing is at [path] yet: [None] when the
      directory is created, the text of the [OSError] otherwise (a parent
      that is a file, a missing permission, ...) *)
  makedirs_error : str -> option str
}.

(** The dict [download_with_ytdlp] returns. *)
Inductive script_result :=
| ScriptSuccess (file path : str)
| ScriptFailure (error : str) (details : option str).

(** The dict [get_track_metadata] returns. *)
Module TrackMetadata.
Record t := {
  name : str;
  artists : list str;
  searchQuery : str;
  album : option str;
  duration : option str
}.
End TrackMetadata.

(** The dict the script's extractors return. *)
Record script_info := {
  info_name : str;
  info_artists : list str;
  info_search_query : str
}.

(** What the script's [main] prints on stdout (as JSON), and the status it
    exits with. *)
Inductive script_output :=
| OutUsage
| OutNoTrack
| OutSuccess (fileName filePath trackName : str) (artists : list str)
| OutFailure (error trackName : str) (artists : list str) (details : str).

Record script_exit := {
  stdout : script_output;
  exit_code : Z
}.

(** The output folder as [main] finds it: missing, a directory, or a path
    that is taken by something else. *)
Inductive folder_state := NoFolder | Folder (d : directory) | NotAFolder.

(** A cookie as [parse_cookie_line] of merge_cookies.py returns it. *)
Module Cookie.
Record t := {
  domain : str;
  flag : bool;
  path : str;
  secure : bool;
  expiration : Z;
  name : str;
  value : str;
  raw_line : str
}.
End Cookie.

(** What [parse_cookie_line] returns: the tuple [(None, {})] for a line
    with fewer than seven fields, the dict of a cookie otherwise. *)
Inductive parsed := NoCookie | ACookie (c : Cookie.t).

(** The dict [cookies] of [merge_cookie_files]: its items in insertion
    order. *)
Abbreviation cookie_jar := (list ((str * str) * Cookie.t)).

Definition TAB : str := [9]%N.

(** [a < b] on strings: by code points, the shorter first. *)
Fixpoint str_ltb (a b : str) : bool :=
  match a, b with
  | _, [] => false
  | [], _ :: _ => true
  | x :: a', y :: b' => (x <? y)%N || ((x =? y)%N && str_ltb a' b')
  end.

(** [k1 <= k2] on pairs of strings, as Python compares tuples. *)
Definition key_leb (k1 k2 : str * str) : bool :=
  str_ltb k1.1 k2.1 || (str_eqb k1.1 k2.1 && negb (str_ltb k2.2 k1.2)).

Definition cookie_key (c : Cookie.t) : str * str :=
  (Cookie.domain c, Cookie.name c).

(** [sorted(l, key=lambda x: (x['domain'], x['name']))]: a stable sort. *)
Fixpoint insert_by_key (c : Cookie.t) (l : list Cookie.t) : list Cookie.t :=
  match l with
  | [] => [c]
  | y :: rest =>
      if key_leb (cookie_key c) (cookie_key y) then c :: l
      else y :: insert_by_key c rest
  end.

Definition sorted_by_key (l : list Cookie.t) : list Cookie.t :=
  foldr insert_by_key [] l.

(** [cookies[key]] and [cookies[key] = cookie]: a key that is present keeps
    its place. *)
Fixpoint jar_get (key : str * str) (cookies : cookie_jar) : option Cookie.t :=
  match cookies with
  | [] => None
  | (k, v) :: rest =>
      if bool_decide (k = key) then Some v else jar_get key rest
  end.

Fixpoint jar_set (key : str * str) (c : Cookie.t) (cookies : cookie_jar)
  : cookie_jar :=
  match cookies with
  | [] => [(key, c)]
  | (k, v) :: rest =>
      if bool_decide (k = key) then (k, c) :: rest
      else (k, v) :: jar_set key c rest
  end.

(** Whether [merge_cookie_files] replaces the cookie it has by the one it
    has just read (lines 65-75). *)
Definition replaces (existing cookie : Cookie.t) : bool :=
  if (Cookie.expiration existing =? 0)%Z && (0 <? Cookie.expiration cookie)%Z
  then true
  else if (Cookie.expiration cookie =? 0)%Z
          && (0 <? Cookie.expiration existing)%Z
  then false
  else if (Cookie.expiration existing <? Cookie.expiration cookie)%Z
  then true
  else if (Cookie.expiration cookie =? Cookie.expiration existing)%Z
  then (length (Cookie.value existing) <? length (Cookie.value cookie))%nat
  else false.

(** The names of the files [main] of merge_cookies.py works on. *)
Definition YOUTUBE_FILE : str := lit "www.youtube.com_cookies.txt".
Definition MUSIC_FILE : str := lit "music.youtube.com_cookies.txt".
Definition OUTPUT_FILE : str := lit "cookies.txt".

Section Program.

(** [str.isspace] on one code point, [str.lower], and [urllib.parse.quote],
    which returns the quoted text or raises [UnicodeEncodeError] (on a lone
    surrogate) with the message given. *)
Variable isspace : N -> bool.
Variable lower : str -> str.
Variable quote : str -> str + str.

(** [s.strip()]. *)
Definition strip (s : str) : str := strip_with isspace s.

(** [urllib.parse.quote(s)] as a computation. *)
Definition quoted (s : str) : M str :=
  match quote s with
  | inl q => ret q
  | inr msg => raise (OtherException msg)
  end.

(** *** [DownloadRequest] methods *)

(** [self.metadata and self.metadata.get(key)], as a truth value and as
    the value returned when it is true. *)
Definition metadata_get (r : DownloadRequest.t) (key : str) : option str :=
  match DownloadRequest.metadata r with
  | Some m => if decide (m = ∅) then None
              else match m !! key with
                   | Some v => if truthy v then Some v else None
                   | None => None
                   end
  | None => None
  end.

Definition get_spotify_url (r : DownloadRequest.t) : option str :=
  let url := py_or (py_or (py_or (DownloadRequest.spotify_url r)
                                 (DownloadRequest.song_url r))
                          (DownloadRequest.url r))
                   (DownloadRequest.trackUrl r) in
  match DownloadRequest.trackId r with
  | Some tid =>
      if negb (truthy_opt url) && truthy tid
      then Some (lit "https://open.spotify.com/track/" ++ tid)
      else url
  | None => url
  end.

Definition get_track_name (r : DownloadRequest.t) : str :=
  match metadata_get r (lit "name") with
  | Some v => v
  | None =>
      match py_or (DownloadRequest.title r) (DownloadRequest.track_name r) with
      | Some s => if truthy s then s else lit "Unknown"
      | None => lit "Unknown"
      end
  end.

Definition get_artist_name (r : DownloadRequest.t) : str :=
  match metadata_get r (lit "artist") with
  | Some v => v
  | None =>
      match py_or (DownloadRequest.artist r) (DownloadRequest.artist_name r) with
      | Some s => if truthy s then s else lit "Unknown Artist"
      | None => lit "Unknown Artist"
      end
  end.

Definition get_search_query (r : DownloadRequest.t) : str :=
  let constructed :=
    let track := get_track_name r in
    let artist := get_artist_name r in
    let artist :=
      if truthy artist && contains COMMA artist
      then strip (item 0 (split COMMA artist))
      else artist in
    strip (track ++ SPACE ++ artist) in
  match metadata_get r (lit "searchQuery") with
  | Some v => v
  | None =>
      match DownloadRequest.search_query r with
      | Some q => if truthy q then q else constructed
      | None => constructed
      end
  end.

(** *** [SpotifyTrackExtractor] *)

(** [TrackInfo(name=..., artists=..., search_query=...)] from the API's
    JSON; [data.get('artists', ['Unknown'])[0]] is evaluated whether or
    not 'searchQuery' is present, and raises [IndexError] on an empty
    list, which the caller's [except Exception] turns into [None]. *)
Definition track_info_of_api (data : api_data) : option TrackInfo.t :=
  if has_error data then None
  else
    let name := default (lit "Unknown") (api_name data) in
    match default [lit "Unknown"] (api_artists data) with
    | [] => None
    | first :: _ =>
        Some {| TrackInfo.name := name;
                TrackInfo.artists :=
                  default [lit "Unknown Artist"] (api_artists data);
                TrackInfo.search_query :=
                  default (name ++ SPACE ++ first) (api_searchQuery data);
                TrackInfo.album := None;
                TrackInfo.duration := None |}
    end.

Definition extract_from_api (w : World) (spotify_url : str)
  : M (option TrackInfo.t) :=
  try_except
    (q <- quoted spotify_url ;;
     let api_url :=
       lit "http://localhost:3000/api/spotify/track-metadata?url=" ++ q in
     emit (EvApiGet api_url) ;;
     match api_get w api_url with
     | Response status data =>
         if aiohttp_installed w
         then (if (status =? 200)%N then ret (track_info_of_api data)
               else ret None)
         else (* urllib raises HTTPError outside 2xx *)
              (if (200 <=? status)%N && (status <? 300)%N
               then ret (track_info_of_api data) else ret None)
     | Fails => ret None
     end)
    (on_Exception (fun _ => ret None)).

(** The track id read off the URL (lines 228-231). *)
Definition track_id_of_url (spotify_url : str) : option str :=
  if contains (lit "/track/") spotify_url
  then Some (item 0 (split (lit "?")
                       (item 1 (split (lit "/track/") spotify_url))))
  else if contains (lit "spotify:track:") spotify_url
  then Some (item 1 (split (lit "spotify:track:") spotify_url))
  else None.

(** [parts[0], parts[1] if len(parts) > 1 else 'Unknown Artist'] for
    [parts = title.split(sep)]. *)
Definition split_title (sep title : str) : str * str :=
  let parts := split sep title in
  (item 0 parts,
   if (1 <? length parts)%nat then item 1 parts else lit "Unknown Artist").

Definition SEP_DOT : str := SPACE ++ MIDDLE_DOT ++ SPACE.
Definition SEP_QUOTED : str := QUOTE ++ lit " - ".
Definition SEP_DASH : str := lit " - ".
Definition SEP_BY : str := lit " by ".

(** The title parsing of [extract_from_oembed] (lines 242-265), from
    [data.get('title', '')] to the cleaned pair [(track_name, artist)]. *)
Definition parse_oembed_title (raw : str) : str * str :=
  let title := strip raw in
  let '(track_name, artist) :=
    if truthy title then
      if contains SEP_DOT title then split_title SEP_DOT title
      else if contains SEP_QUOTED title then
        let '(n, a) := split_title SEP_QUOTED title in (strip_chars QUOTE n, a)
      else if contains SEP_DASH title then split_title SEP_DASH title
      else if contains SEP_BY title then split_title SEP_BY title
      else (title, lit "Unknown Artist")
    else (lit "Unknown", lit "Unknown Artist") in
  let track_name :=
    if negb (str_eqb (lower track_name) (lit "unknown"))
    then track_name else lit "Unknown" in
  let artist :=
    if negb (in_list (lower artist)
               [lit "unknown artist"; lit "unknown"; []])
    then artist else lit "Unknown Artist" in
  (track_name, artist).

Definition extract_from_oembed (w : World) (spotify_url : str)
  : M (option TrackInfo.t) :=
  match track_id_of_url spotify_url with
  | None => ret None
  | Some track_id =>
      if negb (truthy track_id) then ret None
      else
        let oembed_url :=
          lit "https://open.spotify.com/oembed?url=https://open.spotify.com/track/"
          ++ track_id in
        emit (EvOembedGet oembed_url) ;;
        match oembed_get w oembed_url with
        | Response status title =>
            if (200 <=? status)%N && (status <? 300)%N then
              let '(track_name, artist) :=
                parse_oembed_title (default [] title) in
              ret (Some {| TrackInfo.name := track_name;
                           TrackInfo.artists := [artist];
                           TrackInfo.search_query :=
                             track_name ++ SPACE ++ artist;
                           TrackInfo.album := None;
                           TrackInfo.duration := None |})
            else ret None
        | Fails => ret None
        end
  end.

(** *** [YtDlpDownloader] *)

Definition default_format : str :=
  lit "bestaudio[ext=m4a]/bestaudio[ext=webm]/bestaudio/best[height<=720]/best".

(** [self.default_opts] with the two keys [download_audio] adds. *)
Definition default_opts (output_template : str) : ydl_opts :=
  {| format := default_format;
     noplaylist := true;
     quiet := true;
     no_warnings := true;
     no_post_overwrites := true;
     playlist_items := lit "1";
     socket_timeout := 60;
     retries := 3;
     fragment_retries := Some 3%N;
     player_client := [lit "android_music"; lit "android"; lit "web"];
     skip := Some [lit "dash"; lit "hls"];
     user_agent := lit "Mozilla/5.0 (Windows NT 10.0; Win64; x64) AppleWebKit/537.36 (KHTML, like Gecko) Chrome/91.0.4472.124 Safari/537.36";
     geo_bypass := Some true;
     geo_bypass_country := Some (lit "US");
     outtmpl := Some output_template;
     progress_hooks := true |}.

Definition fallback_format : str := lit "worst[ext=m4a]/worst[ext=webm]/worst".

Definition fallback_opts (output_dir : str) : ydl_opts :=
  {| format := fallback_format;
     noplaylist := true;
     quiet := false;
     no_warnings := false;
     no_post_overwrites := true;
     playlist_items := lit "1";
     socket_timeout := 120;
     retries := 2;
     fragment_retries := None;
     player_client := [lit "android_music"; lit "android"];
     skip := None;
     user_agent := lit "yt-dlp/2023.07.06";
     geo_bypass := None;
     geo_bypass_country := None;
     outtmpl := Some (path_join output_dir (lit "%(title)s.%(ext)s"));
     progress_hooks := false |}.

(** [{**opts, 'format': f}] and [opts['outtmpl'] = t]. *)
Definition with_format (opts : ydl_opts) (f : str) : ydl_opts :=
  {| format := f; noplaylist := noplaylist opts; quiet := quiet opts;
     no_warnings := no_warnings opts;
     no_post_overwrites := no_post_overwrites opts;
     playlist_items := playlist_items opts;
     socket_timeout := socket_timeout opts; retries := retries opts;
     fragment_retries := fragment_retries opts;
     player_client := player_client opts; skip := skip opts;
     user_agent := user_agent opts; geo_bypass := geo_bypass opts;
     geo_bypass_country := geo_bypass_country opts;
     outtmpl := outtmpl opts; progress_hooks := progress_hooks opts |}.

Definition with_outtmpl (opts : ydl_opts) (t : str) : ydl_opts :=
  {| format := format opts; noplaylist := noplaylist opts; quiet := quiet opts;
     no_warnings := no_warnings opts;
     no_post_overwrites := no_post_overwrites opts;
     playlist_items := playlist_items opts;
     socket_timeout := socket_timeout opts; retries := retries opts;
     fragment_retries := fragment_retries opts;
     player_client := player_client opts; skip := skip opts;
     user_agent := user_agent opts; geo_bypass := geo_bypass opts;
     geo_bypass_country := geo_bypass_country opts;
     outtmpl := Some t; progress_hooks := progress_hooks opts |}.

Definition content_type_map : list (str * str) :=
  [(lit ".m4a", lit "audio/mp4"); (lit ".webm", lit "audio/webm");
   (lit ".opus", lit "audio/opus"); (lit ".mp3", lit "audio/mpeg");
   (lit ".aac", lit "audio/aac"); (lit ".mp4", lit "audio/mp4")].

(** [d.get(k)] on a dict written as its item list. *)
Fixpoint assoc {A} (k : str) (d : list (str * A)) : option A :=
  match d with
  | [] => None
  | (k', v) :: rest => if str_eqb k k' then Some v else assoc k rest
  end.

Definition _get_content_type (file_extension : str) : str :=
  default (lit "audio/octet-stream")
          (assoc (lower file_extension) content_type_map).

(** The dict both download functions return for the file they found. *)
Definition found_file (output_dir name : str) (content : list N)
  : DownloadResult.t :=
  {| DownloadResult.success := true;
     DownloadResult.file_path := Some (output_dir, name);
     DownloadResult.file_name := Some name;
     DownloadResult.file_size := Some (N.of_nat (length content));
     DownloadResult.content_type := Some (_get_content_type (suffix name));
     DownloadResult.error := None |}.

Definition failure (error_msg : str) : DownloadResult.t :=
  {| DownloadResult.success := false;
     DownloadResult.file_path := None;
     DownloadResult.file_name := None;
     DownloadResult.file_size := None;
     DownloadResult.content_type := None;
     DownloadResult.error := Some error_msg |}.

(** The scan [for file in Path(output_dir).iterdir(): if file.is_file() and
    file.suffix.lower() in extensions: return {...}]. *)
Fixpoint first_audio_file (extensions : list str) (output_dir : str)
    (entries : directory) : option DownloadResult.t :=
  match entries with
  | [] => None
  | (name, x) :: rest =>
      match x with
      | File content =>
          if in_list (lower (suffix name)) extensions
          then Some (found_file output_dir name content)
          else first_audio_file extensions output_dir rest
      | Subdir => first_audio_file extensions output_dir rest
      end
  end.

Definition audio_extensions : list str :=
  [lit ".m4a"; lit ".webm"; lit ".opus"; lit ".mp3"; lit ".aac"; lit ".mp4"].

Definition fallback_extensions : list str :=
  [lit ".m4a"; lit ".webm"; lit ".opus"; lit ".mp3"; lit ".aac"].

(** [ydl.download([url])] under [YoutubeDL(opts)] writing to [output_dir]. *)
Definition ydl_call (w : World) (opts : ydl_opts) (url output_dir : str)
  : M unit :=
  fun s =>
    let before := fs s !! output_dir in
    let '(after, e) := ydl_download w opts url before in
    let s' := {| fs := partial_alter (fun _ => after) output_dir (fs s);
                 trace := trace s ++ [EvYdl opts url before];
                 temp_dir := temp_dir s |} in
    match e with
    | YdlReturns => (Ok tt, s')
    | YdlRaises e => (Raise e, s')
    | YdlPending => (Pending, s')
    end.

(** The clean-up of the [except] clause: [unlink] every entry that is a
    file ([unlink] of a regular file is taken to succeed). *)
Definition unlink_files (output_dir : str) : M unit :=
  entries <- iterdir output_dir ;;
  set_dir output_dir
          (Some (filter (fun e : str * node => negb (is_file e.2)) entries)).

(** The loop of [_download] from its [i]-th iteration on; [total] is
    [len(format_attempts)].  An iteration yields [Some file] where the source
    returns, and [None] where it goes on to the next one. *)
Fixpoint format_loop (w : World) (ydl_opts : ydl_opts)
    (music_search_url output_dir : str) (total i : nat)
    (format_attempts : list str) : M DownloadResult.t :=
  match format_attempts with
  | [] =>
      raise (OtherException
               (lit "All format attempts failed - no file downloaded"))
  | format_option :: rest =>
      r <- try_except
             (let current_opts := with_format ydl_opts format_option in
              ydl_call w current_opts music_search_url output_dir ;;
              entries <- iterdir output_dir ;;
              ret (first_audio_file audio_extensions output_dir entries))
             (on_Exception (fun e =>
                unlink_files output_dir ;;
                if (i <? total - 1)%nat then ret None else raise e)) ;;
      match r with
      | Some file => ret file
      | None =>
          format_loop w ydl_opts music_search_url output_dir total (S i) rest
      end
  end.

Definition music_search (search_query : str) : M str :=
  q <- quoted search_query ;;
  ret (lit "https://music.youtube.com/search?q=" ++ q).

(** The closure [_download] of [download_audio]. *)
Definition _download (w : World) (ydl_opts : ydl_opts)
    (search_query output_dir : str) : M DownloadResult.t :=
  let use_consistent_naming := false in
  let output_template :=
    if use_consistent_naming : bool
    then path_join output_dir (lit "temp_download.%(ext)s")
    else path_join output_dir (lit "%(title)s.%(ext)s") in
  let ydl_opts := with_outtmpl ydl_opts output_template in
  music_search_url <- music_search search_query ;;
  let format_attempts :=
    [format ydl_opts; lit "bestaudio/best"; lit "best"] in
  format_loop w ydl_opts music_search_url output_dir
              (length format_attempts) 0 format_attempts.

(** [await asyncio.wait_for(loop.run_in_executor(None, job), timeout)]: a
    job still pending at the deadline raises [TimeoutError] in the caller,
    which goes on from the state of the deadline.  The deadline cancels
    the wait, not the job: its thread runs on.  The caller never looks at
    the output directory again before the clean-up of the endpoint, so what
    the thread writes until then reaches the run through [rmtree_leaves];
    what it writes after the run has ended is outside the final state. *)
Definition wait_for {A} (job : M A) : M A :=
  fun s =>
    match job s with
    | (Pending, s') => (Raise (TimeoutError []), s')
    | r => r
    end.

Definition _fallback_download_sync (w : World) (opts : ydl_opts)
    (search_query output_dir : str) : M DownloadResult.t :=
  music_search_url <- music_search search_query ;;
  ydl_call w opts music_search_url output_dir ;;
  entries <- iterdir output_dir ;;
  match first_audio_file fallback_extensions output_dir entries with
  | Some file => ret file
  | None => raise (OtherException (lit "Fallback download: file not found"))
  end.

Definition _fallback_download (w : World) (search_query output_dir : str)
  : M DownloadResult.t :=
  try_except
    (wait_for (_fallback_download_sync w (fallback_opts output_dir)
                 search_query output_dir))
    (on_Exception (fun e => raise e)).

Definition is_forbidden (msg : str) : bool :=
  contains (lit "403") msg || contains (lit "Forbidden") msg.

Definition download_audio (w : World) (search_query output_dir : str)
  : M DownloadResult.t :=
  try_except
    (let output_template := path_join output_dir (lit "%(title)s.%(ext)s") in
     let ydl_opts := default_opts output_template in
     wait_for (_download w ydl_opts search_query output_dir))
    (fun e =>
       match e with
       | TimeoutError _ =>
           Some (ret (failure (lit "Download timed out after 120 seconds")))
       | DownloadError m =>
           let error_msg := lit "yt-dlp download error: " ++ m in
           Some (if is_forbidden m
                 then try_except
                        (_fallback_download w search_query output_dir)
                        (on_Exception (fun _ => ret (failure error_msg)))
                 else ret (failure error_msg))
       | ExtractorError m =>
           Some (ret (failure (lit "yt-dlp extractor error: " ++ m)))
       | e =>
           on_Exception (fun e =>
             ret (failure (lit "Unexpected download error: " ++ exn_str e))) e
       end).

(** *** The endpoint [download_song_frontend] *)

(** [tempfile.mkdtemp(prefix=..., dir=...)]: the directory it creates did
    not exist; when the name drawn is taken the call fails as [mkdtemp]
    does once it has run out of names. *)
Definition mkdtemp (w : World) (prefix dir : str) : M str :=
  let path := path_join dir (prefix ++ mkdtemp_suffix w) in
  s <- get_state ;;
  match fs s !! path with
  | Some _ =>
      raise (OtherException
               (lit "[Errno 17] No usable temporary directory name found"))
  | None => emit (EvMkdtemp path) ;; set_dir path (Some []) ;; ret path
  end.

(** [p] is [d] or a path below it. *)
Definition below (d p : str) : bool :=
  bool_decide (p = d) || startswith (d ++ lit "/") p.

(** [shutil.rmtree(d, ignore_errors=True)]: it never raises; of [d] and of
    the directories below it, those it removes go and the others stay
    with what [rmtree_leaves] finds in them. *)
Definition rmtree (w : World) (d : str) : M unit :=
  emit (EvRmtree d) ;;
  fun s =>
    (Ok tt,
     {| fs := map_imap (fun p entries =>
                          if below d p then rmtree_leaves w p entries
                          else Some entries)
                       (fs s);
        trace := trace s; temp_dir := temp_dir s |}).

Definition has_metadata (request : DownloadRequest.t) : bool :=
  negb (str_eqb (get_track_name request) (lit "Unknown"))
  && negb (str_eqb (get_artist_name request) (lit "Unknown Artist")).

(** The block "Get track information" (lines 541-571). *)
Definition resolve_track_info (w : World) (request : DownloadRequest.t)
    (spotify_url : option str) : M TrackInfo.t :=
  if has_metadata request then
    let artists :=
      if contains COMMA (get_artist_name request)
      then map strip (split COMMA (get_artist_name request))
      else [get_artist_name request] in
    ret {| TrackInfo.name := get_track_name request;
           TrackInfo.artists := artists;
           TrackInfo.search_query := get_search_query request;
           TrackInfo.album := DownloadRequest.album request;
           TrackInfo.duration := DownloadRequest.duration request |}
  else
    track_info <- try_except (extract_from_api w (default [] spotify_url))
                             (on_Exception (fun _ => ret None)) ;;
    track_info <- match track_info with
                  | Some t => ret (Some t)
                  | None => extract_from_oembed w (default [] spotify_url)
                  end ;;
    match track_info with
    | Some t => ret t
    | None =>
        raise (HTTPException 400
                 (lit "Could not extract track information from Spotify URL"))
    end.

Definition ascii_filename (file_name : str) : str :=
  if existsb (fun c => (127 <? c)%N) file_name
  then filter (fun c => (c <=? 127)%N = true) file_name
  else file_name.

Definition response_headers (w : World) (request_id : str)
    (track_info : TrackInfo.t) (file_name quoted_filename : str)
    (file_content : list N) : list (str * str) :=
  let content_disposition :=
    lit "attachment; filename=" ++ QUOTE ++ ascii_filename file_name ++ QUOTE
    ++ lit "; filename*=UTF-8''" ++ quoted_filename in
  [(lit "Content-Disposition", content_disposition);
   (lit "Content-Length", decimal (N.of_nat (length file_content)));
   (lit "X-Track-Name", TrackInfo.name track_info);
   (lit "X-Track-Artist", join (lit ", ") (TrackInfo.artists track_info));
   (lit "X-Request-Id", request_id);
   (lit "X-Download-Time", elapsed w ++ lit "s")]
  ++ (if truthy_opt (TrackInfo.album track_info)
      then [(lit "X-Track-Album", default [] (TrackInfo.album track_info))]
      else [])
  ++ (if truthy_opt (TrackInfo.duration track_info)
      then [(lit "X-Track-Duration",
             default [] (TrackInfo.duration track_info))]
      else []).

(** What [StreamingResponse(..., headers=headers)] does with the headers:
    every value is encoded as Latin-1, in the order of the dict, and the
    first value that cannot be raises its [UnicodeEncodeError] (the keys
    are ASCII). *)
Definition init_headers (headers : list (str * str)) : option exn :=
  match omap (fun kv : str * str => latin1_error kv.2) headers with
  | msg :: _ => Some (OtherException msg)
  | [] => None
  end.

(** The first half of the [try] block (lines 519-573): validation, the
    temporary directory, the track information. *)
Definition frontend_prepare (w : World) (request_id : str)
    (request : DownloadRequest.t) : M (str * TrackInfo.t) :=
  let spotify_url := get_spotify_url request in
  if negb (truthy_opt spotify_url) && negb (has_metadata request) then
    raise (HTTPException 400
             (lit "Either Spotify URL/Track ID or complete track metadata (title + artist) is required"))
  else
    let temp_base_dir := if negb (win32 w) then lit "/tmp" else gettempdir w in
    temp_dir <- mkdtemp w (lit "song_dl_" ++ request_id ++ lit "_")
                        temp_base_dir ;;
    set_temp_dir (Some temp_dir) ;;
    track_info <- resolve_track_info w request spotify_url ;;
    ret (temp_dir, track_info).

(** The second half (lines 575-631): the download and the response. *)
Definition frontend_deliver (w : World) (request_id : str)
    (temp_dir : str) (track_info : TrackInfo.t) : M StreamingResponse :=
  download_result <-
    download_audio w (TrackInfo.search_query track_info) temp_dir ;;
  if negb (DownloadResult.success download_result) then
    raise (HTTPException 500
             (lit "Download failed: "
              ++ default (lit "None") (DownloadResult.error download_result)))
  else
    match DownloadResult.file_path download_result with
    | None =>
        raise (OtherException
                 (lit "expected str, bytes or os.PathLike object, not NoneType"))
    | Some (dir, name) =>
        s <- get_state ;;
        match fs s !! dir ≫= dir_lookup name with
        | None =>
            raise (HTTPException 404 (lit "Downloaded file not found"))
        | Some Subdir =>
            raise (OtherException
                     (lit "[Errno 21] Is a directory: '"
                      ++ path_join dir name ++ lit "'"))
        | Some (File file_content) =>
            match DownloadResult.file_name download_result with
            | None =>
                raise (OtherException
                         (lit "'NoneType' object is not iterable"))
            | Some file_name =>
                quoted_filename <- quoted file_name ;;
                let headers :=
                  response_headers w request_id track_info
                    file_name quoted_filename file_content in
                match init_headers headers with
                | Some e => raise e
                | None =>
                    ret {| media_type :=
                             DownloadResult.content_type download_result;
                           headers := headers;
                           body_chunks :=
                             chunks_of (length file_content) (N.to_nat 8192)
                                       file_content |}
                end
            end
        end
    end.

(** The [try] block of the endpoint. *)
Definition frontend_body (w : World) (request_id : str)
    (request : DownloadRequest.t) : M StreamingResponse :=
  p <- frontend_prepare w request_id request ;;
  frontend_deliver w request_id p.1 p.2.

(** The [finally] clause. *)
Definition frontend_cleanup (w : World) : M unit :=
  s <- get_state ;;
  match temp_dir s with
  | Some d =>
      if truthy d && bool_decide (is_Some (fs s !! d)) then rmtree w d
      else ret tt
  | None => ret tt
  end.

Definition download_song_frontend (w : World) (request : DownloadRequest.t)
  : M StreamingResponse :=
  let request_id := lit "req_" ++ decimal (time_ms w) in
  set_temp_dir None ;;
  try_finally
    (try_except
       (frontend_body w request_id request)
       (fun e =>
          match e with
          | HTTPException _ _ => Some (raise e)
          | TimeoutError _ =>
              Some (raise (HTTPException 504
                             (lit "Download operation timed out")))
          | e =>
              on_Exception (fun e =>
                raise (HTTPException 500
                         (lit "Unexpected error: " ++ exn_str e))) e
          end))
    (frontend_cleanup w).

(** *** [download_with_ytdlp] of download_spotify_song_simple.py *)

Definition script_extensions : list str :=
  [lit ".webm"; lit ".m4a"; lit ".opus"; lit ".mp3"; lit ".aac"].

(** [os.path.splitext(name)[1]] for a name without a path separator: from
    the last dot on, unless only dots come before it. *)
Definition splitext_ext (name : str) : str :=
  match find (lit ".") (rev name) with
  | Some k =>
      let i := (length name - 1 - k)%nat in
      if forallb (fun c => (c =? 46)%N) (take i name) then [] else drop i name
  | None => []
  end.

(** [os.remove(os.path.join(output_dir, name))]. *)
Definition os_remove (output_dir name : str) (d : directory)
  : directory + exn :=
  match dir_lookup name d with
  | Some (File _) =>
      inl (filter (fun e : str * node => negb (str_eqb e.1 name)) d)
  | Some Subdir =>
      inr (OtherException (lit "[Errno 21] Is a directory: '"
                           ++ path_join output_dir name ++ lit "'"))
  | None =>
      inr (OtherException (lit "[Errno 2] No such file or directory: '"
                           ++ path_join output_dir name ++ lit "'"))
  end.

(** [os.rename] inside [output_dir] (POSIX: a file replaces a file). *)
Definition os_rename (output_dir src dst : str) (d : directory)
  : directory + exn :=
  let moved :=
    map (fun e : str * node => if str_eqb e.1 src then (dst, e.2) else e)
        (filter (fun e : str * node => negb (str_eqb e.1 dst)) d) in
  match dir_lookup src d, dir_lookup dst d with
  | None, _ =>
      inr (OtherException (lit "[Errno 2] No such file or directory: '"
                           ++ path_join output_dir src ++ lit "' -> '"
                           ++ path_join output_dir dst ++ lit "'"))
  | Some _, None => inl moved
  | Some (File _), Some (File _) => inl moved
  | Some (File _), Some Subdir =>
      inr (OtherException (lit "[Errno 21] Is a directory: '"
                           ++ path_join output_dir src ++ lit "' -> '"
                           ++ path_join output_dir dst ++ lit "'"))
  | Some Subdir, Some _ =>
      inr (OtherException (lit "[Errno 20] Not a directory: '"
                           ++ path_join output_dir src ++ lit "' -> '"
                           ++ path_join output_dir dst ++ lit "'"))
  end.

(** The loop "Rename previous latest to previous" (lines 176-186): the
    directory it leaves, and the exception that stopped it, if any. *)
Fixpoint rotate_latest (output_dir : str) (extensions : list str)
    (d : directory) : option exn * directory :=
  match extensions with
  | [] => (None, d)
  | ext :: rest =>
      let latest := lit "latest" ++ ext in
      let previous := lit "previous" ++ ext in
      match dir_lookup latest d with
      | Some _ =>
          match (match dir_lookup previous d with
                 | Some _ => os_remove output_dir previous d
                 | None => inl d
                 end) with
          | inr e => (Some e, d)
          | inl d1 =>
              match os_rename output_dir latest previous d1 with
              | inr e => (Some e, d1)
              | inl d2 => rotate_latest output_dir rest d2
              end
          end
      | None => rotate_latest output_dir rest d
      end
  end.

(** [os.listdir(output_dir)]: the names of the entries; the empty path
    names no directory. *)
Definition os_listdir (output_dir : str) (d : directory) : list str + exn :=
  if truthy output_dir then inl (map fst d)
  else inr (OtherException (lit "[Errno 2] No such file or directory: ''")).

Definition ends_with_any (extensions : list str) (f : str) : bool :=
  existsb (fun ext => endswith ext f) extensions.

(** The function's [except Exception as e]: the dict it returns, or the
    exception itself when that clause does not catch it. *)
Definition script_except (e : exn) : script_result + exn :=
  if is_Exception e
  then inl (ScriptFailure (lit "Download error: " ++ exn_str e) None)
  else inr e.

(** The command line of yt-dlp (lines 139-150). *)
Definition ytdlp_cmd (sw : ScriptWorld) (output_template music_search_url : str)
  : list str :=
  [executable sw; lit "-m"; lit "yt_dlp";
   lit "-f"; lit "bestaudio[ext=m4a]/bestaudio";
   lit "--no-post-overwrites"; lit "--no-warnings"; lit "--no-playlist";
   lit "--quiet"; lit "--progress"; lit "--playlist-items"; lit "1";
   lit "-o"; output_template; music_search_url].

Definition download_with_ytdlp (sw : ScriptWorld)
    (search_query output_dir : str) (use_consistent_naming : bool)
    (d : directory) : (script_result + exn) * directory :=
  let output_template :=
    if use_consistent_naming
    then path_join output_dir (lit "temp_download.%(ext)s")
    else path_join output_dir (lit "%(title)s.%(ext)s") in
  match quote search_query with
  | inr msg => (script_except (OtherException msg), d)
  | inl q =>
      let music_search_url := lit "https://music.youtube.com/search?q=" ++ q in
      let cmd := ytdlp_cmd sw output_template music_search_url in
      match subprocess_run sw cmd d with
      | (d1, TimeoutExpired) =>
          (inl (ScriptFailure (lit "Download timed out (>180s)") None), d1)
      | (d1, RunRaises e) => (script_except e, d1)
      | (d1, Exited returncode stderr) =>
          let failed := ScriptFailure (lit "Download failed") (Some stderr) in
          if negb (returncode =? 0)%Z then (inl failed, d1)
          else
            match os_listdir output_dir d1 with
            | inr e => (script_except e, d1)
            | inl names =>
                if use_consistent_naming then
                  let temp_files :=
                    filter (fun f => startswith (lit "temp_download") f
                                     && ends_with_any script_extensions f)
                           names in
                  match temp_files with
                  | [] => (inl failed, d1)
                  | temp_file :: _ =>
                      let file_ext := splitext_ext temp_file in
                      match rotate_latest output_dir script_extensions d1 with
                      | (Some e, d2) => (script_except e, d2)
                      | (None, d2) =>
                          let latest := lit "latest" ++ file_ext in
                          match os_rename output_dir temp_file latest d2 with
                          | inr e => (script_except e, d2)
                          | inl d3 =>
                              (inl (ScriptSuccess latest
                                      (path_join output_dir latest)), d3)
                          end
                      end
                  end
                else
                  let files := filter (ends_with_any script_extensions) names in
                  match last files with
                  | Some f =>
                      (inl (ScriptSuccess f (path_join output_dir f)), d1)
                  | None => (inl failed, d1)
                  end
            end
      end
  end.

(** *** The endpoint [get_track_metadata] *)

Definition get_track_metadata (w : World) (url : str) : M TrackMetadata.t :=
  try_except
    (track_info <- extract_from_api w url ;;
     track_info <- match track_info with
                   | Some t => ret (Some t)
                   | None => extract_from_oembed w url
                   end ;;
     match track_info with
     | None =>
         raise (HTTPException 400
                  (lit "Could not extract track metadata from URL"))
     | Some t =>
         ret {| TrackMetadata.name := TrackInfo.name t;
                TrackMetadata.artists := TrackInfo.artists t;
                TrackMetadata.searchQuery := TrackInfo.search_query t;
                TrackMetadata.album := TrackInfo.album t;
                TrackMetadata.duration := TrackInfo.duration t |}
     end)
    (fun e =>
       match e with
       | HTTPException _ _ => Some (raise e)
       | e =>
           on_Exception (fun e =>
             raise (HTTPException 500
                      (lit "Error extracting metadata: " ++ exn_str e))) e
       end).

(** *** The extractors and [main] of download_spotify_song_simple.py *)

(** The dict [extract_track_info_from_api] builds from the API's JSON
    (lines 38-49); [artists[0]] is evaluated whether or not 'searchQuery'
    is present, and its [IndexError] is caught by the function. *)
Definition script_track_info_of_api (data : api_data) : option script_info :=
  if has_error data then None
  else
    let track_name := default (lit "Unknown") (api_name data) in
    let artists := default [lit "Unknown Artist"] (api_artists data) in
    match artists with
    | [] => None
    | first :: _ =>
        Some {| info_name := track_name;
                info_artists := artists;
                info_search_query :=
                  default (track_name ++ SPACE ++ first)
                          (api_searchQuery data) |}
    end.

(** The extractors return their dict (or [None]) and the requests made. *)
Definition extract_track_info_from_api (w : World) (spotify_url : str)
  : option script_info * list event :=
  match quote spotify_url with
  | inr _ => (None, [])
  | inl q =>
      let api_url :=
        lit "http://localhost:3000/api/spotify/track-metadata?url=" ++ q in
      (match api_get w api_url with
       | Response status data =>
           if (200 <=? status)%N && (status <? 300)%N
           then script_track_info_of_api data else None
       | Fails => None
       end, [EvApiGet api_url])
  end.

(** The title parsing of [extract_track_info_from_url] (lines 85-108). *)
Definition script_parse_title (title : str) : str * str :=
  if contains SEP_QUOTED title then
    let '(n, a) := split_title SEP_QUOTED title in (strip_chars QUOTE n, a)
  else if contains SEP_DASH title then split_title SEP_DASH title
  else if contains SEP_BY title then split_title SEP_BY title
  else (title, lit "Unknown Artist").

Definition extract_track_info_from_url (w : World) (spotify_url : str)
  : option script_info * list event :=
  match track_id_of_url spotify_url with
  | None => (None, [])
  | Some track_id =>
      if negb (truthy track_id) then (None, [])
      else
        let oembed_url :=
          lit "https://open.spotify.com/oembed?url=https://open.spotify.com/track/"
          ++ track_id in
        (match oembed_get w oembed_url with
         | Response status title =>
             if (200 <=? status)%N && (status <? 300)%N then
               let '(track_name, artist) :=
                 script_parse_title (default [] title) in
               Some {| info_name := track_name;
                       info_artists := [artist];
                       info_search_query := track_name ++ SPACE ++ artist |}
             else None
         | Fails => None
         end, [EvOembedGet oembed_url])
  end.

(** [os.makedirs(output_folder, exist_ok=True)]: the empty path names
    nothing and cannot be created; a directory that exists is left as it
    is; a path taken by something else is refused; a directory that is
    missing is created unless the system refuses. *)
Definition makedirs (sw : ScriptWorld) (output_folder : str)
    (folder : folder_state) : directory + exn :=
  if negb (truthy output_folder) then
    inr (OtherException (lit "[Errno 2] No such file or directory: ''"))
  else
    match folder with
    | NoFolder =>
        match makedirs_error sw output_folder with
        | Some msg => inr (OtherException msg)
        | None => inl []
        end
    | Folder d => inl d
    | NotAFolder =>
        inr (OtherException
               (lit "[Errno 17] File exists: '" ++ output_folder ++ lit "'"))
    end.

(** [main]: what it prints and the status it exits with, or the exception
    that ends it; the output folder it leaves; the requests it made. *)
Definition script_main (w : World) (sw : ScriptWorld) (argv : list str)
    (folder : folder_state)
  : (script_exit + exn) * folder_state * list event :=
  if (length argv <? 3)%nat then
    (inl {| stdout := OutUsage; exit_code := 1 |}, folder, [])
  else
    let spotify_url := item 1 argv in
    let output_folder := item 2 argv in
    let use_consistent_naming :=
      (3 <? length argv)%nat && str_eqb (lower (item 3 argv)) (lit "true") in
    match makedirs sw output_folder folder with
    | inr e => (inr e, folder, [])
    | inl d =>
        let '(track_info, evs1) :=
          extract_track_info_from_api w spotify_url in
        let '(track_info, evs2) :=
          match track_info with
          | Some t => (Some t, [])
          | None => extract_track_info_from_url w spotify_url
          end in
        match track_info with
        | None =>
            (inl {| stdout := OutNoTrack; exit_code := 1 |},
             Folder d, evs1 ++ evs2)
        | Some t =>
            let track_name := info_name t in
            let artists := info_artists t in
            match artists with
            | [] =>
                (inr (OtherException (lit "list index out of range")),
                 Folder d, evs1 ++ evs2)
            | _ :: _ =>
                let search_query := info_search_query t in
                match download_with_ytdlp sw search_query output_folder
                        use_consistent_naming d with
                | (inr e, d') => (inr e, Folder d', evs1 ++ evs2)
                | (inl (ScriptSuccess file path), d') =>
                    (inl {| stdout := OutSuccess file path track_name artists;
                            exit_code := 0 |},
                     Folder d', evs1 ++ evs2)
                | (inl (ScriptFailure error details), d') =>
                    (inl {| stdout :=
                              OutFailure error track_name artists
                                (match details with
                                 | Some x =>
                                     if truthy x then take 500 x
                                     else lit "Unknown error"
                                 | None => lit "Unknown error"
                                 end);
                            exit_code := 1 |},
                     Folder d', evs1 ++ evs2)
                end
            end
        end
    end.

(** *** merge_cookies.py *)

(** [int(s)]: the number, or the message of the [ValueError]. *)
Variable py_int : str -> Z + str.

Definition parse_cookie_line (line : str) : parsed + exn :=
  let parts := split TAB (strip line) in
  if (length parts <? 7)%nat then inl NoCookie
  else
    match (if negb (str_eqb (item 4 parts) (lit "0"))
           then py_int (item 4 parts) else inl 0%Z) with
    | inr msg => inr (OtherException msg)
    | inl n =>
        inl (ACookie
               {| Cookie.domain := item 0 parts;
                  Cookie.flag := str_eqb (item 1 parts) (lit "TRUE");
                  Cookie.path := item 2 parts;
                  Cookie.secure := str_eqb (item 3 parts) (lit "TRUE");
                  Cookie.expiration := n;
                  Cookie.name := item 5 parts;
                  Cookie.value := item 6 parts;
                  Cookie.raw_line := strip line |})
    end.

(** [bool(cookie)] for what [parse_cookie_line] returned: a tuple of two
    items and a dict of eight keys are both true. *)
Definition parsed_truthy (p : parsed) : bool :=
  match p with NoCookie => true | ACookie _ => true end.

(** The loop over the lines of one file (lines 50-79). *)
Fixpoint merge_lines (lines : list str) (cookies : cookie_jar)
  : cookie_jar + exn :=
  match lines with
  | [] => inl cookies
  | line :: rest =>
      let line := strip line in
      if negb (truthy line) || startswith (lit "#") line
      then merge_lines rest cookies
      else
        match parse_cookie_line line with
        | inr e => inr e
        | inl cookie =>
            if negb (parsed_truthy cookie) then merge_lines rest cookies
            else
              match cookie with
              | NoCookie =>
                  (* cookie['domain'] on a tuple *)
                  inr (OtherException
                         (lit "tuple indices must be integers or slices, not str"))
              | ACookie cookie =>
                  let key := cookie_key cookie in
                  merge_lines rest
                    (match jar_get key cookies with
                     | Some existing =>
                         if replaces existing cookie
                         then jar_set key cookie cookies else cookies
                     | None => jar_set key cookie cookies
                     end)
              end
        end
  end.

(** The dict [cookies] after the loop over the files that exist. *)
Definition merged_jar (youtube_file music_file : option (list str))
  : cookie_jar + exn :=
  let files_to_process :=
    (match youtube_file with Some l => [l] | None => [] end)
    ++ (match music_file with Some l => [l] | None => [] end) in
  foldl (fun acc lines =>
           match acc with
           | inl cookies => merge_lines lines cookies
           | inr e => inr e
           end)
        (inl []) files_to_process.

Definition COOKIE_HEADER (now : str) : list str :=
  [lit "# Netscape HTTP Cookie File";
   lit "# https://curl.haxx.se/rfc/cookie_spec.html";
   lit "# This is a generated file! Do not edit.";
   lit "#";
   lit "# Combined YouTube & YouTube Music Cookie File";
   lit "# Intelligently merged with preference for newer cookies";
   lit "# Generated: " ++ now;
   lit "#";
   []].

(** [merge_cookie_files]: the lines it writes to the output file and the
    number it returns, or the exception it raises before it writes; [now]
    is [datetime.now().isoformat()]. *)
Definition merge_cookie_files (youtube_file music_file : option (list str))
    (now : str) : (list str * nat) + exn :=
  match merged_jar youtube_file music_file with
  | inr e => inr e
  | inl cookies =>
      let sorted_cookies := sorted_by_key (map snd cookies) in
      inl (COOKIE_HEADER now ++ map Cookie.raw_line sorted_cookies,
           length cookies)
  end.

(** [path.rename(target)] in the cookies directory.  On Windows it
    refuses a target that exists; on every platform the system can refuse
    it ([rename_error src dst] is then the text of the [OSError]: the
    target is a directory, a permission is missing, ...). *)
Definition rename_file (win32 : bool)
    (rename_error : str -> str -> option str) (src dst : str)
    (dir : gmap str (list str)) : gmap str (list str) + exn :=
  match dir !! src with
  | None =>
      inr (OtherException (lit "[Errno 2] No such file or directory: '"
                           ++ src ++ lit "' -> '" ++ dst ++ lit "'"))
  | Some content =>
      if win32 && bool_decide (is_Some (dir !! dst))
      then inr (OtherException
                  (lit "[WinError 183] Cannot create a file when that file already exists: '"
                   ++ src ++ lit "' -> '" ++ dst ++ lit "'"))
      else
        match rename_error src dst with
        | Some msg => inr (OtherException msg)
        | None => inl (<[dst := content]> (delete src dir))
        end
  end.

(** [main] of merge_cookies.py on the cookies directory (the names of its
    regular files mapped to their lines; reading them and writing
    cookies.txt are taken to succeed): the status it returns and the
    directory it leaves. *)
Definition cookies_main (win32 : bool)
    (rename_error : str -> str -> option str) (now : str)
    (dir : gmap str (list str)) : Z * gmap str (list str) :=
  let youtube_file := dir !! YOUTUBE_FILE in
  let music_file := dir !! MUSIC_FILE in
  if negb (bool_decide (is_Some youtube_file))
     && negb (bool_decide (is_Some music_file))
  then (1%Z, dir)
  else
    match merge_cookie_files youtube_file music_file now with
    | inr e => (1%Z, dir)
    | inl (lines, cookie_count) =>
        let dir := <[OUTPUT_FILE := lines]> dir in
        match (if bool_decide (is_Some (dir !! YOUTUBE_FILE))
               then rename_file win32 rename_error YOUTUBE_FILE
                      (YOUTUBE_FILE ++ lit ".backup") dir
               else inl dir) with
        | inr e => (1%Z, dir)
        | inl dir1 =>
            match (if bool_decide (is_Some (dir1 !! MUSIC_FILE))
                   then rename_file win32 rename_error MUSIC_FILE
                          (MUSIC_FILE ++ lit ".backup") dir1
                   else inl dir1) with
            | inr e => (1%Z, dir1)
            | inl dir2 => (0%Z, dir2)
            end
        end
    end.

(** ** Notions used in the statements

    Definitions that belong to the statements rather than to the program:
    the claims that the code does not meet, as the specification words
    them ([explicit_query_first], [whole_title_is_name],
    [forbidden_attempt_triggers_fallback], [last_failure_fails],
    [workspace_always_released], [consistent_naming_honoured],
    [latest_is_the_download]);
    readings of the trace; and footprints of computations. *)

(** The precedence as the specification words it: an explicit
    [search_query], when present, is the query. *)
Definition explicit_query_first : Prop :=
  forall (r : DownloadRequest.t) (q : str),
    DownloadRequest.search_query r = Some q -> truthy q = true ->
    get_search_query r = q.

(** The text before the first [sep], and the text between that [sep] and
    the next one (or the end). *)
Definition cut (sep s : str) : option (str * str) :=
  match find sep s with
  | None => None
  | Some n =>
      let rest := drop (n + length sep) s in
      Some (take n s,
            match find sep rest with Some m => take m rest | None => rest end)
  end.

(** The cleaning of the sentinels (lines 264-265). *)
Definition clean_name (n : str) : str :=
  if str_eqb (lower n) (lit "unknown") then lit "Unknown" else n.

Definition clean_artist (a : str) : str :=
  if in_list (lower a) [lit "unknown artist"; lit "unknown"; []]
  then lit "Unknown Artist" else a.

(** The separators in the order they are tried on a non-empty title. *)
Definition title_rule (title : str) : str * str :=
  match cut SEP_DOT title with
  | Some p => p
  | None =>
      match cut SEP_QUOTED title with
      | Some (n, a) => (strip_chars QUOTE n, a)
      | None =>
          match cut SEP_DASH title with
          | Some p => p
          | None =>
              match cut SEP_BY title with
              | Some p => p
              | None => (title, lit "Unknown Artist")
              end
          end
      end
  end.

(** The claim as the specification words it, for a title without any of
    the separators: the whole title is the name (sentinel cleaning apart). *)
Definition whole_title_is_name : Prop :=
  forall raw : str,
    contains SEP_DOT raw = false -> contains SEP_QUOTED raw = false ->
    contains SEP_DASH raw = false -> contains SEP_BY raw = false ->
    (parse_oembed_title raw).1 = clean_name raw.

(** [emits P m]: whatever [m] does, it leaves the local [temp_dir] alone and
    appends to the trace only events that satisfy [P]. *)
Definition emits {A} (P : event -> Prop) (m : M A) : Prop :=
  forall s r s',
    m s = (r, s') ->
    temp_dir s' = temp_dir s /\
    exists evs, trace s' = trace s ++ evs /\ Forall P evs.

(** Classes of events. *)
Definition is_network (ev : event) : bool :=
  match ev with EvApiGet _ | EvOembedGet _ => true | _ => false end.

Definition is_ydl (ev : event) : bool :=
  match ev with EvYdl _ _ _ => true | _ => false end.

Definition is_mkdtemp (ev : event) : bool :=
  match ev with EvMkdtemp _ => true | _ => false end.

(** An [EvYdl] event whose options ask for format [f]. *)
Definition uses_format (f : str) (ev : event) : bool :=
  match ev with
  | EvYdl opts _ _ => str_eqb (format opts) f
  | _ => false
  end.

(** The details of two HTTP errors. *)
Definition EARLY_REJECTION : str :=
  lit "Either Spotify URL/Track ID or complete track metadata (title + artist) is required".

Definition TIMEOUT_FAILURE : str :=
  lit "Download failed: Download timed out after 120 seconds".

(** [raises_only P m]: an exception that [m] ends with satisfies [P]. *)
Definition raises_only {A} (P : exn -> Prop) (m : M A) : Prop :=
  forall s r s' e, m s = (r, s') -> r = Raise e -> P e.

(** Neither a [TimeoutError] nor an [HTTPException] with status 504. *)
Definition no_gateway_timeout (e : exn) : Prop :=
  match e with
  | TimeoutError _ => False
  | HTTPException c _ => c <> 504%N
  | _ => True
  end.

(** The exception, if any, that [ydl.download] raised in the attempt an
    event records and that [except Exception] catches. *)
Definition raised_at (w : World) (ev : event) : option exn :=
  match ev with
  | EvYdl opts url before =>
      match (ydl_download w opts url before).2 with
      | YdlRaises e => if is_Exception e then Some e else None
      | _ => None
      end
  | _ => None
  end.

(** The output directory as an attempt found it. *)
Definition workspace_at (ev : event) : option (option directory) :=
  match ev with EvYdl _ _ before => Some before | _ => None end.

(** The list [format_attempts] of [_download]. *)
Definition format_attempts (o : ydl_opts) : list str :=
  [format o; lit "bestaudio/best"; lit "best"].

(** What [iterdir] raises on a directory that does not exist. *)
Definition NOT_FOUND (d : str) : exn :=
  OtherException (lit "[Errno 2] No such file or directory: '" ++ d ++ lit "'").

(** A directory after [unlink_files]. *)
Definition without_files (entries : directory) : directory :=
  filter (fun e : str * node => negb (is_file e.2)) entries.

(** What a run of the loop reports: it starts in state [s] with the
    preferences [formats] still to try, appends the events [evs], and ends
    with [res] in state [s'].
    - The events are attempts with these preferences, in their order.
    - The first attempt finds the directory as [s] has it.
    - An attempt that follows a raising one finds the directory without
      any file.
    - When the attempt with the last preference raises, so does the loop:
      that very exception, unless the directory has gone.
    - A [DownloadError] leaves the loop only from the attempt with the last
      preference. *)
Definition loop_facts (w : World) (o : ydl_opts) (url d : str)
    (formats : list str) (s : state) (res : outcome DownloadResult.t)
    (s' : state) (evs : list event) : Prop :=
  Forall2 (fun ev f => exists b, ev = EvYdl (with_format o f) url b)
          evs (take (length evs) formats) /\
  (forall ev, head evs = Some ev -> workspace_at ev = Some (fs s !! d)) /\
  (forall j ev1 ev2 e,
      evs !! j = Some ev1 -> evs !! S j = Some ev2 ->
      raised_at w ev1 = Some e ->
      exists entries,
        workspace_at ev2 = Some (Some entries) /\
        Forall (fun x : str * node => is_file x.2 = false) entries) /\
  (forall ev e,
      evs !! (length formats - 1) = Some ev ->
      raised_at w ev = Some e ->
      exists e', res = Raise e' /\ (is_Some (fs s' !! d) -> e' = e)) /\
  (forall m,
      res = Raise (DownloadError m) ->
      exists ev, evs !! (length formats - 1) = Some ev /\
                 raised_at w ev = Some (DownloadError m)).

(** The output directory as [ydl.download] left it in the attempt an
    event records. *)
Definition left_at (w : World) (ev : event) : option directory :=
  match ev with
  | EvYdl opts url before => (ydl_download w opts url before).1
  | _ => None
  end.

(** The options [_download] starts from, and the event of an attempt with
    the format [f] for the quoted query [qq] on the directory [before]. *)
Definition attempt_opts (d : str) : ydl_opts :=
  with_outtmpl (default_opts (path_join d (lit "%(title)s.%(ext)s")))
               (path_join d (lit "%(title)s.%(ext)s")).

Definition attempt (d qq f : str) (before : option directory) : event :=
  EvYdl (with_format (attempt_opts d) f)
        (lit "https://music.youtube.com/search?q=" ++ qq) before.

(** The exceptions that [download_audio] answers with its fallback pass. *)
Definition is_forbidden_error (e : exn) : bool :=
  match e with DownloadError m => is_forbidden m | _ => false end.

(** The first pass of [download_audio]: the format attempts under the
    120 s deadline. *)
Definition primary_pass (w : World) (search_query output_dir : str)
  : M DownloadResult.t :=
  wait_for (_download w (default_opts
                           (path_join output_dir (lit "%(title)s.%(ext)s")))
                      search_query output_dir).

(** The claim as the specification words it: an attempt that fails with a
    forbidden download error is followed, before the engine reports
    failure, by a pass with the fallback configuration. *)
Definition forbidden_attempt_triggers_fallback : Prop :=
  forall w q d s res s' evs ev m,
    download_audio w q d s = (Ok res, s') ->
    trace s' = trace s ++ evs ->
    DownloadResult.success res = false ->
    ev ∈ evs -> raised_at w ev = Some (DownloadError m) ->
    is_forbidden m = true ->
    exists url before, EvYdl (fallback_opts d) url before ∈ evs.

(** The claim as the specification words it: when the attempt with the
    last preference raises, the download fails. *)
Definition last_failure_fails : Prop :=
  forall w q d s dr s' evs ev e,
    download_audio w q d s = (Ok dr, s') ->
    trace s' = trace s ++ evs ->
    evs !! 2 = Some ev -> raised_at w ev = Some e ->
    DownloadResult.success dr = false.

(** A call of yt-dlp that was still running when its deadline expired:
    the thread that makes it outlives the wait. *)
Definition outlives (w : World) (ev : event) : bool :=
  match ev with
  | EvYdl opts url before =>
      match (ydl_download w opts url before).2 with
      | YdlPending => true
      | _ => false
      end
  | _ => false
  end.

(** The claim as the specification words it: after a run, a directory
    that the run has created does not exist. *)
Definition workspace_always_released : Prop :=
  forall w r s res s' evs d,
    download_song_frontend w r s = (res, s') ->
    trace s' = trace s ++ evs ->
    EvMkdtemp d ∈ evs ->
    fs s' !! d = None.

(** The claim as the specification words it, read on the script: the file
    that a run with consistent naming leaves as [latest.<ext>] is one that
    yt-dlp has written in this run, under a name the folder did not have
    before. *)
Definition latest_is_the_download : Prop :=
  forall sw q qq od d file path d' d1 rc stderr,
    quote q = inl qq ->
    download_with_ytdlp sw q od true d = (inl (ScriptSuccess file path), d') ->
    subprocess_run sw
      (ytdlp_cmd sw (path_join od (lit "temp_download.%(ext)s"))
                 (lit "https://music.youtube.com/search?q=" ++ qq)) d
    = (d1, Exited rc stderr) ->
    exists temp_file,
      dir_lookup temp_file d = None /\
      is_Some (dir_lookup temp_file d1) /\
      dir_lookup file d' = dir_lookup temp_file d1.

(** The claim as the specification words it, read on the endpoint: a
    request that enables consistent naming has its file downloaded under
    the fixed temporary name. *)
Definition consistent_naming_honoured : Prop :=
  forall w r s res s' evs opts url before,
    DownloadRequest.use_consistent_naming r = true ->
    download_song_frontend w r s = (res, s') ->
    trace s' = trace s ++ evs ->
    EvYdl opts url before ∈ evs ->
    exists d, outtmpl opts = Some (path_join d (lit "temp_download.%(ext)s")).

(** [ends P m]: [m] returns, or raises an exception that satisfies [P]; it
    is never left waiting for an external call. *)
Definition ends {A} (P : exn -> Prop) (m : M A) : Prop :=
  forall s r s',
    m s = (r, s') ->
    match r with Ok _ => True | Raise e => P e | Pending => False end.

(** The file system differs at [d] at most. *)
Definition same_outside (d : str) (s s' : state) : Prop :=
  forall p, p <> d -> fs s' !! p = fs s !! p.

(** [alters_only d m]: of the file system, [m] changes nothing but [d]. *)
Definition alters_only {A} (d : str) (m : M A) : Prop :=
  forall s r s', m s = (r, s') -> same_outside d s s'.

(** [calls_at_most n m]: [m] appends at most [n] events to the trace. *)
Definition calls_at_most {A} (n : nat) (m : M A) : Prop :=
  forall s r s',
    m s = (r, s') -> exists evs, trace s' = trace s ++ evs /\ length evs <= n.

(** The messages of the failures [download_audio] reports. *)
Definition reported (msg : str) : Prop :=
  msg = lit "Download timed out after 120 seconds" \/
  (exists m, msg = lit "yt-dlp download error: " ++ m) \/
  (exists m, msg = lit "yt-dlp extractor error: " ++ m) \/
  (exists m, msg = lit "Unexpected download error: " ++ m).

(** The directory the endpoint creates for a request. *)
Definition workspace_of (w : World) : str :=
  path_join (if negb (win32 w) then lit "/tmp" else gettempdir w)
            ((lit "song_dl_" ++ (lit "req_" ++ decimal (time_ms w)) ++ lit "_")
             ++ mkdtemp_suffix w).

(** A yt-dlp call for the query whose quoted form is [qq], writing under
    the title template of [d] and limited to the first search result. *)
Definition music_call (d qq : str) (ev : event) : Prop :=
  exists opts before,
    ev = EvYdl opts (lit "https://music.youtube.com/search?q=" ++ qq) before /\
    noplaylist opts = true /\ playlist_items opts = lit "1" /\
    outtmpl opts = Some (path_join d (lit "%(title)s.%(ext)s")).

(** The exceptions the [try] block of [download_song_frontend] can end
    with: an [HTTPException] with status 400 or 500, or an exception that
    is neither an [HTTPException] nor a [TimeoutError]. *)
Definition client_or_server_error (e : exn) : Prop :=
  match e with
  | HTTPException c _ => c = 400%N \/ c = 500%N
  | TimeoutError _ => False
  | _ => True
  end.

(** The dict [get_track_metadata] builds from track information. *)
Definition metadata_of (t : TrackInfo.t) : TrackMetadata.t :=
  {| TrackMetadata.name := TrackInfo.name t;
     TrackMetadata.artists := TrackInfo.artists t;
     TrackMetadata.searchQuery := TrackInfo.search_query t;
     TrackMetadata.album := TrackInfo.album t;
     TrackMetadata.duration := TrackInfo.duration t |}.

Definition NO_METADATA : exn :=
  HTTPException 400 (lit "Could not extract track metadata from URL").

(** A string that does not begin with a character [p] accepts. *)
Definition clean (p : N -> bool) (s : str) : Prop :=
  match s with [] => True | c :: _ => p c = false end.

(** The URL of the metadata API for a quoted track URL. *)
Definition api_url (q : str) : str :=
  lit "http://localhost:3000/api/spotify/track-metadata?url=" ++ q.

(** The requests a resolution can make: the metadata API first, the oEmbed
    endpoint after it, each at most once. *)
Definition api_then_oembed (evs : list event) : Prop :=
  evs = [] \/ (exists x, evs = [EvApiGet x]) \/
  (exists x, evs = [EvOembedGet x]) \/
  (exists x y, evs = [EvApiGet x; EvOembedGet y]).

Definition is_success (o : script_output) : bool :=
  match o with OutSuccess _ _ _ _ => true | _ => false end.

(** [at_least c c']: [c'] expires later than [c], or at the same time with
    a value that is not shorter. *)
Definition at_least (c c' : Cookie.t) : Prop :=
  (Cookie.expiration c < Cookie.expiration c')%Z \/
  (Cookie.expiration c = Cookie.expiration c' /\
   length (Cookie.value c) <= length (Cookie.value c')).

(** [reads lines c]: [c] is the cookie of one of the [lines] that is
    neither blank nor a comment. *)
Definition reads (lines : list str) (c : Cookie.t) : Prop :=
  exists line,
    line ∈ lines /\ truthy (strip line) = true /\
    startswith (lit "#") (strip line) = false /\
    parse_cookie_line (strip line) = inl (ACookie c).

(** The keys of a jar are distinct, and each is the key of its cookie. *)
Definition jar_ok (jar : cookie_jar) : Prop :=
  NoDup (map fst jar) /\
  Forall (fun kv : (str * str) * Cookie.t => cookie_key kv.2 = kv.1) jar.

Definition key_le (a b : Cookie.t) : Prop :=
  key_leb (cookie_key a) (cookie_key b) = true.

(** The lines of the files that exist, in the order they are read. *)
Definition lines_read (youtube_file music_file : option (list str))
  : list str :=
  default [] youtube_file ++ default [] music_file.

(** The five files [main] of merge_cookies.py reads or writes. *)
Definition COOKIE_FILES : list str :=
  [YOUTUBE_FILE; MUSIC_FILE; OUTPUT_FILE;
   YOUTUBE_FILE ++ lit ".backup"; MUSIC_FILE ++ lit ".backup"].

(** ** A concrete runtime, requests and worlds

    They instantiate the theorems below; none of them depends on the
    Section variables. *)

(** [str.isspace] as CPython has it. *)
Definition py_isspace (c : N) : bool :=
  ((9 <=? c) && (c <=? 13) || (28 <=? c) && (c <=? 32) || (c =? 133)
   || (c =? 160) || (c =? 5760) || (8192 <=? c) && (c <=? 8202)
   || (c =? 8232) || (c =? 8233) || (c =? 8239) || (c =? 8287)
   || (c =? 12288))%N.

(** [str.lower] on ASCII letters; other code points are left as they are. *)
Definition ascii_lower (s : str) : str :=
  map (fun c => if (65 <=? c) && (c <=? 90) then c + 32 else c)%N s.

Definition hex_digit (n : N) : N :=
  (if n <? 10 then 48 + n else 55 + n)%N.

Definition percent (b : N) : str :=
  [37%N; hex_digit (b / 16); hex_digit (b mod 16)].

(** The UTF-8 bytes of a code point; [None] for a surrogate or a number
    that is no code point. *)
Definition utf8 (c : N) : option (list N) :=
  (if c <? 128 then Some [c]
   else if c <? 2048 then Some [192 + c / 64; 128 + c mod 64]
   else if c <? 65536 then
     if (55296 <=? c) && (c <=? 57343) then None
     else Some [224 + c / 4096; 128 + (c / 64) mod 64; 128 + c mod 64]
   else if c <? 1114112 then
     Some [240 + c / 262144; 128 + (c / 4096) mod 64;
           128 + (c / 64) mod 64; 128 + c mod 64]
   else None)%N.

Definition unreserved (c : N) : bool :=
  ((65 <=? c) && (c <=? 90) || (97 <=? c) && (c <=? 122)
   || (48 <=? c) && (c <=? 57)
   || (c =? 95) || (c =? 46) || (c =? 45) || (c =? 126) || (c =? 47))%N.

(** [urllib.parse.quote(s)] with its default [safe='/']. *)
Fixpoint utf8_quote (s : str) : str + str :=
  match s with
  | [] => inl []
  | c :: rest =>
      match utf8 c, utf8_quote rest with
      | Some bytes, inl q =>
          inl ((if unreserved c then [c] else concat (map percent bytes)) ++ q)
      | None, _ =>
          inr (lit "'utf-8' codec can't encode character: surrogates not allowed")
      | _, inr msg => inr msg
      end
  end.

Definition no_request : DownloadRequest.t :=
  {| DownloadRequest.spotify_url := None; DownloadRequest.song_url := None;
     DownloadRequest.url := None; DownloadRequest.trackUrl := None;
     DownloadRequest.trackId := None;
     DownloadRequest.use_consistent_naming := false;
     DownloadRequest.title := None; DownloadRequest.track_name := None;
     DownloadRequest.artist := None; DownloadRequest.artist_name := None;
     DownloadRequest.album := None; DownloadRequest.duration := None;
     DownloadRequest.track_id := None; DownloadRequest.search_query := None;
     DownloadRequest.metadata := None |}.

(** [{"title": "Song", "artist": "A, B", "album": "LP",
      "use_consistent_naming": true}]. *)
Definition song_request : DownloadRequest.t :=
  {| DownloadRequest.spotify_url := None; DownloadRequest.song_url := None;
     DownloadRequest.url := None; DownloadRequest.trackUrl := None;
     DownloadRequest.trackId := None;
     DownloadRequest.use_consistent_naming := true;
     DownloadRequest.title := Some (lit "Song");
     DownloadRequest.track_name := None;
     DownloadRequest.artist := Some (lit "A, B");
     DownloadRequest.artist_name := None;
     DownloadRequest.album := Some (lit "LP");
     DownloadRequest.duration := None;
     DownloadRequest.track_id := None; DownloadRequest.search_query := None;
     DownloadRequest.metadata := None |}.

(** [{"search_query": "explicit words",
      "metadata": {"searchQuery": "nested words"}}]. *)
Definition two_queries_request : DownloadRequest.t :=
  {| DownloadRequest.spotify_url := None; DownloadRequest.song_url := None;
     DownloadRequest.url := None; DownloadRequest.trackUrl := None;
     DownloadRequest.trackId := None;
     DownloadRequest.use_consistent_naming := false;
     DownloadRequest.title := None; DownloadRequest.track_name := None;
     DownloadRequest.artist := None; DownloadRequest.artist_name := None;
     DownloadRequest.album := None; DownloadRequest.duration := None;
     DownloadRequest.track_id := None;
     DownloadRequest.search_query := Some (lit "explicit words");
     DownloadRequest.metadata :=
       Some {[ lit "searchQuery" := lit "nested words" ]} |}.

(** A yt-dlp that names its file after the output template: the fixed
    temporary name when the template asks for it, the title otherwise. *)
Definition written_name (opts : ydl_opts) : str :=
  if endswith (lit "temp_download.%(ext)s") (default [] (outtmpl opts))
  then lit "temp_download.m4a" else lit "Song.m4a".

Definition ydl_writes (opts : ydl_opts) (url : str) (before : option directory)
  : option directory * ydl_end :=
  (Some (default [] before ++ [(written_name opts, File [1; 2; 3]%N)]),
   YdlReturns).

(** A yt-dlp that meets a 403 with the first format and finds the other
    formats unavailable. *)
Definition ydl_forbidden_first (opts : ydl_opts) (url : str)
    (before : option directory) : option directory * ydl_end :=
  (before,
   YdlRaises (DownloadError
                (if str_eqb (format opts) default_format
                 then lit "ERROR: unable to download video data: HTTP Error 403: Forbidden"
                 else lit "ERROR: Requested format is not available"))).

(** A yt-dlp that meets a 403 with every format. *)
Definition ydl_forbidden (opts : ydl_opts) (url : str)
    (before : option directory) : option directory * ydl_end :=
  (before, YdlRaises (DownloadError (lit "HTTP Error 403: Forbidden"))).

(** A yt-dlp that is still running when the deadline expires. *)
Definition ydl_hangs (opts : ydl_opts) (url : str) (before : option directory)
  : option directory * ydl_end :=
  (before, YdlPending).

(** A yt-dlp that leaves a partial file and fails on the first two formats,
    then succeeds. *)
Definition ydl_third_time (opts : ydl_opts) (url : str)
    (before : option directory) : option directory * ydl_end :=
  if str_eqb (format opts) (lit "best")
  then (Some (default [] before ++ [(lit "Song.webm", File [7]%N)]), YdlReturns)
  else (Some (default [] before ++ [(lit "Song.m4a.part", File [0]%N)]),
        YdlRaises (DownloadError (lit "ERROR: Requested format is not available"))).

Definition world_with
    (ydl : ydl_opts -> str -> option directory -> option directory * ydl_end)
  : World :=
  {| win32 := false;
     gettempdir := lit "/tmp";
     time_ms := 1700000000000;
     elapsed := lit "1.50";
     mkdtemp_suffix := lit "k3x9";
     aiohttp_installed := true;
     api_get := fun _ =>
       Response 200 {| has_error := false;
                       api_name := Some (lit "Track");
                       api_artists := Some [lit "Singer"];
                       api_searchQuery := None |};
     oembed_get := fun _ => Fails;
     ydl_download := ydl;
     rmtree_leaves := fun _ _ => None |}.

(** A world in which the download succeeds and nothing can be removed
    from the workspace afterwards. *)
Definition world_undeletable : World :=
  {| win32 := false;
     gettempdir := lit "/tmp";
     time_ms := 1700000000000;
     elapsed := lit "1.50";
     mkdtemp_suffix := lit "k3x9";
     aiohttp_installed := true;
     api_get := fun _ => Fails;
     oembed_get := fun _ => Fails;
     ydl_download := ydl_writes;
     rmtree_leaves := fun _ entries => Some entries |}.

(** A yt-dlp that meets a 403 with each of the three format preferences
    and downloads with the format of the fallback pass. *)
Definition ydl_fallback_works (opts : ydl_opts) (url : str)
    (before : option directory) : option directory * ydl_end :=
  if str_eqb (format opts) fallback_format
  then ydl_writes opts url before
  else ydl_forbidden opts url before.

Definition initial : state := {| fs := ∅; trace := []; temp_dir := None |}.

Definition workspace : str := lit "/tmp/song_dl_req_1700000000000_k3x9".

(** The script's world: the download leaves [temp_download.m4a]. *)
Definition script_world : ScriptWorld :=
  {| executable := lit "python3";
     subprocess_run := fun cmd d =>
       (d ++ [(lit "temp_download.m4a", File [9; 9]%N)], Exited 0 []);
     makedirs_error := fun _ => None |}.

(** A system on which no directory can be created: a parent of the path
    is a regular file. *)
Definition script_world_no_mkdir : ScriptWorld :=
  {| executable := lit "python3";
     subprocess_run := fun cmd d => (d, Exited 0 []);
     makedirs_error := fun path =>
       Some (lit "[Errno 20] Not a directory: '" ++ path ++ lit "'") |}.

Definition music_folder : directory :=
  [(lit "latest.m4a", File [1]%N); (lit "previous.m4a", File [0]%N)].

(** A folder in which an earlier run has left its temporary file. *)
Definition stale_folder : directory :=
  [(lit "temp_download.webm", File [5]%N); (lit "latest.m4a", File [1]%N)].

Definition in_workspace : state :=
  {| fs := {[ workspace := [] ]}; trace := []; temp_dir := Some workspace |}.

Definition TEMPLATE : str := path_join workspace (lit "%(title)s.%(ext)s").

(** A world whose metadata API answers with an empty list of artists. *)
Definition world_no_artists : World :=
  {| win32 := false;
     gettempdir := lit "/tmp";
     time_ms := 1700000000000;
     elapsed := lit "1.50";
     mkdtemp_suffix := lit "k3x9";
     aiohttp_installed := true;
     api_get := fun _ =>
       Response 200 {| has_error := false;
                       api_name := Some (lit "Track");
                       api_artists := Some [];
                       api_searchQuery := Some (lit "Track Singer") |};
     oembed_get := fun _ => Fails;
     ydl_download := ydl_writes;
     rmtree_leaves := fun _ _ => None |}.

Definition TRACK_ID : str := lit "4uLU6hMCjMI75M1A2tKUQC".

Definition TRACK_URL : str := lit "https://open.spotify.com/track/" ++ TRACK_ID.

(** [{"trackId": "4uLU6hMCjMI75M1A2tKUQC"}]. *)
Definition id_request : DownloadRequest.t :=
  {| DownloadRequest.spotify_url := None; DownloadRequest.song_url := None;
     DownloadRequest.url := None; DownloadRequest.trackUrl := None;
     DownloadRequest.trackId := Some TRACK_ID;
     DownloadRequest.use_consistent_naming := false;
     DownloadRequest.title := None; DownloadRequest.track_name := None;
     DownloadRequest.artist := None; DownloadRequest.artist_name := None;
     DownloadRequest.album := None; DownloadRequest.duration := None;
     DownloadRequest.track_id := None; DownloadRequest.search_query := None;
     DownloadRequest.metadata := None |}.

(** [int] on an optional minus sign and ASCII digits; every other text is
    refused. *)
Fixpoint ascii_digits (acc : Z) (s : str) : option Z :=
  match s with
  | [] => Some acc
  | c :: rest =>
      if ((48 <=? c) && (c <=? 57))%N
      then ascii_digits (10 * acc + Z.of_N (c - 48)) rest
      else None
  end.

Definition ascii_int (s : str) : Z + str :=
  let refused := inr (lit "invalid literal for int() with base 10") in
  match s with
  | [] => refused
  | c :: rest =>
      if (c =? 45)%N then
        match rest with
        | [] => refused
        | _ :: _ => from_option (fun n => inl (- n)%Z) refused
                                (ascii_digits 0 rest)
        end
      else from_option inl refused (ascii_digits 0 s)
  end.

(** Cookie files: the same cookie twice, the later one in the second
    file; and a file with a line that has three fields only. *)
Definition SID_2023 : str :=
  join TAB [lit ".youtube.com"; lit "TRUE"; lit "/"; lit "TRUE";
            lit "1700000000"; lit "SID"; lit "abc"].

Definition SID_2027 : str :=
  join TAB [lit ".youtube.com"; lit "TRUE"; lit "/"; lit "TRUE";
            lit "1800000000"; lit "SID"; lit "abcdef"].

Definition youtube_cookies : list str :=
  [lit "# Netscape HTTP Cookie File"; []; SID_2023].

Definition music_cookies : list str := [SID_2027].

Definition broken_cookies : list str :=
  [join TAB [lit ".youtube.com"; lit "TRUE"; lit "/"]].

Definition cookies_dir : gmap str (list str) :=
  {[ YOUTUBE_FILE := youtube_cookies; MUSIC_FILE := music_cookies ]}.

(** A system that refuses every backup: the target is a directory. *)
Definition refuse_backup (src dst : str) : option str :=
  Some (lit "[Errno 21] Is a directory: '" ++ src ++ lit "' -> '" ++ dst
        ++ lit "'").

(** The cookie of [SID_2023]. *)
Definition sid_2023 : Cookie.t :=
  {| Cookie.domain := lit ".youtube.com"; Cookie.flag := true;
     Cookie.path := lit "/"; Cookie.secure := true;
     Cookie.expiration := 1700000000; Cookie.name := lit "SID";
     Cookie.value := lit "abc"; Cookie.raw_line := SID_2023 |}.

(** ** Facts about the string operations *)

Lemma startswith_app (p t : str) : startswith p (p ++ t) = true.
Proof.
  induction p as [|a p IH]; simpl; [by destruct t|].
  by rewrite N.eqb_refl.
Qed.

Lemma startswith_inv (p s : str) :
  startswith p s = true -> s = p ++ drop (length p) s.
Proof.
  revert s; induction p as [|a p IH]; intros s H; simpl in *; [done|].
  destruct s as [|b s]; [done|].
  apply andb_true_iff in H as [Hab Hp].
  apply N.eqb_eq in Hab as ->. simpl. f_equal. by apply IH.
Qed.

Lemma startswith_nil_l (p : str) : startswith p [] = true -> p = [].
Proof. by destruct p. Qed.

Lemma contains_find (sub s : str) :
  contains sub s = true <-> is_Some (find sub s).
Proof.
  unfold contains. destruct (find sub s); split; intros H; try done.
Qed.

Lemma find_lt (sub s : str) (n : nat) :
  find sub s = Some n -> n + length sub <= length s.
Proof.
  revert n; induction s as [|c s IH]; intros n; simpl.
  - destruct (startswith sub []) eqn:E; [|done].
    intros [= <-]. apply startswith_nil_l in E as ->. simpl. lia.
  - destruct (startswith sub (c :: s)) eqn:E.
    + intros [= <-]. apply startswith_inv in E.
      apply (f_equal length) in E. rewrite length_app in E. simpl in *. lia.
    + destruct (find sub s) as [m|]; simpl; [|done].
      intros [= <-]. specialize (IH m eq_refl). lia.
Qed.

(** The occurrence [find] reports is one. *)
Lemma find_occurs (sub s : str) (n : nat) :
  find sub s = Some n -> s = take n s ++ sub ++ drop (n + length sub) s.
Proof.
  revert n; induction s as [|c s IH]; intros n; simpl.
  - destruct (startswith sub []) eqn:E; [|done].
    intros [= <-]. by apply startswith_nil_l in E as ->.
  - destruct (startswith sub (c :: s)) eqn:E.
    + intros [= <-]. by apply startswith_inv in E.
    + destruct (find sub s) as [m|] eqn:F; simpl; [|done].
      intros [= <-]. simpl. f_equal. by apply IH.
Qed.

(** ... and it is the first one. *)
Lemma find_first (sub s : str) (n k : nat) :
  find sub s = Some n -> k < n -> startswith sub (drop k s) = false.
Proof.
  revert n k; induction s as [|c s IH]; intros n k; simpl.
  - destruct (startswith sub []); [|done]. intros [= <-]. lia.
  - destruct (startswith sub (c :: s)) eqn:E.
    + intros [= <-]. lia.
    + destruct (find sub s) as [m|] eqn:F; simpl; [|done].
      intros [= <-] Hk. destruct k as [|k]; [done|]. simpl.
      apply (IH m); [done|lia].
Qed.

Lemma find_none (sub s : str) (k : nat) :
  find sub s = None -> startswith sub (drop k s) = false.
Proof.
  revert k; induction s as [|c s IH]; intros k; simpl.
  - destruct (startswith sub []) eqn:E; [done|]. intros _. by destruct k.
  - destruct (startswith sub (c :: s)) eqn:E; [done|].
    destruct (find sub s) eqn:F; [done|]. intros _.
    destruct k as [|k]; [done|]. simpl. by apply IH.
Qed.

(** A one-character separator is found where it first stands. *)
Lemma find_char (c : N) (a rest : str) :
  c ∉ a -> find [c] (a ++ c :: rest) = Some (length a).
Proof.
  induction a as [|x a IH]; intros Hc; simpl.
  - by rewrite N.eqb_refl.
  - apply not_elem_of_cons in Hc as [Hx Ha].
    destruct (N.eqb_spec c x) as [->|_]; [done|]. simpl.
    by rewrite IH.
Qed.

Lemma split_from_skip (sep : str) (k : nat) (acc s : str) :
  split_from sep k acc s = split_from sep 0 acc (drop k s).
Proof.
  revert k; induction s as [|c s IH]; intros [|k]; simpl; done.
Qed.

Lemma split_from_acc (sep acc s : str) :
  split_from sep 0 acc s =
  match split_from sep 0 [] s with
  | x :: r => (rev acc ++ x) :: r
  | [] => []
  end.
Proof.
  revert acc; induction s as [|c s IH]; intros acc.
  - simpl. by rewrite app_nil_r.
  - cbn [split_from]. destruct (startswith sep (c :: s)).
    + by rewrite app_nil_r.
    + rewrite (IH (c :: acc)), (IH [c]).
      destruct (split_from sep 0 [] s) as [|x r]; [done|].
      simpl. by rewrite <- app_assoc.
Qed.

(** [split] when the separator does not occur: the string itself. *)
Lemma split_absent (sep s : str) : find sep s = None -> split sep s = [s].
Proof.
  unfold split. induction s as [|c s IH]; simpl.
  - by destruct (startswith sep []).
  - destruct (startswith sep (c :: s)); [done|].
    destruct (find sep s); [done|]. intros _.
    rewrite split_from_acc, IH; done.
Qed.

(** [split] at the first occurrence: the text before it, then the split of
    the text after it. *)
Lemma split_first (sep s : str) (n : nat) :
  sep <> [] -> find sep s = Some n ->
  split sep s = take n s :: split sep (drop (n + length sep) s).
Proof.
  intros Hsep. unfold split. revert n; induction s as [|c s IH]; intros n.
  - simpl. destruct (startswith sep []) eqn:E; [|done].
    by apply startswith_nil_l in E.
  - cbn [find split_from]. destruct (startswith sep (c :: s)) eqn:E.
    + intros [= <-]. rewrite split_from_skip. simpl.
      destruct sep as [|x sep]; [done|]. simpl. by rewrite Nat.sub_0_r.
    + destruct (find sep s) as [m|] eqn:F; simpl; [|done].
      intros [= <-]. rewrite split_from_acc, (IH m eq_refl). done.
Qed.

Lemma find_char_absent (c : N) (s : str) : c ∉ s -> find [c] s = None.
Proof.
  induction s as [|x s IH]; intros Hc; simpl; [done|].
  apply not_elem_of_cons in Hc as [Hx Hs].
  destruct (N.eqb_spec c x) as [->|_]; [done|]. simpl. by rewrite IH.
Qed.

(** ** The search query (C3) *)

(** C3, amended: the query nested in [metadata] comes first, then the
    explicit [search_query], then the constructed form
    [(name + " " + first_artist).strip()], in which an artist text with a
    comma contributes only what stands before its first comma, stripped. *)
Theorem C3_search_query_precedence (r : DownloadRequest.t) :
  (forall m, metadata_get r (lit "searchQuery") = Some m ->
             get_search_query r = m) /\
  (forall q, metadata_get r (lit "searchQuery") = None ->
             DownloadRequest.search_query r = Some q -> truthy q = true ->
             get_search_query r = q) /\
  (metadata_get r (lit "searchQuery") = None ->
   truthy_opt (DownloadRequest.search_query r) = false ->
   (forall a rest,
       get_artist_name r = a ++ COMMA ++ rest -> 44%N ∉ a ->
       get_search_query r = strip (get_track_name r ++ SPACE ++ strip a)) /\
   (44%N ∉ get_artist_name r ->
    get_search_query r
    = strip (get_track_name r ++ SPACE ++ get_artist_name r))).
Proof.
  unfold get_search_query. split; [|split].
  - by intros m ->.
  - by intros q -> -> ->.
  - intros -> Hq.
    assert (forall c : str,
      match DownloadRequest.search_query r with
      | Some q => if truthy q then q else c
      | None => c
      end = c) as Hc.
    { intros c. destruct (DownloadRequest.search_query r) as [q|]; [|done].
      simpl in Hq. by rewrite Hq. }
    rewrite Hc. split.
    + intros a rest Ha Hno. rewrite Ha.
      assert (find COMMA (a ++ COMMA ++ rest) = Some (length a)) as Hf
        by (by apply find_char).
      unfold contains. rewrite Hf.
      rewrite (split_first COMMA _ (length a)); [|done|done].
      replace (truthy (a ++ COMMA ++ rest)) with true by (by destruct a).
      simpl. unfold item. simpl. by rewrite take_app_length.
    + intros Hno. unfold contains.
      assert (find COMMA (get_artist_name r) = None) as Hf
        by (by apply find_char_absent).
      rewrite Hf. by rewrite andb_false_r.
Qed.

(** ** The oEmbed title (C4) *)

Lemma split_title_cut (sep s : str) :
  sep <> [] -> contains sep s = true -> Some (split_title sep s) = cut sep s.
Proof.
  intros Hsep Hc. apply contains_find in Hc as [n Hn].
  unfold split_title, cut. rewrite Hn.
  rewrite (split_first sep s n Hsep Hn).
  set (rest := drop (n + length sep) s).
  destruct (find sep rest) as [m|] eqn:Hm.
  - by rewrite (split_first sep rest m Hsep Hm).
  - by rewrite (split_absent sep rest Hm).
Qed.

Lemma cut_absent (sep s : str) : contains sep s = false -> cut sep s = None.
Proof. unfold contains, cut. by destruct (find sep s). Qed.

Lemma clean_name_Unknown : clean_name (lit "Unknown") = lit "Unknown".
Proof. unfold clean_name. by destruct (str_eqb _ _). Qed.

Lemma clean_artist_Unknown :
  clean_artist (lit "Unknown Artist") = lit "Unknown Artist".
Proof. unfold clean_artist. by destruct (in_list _ _). Qed.


(** ** Footprints of computations *)

Lemma emits_weaken {A} (P Q : event -> Prop) (m : M A) :
  (forall ev, P ev -> Q ev) -> emits P m -> emits Q m.
Proof.
  intros HPQ Hm s r s' E. destruct (Hm _ _ _ E) as (Ht & evs & Htr & HP).
  split; [done|]. exists evs. split; [done|].
  eapply Forall_impl; eauto.
Qed.

Lemma emits_ret {A} P (a : A) : emits P (ret a).
Proof.
  intros s r s' [= <- <-]. split; [done|]. exists []. by rewrite app_nil_r.
Qed.

Lemma emits_raise {A} P (e : exn) : emits P (@raise A e).
Proof.
  intros s r s' [= <- <-]. split; [done|]. exists []. by rewrite app_nil_r.
Qed.

Lemma emits_get_state P : emits P get_state.
Proof.
  intros s r s' [= <- <-]. split; [done|]. exists []. by rewrite app_nil_r.
Qed.

Lemma emits_emit (P : event -> Prop) ev : P ev -> emits P (emit ev).
Proof.
  intros HP s r s' [= <- <-]. split; [done|]. exists [ev]. simpl. by auto.
Qed.

Lemma emits_set_dir P d x : emits P (set_dir d x).
Proof.
  intros s r s' [= <- <-]. split; [done|]. exists []. simpl.
  by rewrite app_nil_r.
Qed.

Lemma emits_iterdir P d : emits P (iterdir d).
Proof.
  intros s r s'. unfold iterdir. destruct (fs s !! d); intros [= <- <-].
  all: split; [done|]; exists []; by rewrite app_nil_r.
Qed.

Lemma emits_seq {A B} P (m : M A) (k : A -> M B) :
  emits P m -> (forall a, emits P (k a)) -> emits P (bind m k).
Proof.
  intros Hm Hk s r s'. unfold bind.
  destruct (m s) as [[a|e|] s1] eqn:E; destruct (Hm _ _ _ E) as (Ht & evs & Htr & HP).
  - intros E2. destruct (Hk a _ _ _ E2) as (Ht2 & evs2 & Htr2 & HP2).
    split; [congruence|]. exists (evs ++ evs2).
    rewrite Htr2, Htr, app_assoc. split; [done|]. by apply Forall_app.
  - intros [= <- <-]. split; [done|]. by exists evs.
  - intros [= <- <-]. split; [done|]. by exists evs.
Qed.

Lemma emits_try_except {A} P (body : M A) (handler : exn -> option (M A)) :
  emits P body ->
  (forall e h, handler e = Some h -> emits P h) ->
  emits P (try_except body handler).
Proof.
  intros Hb Hh s r s'. unfold try_except.
  destruct (body s) as [[a|e|] s1] eqn:E; destruct (Hb _ _ _ E) as (Ht & evs & Htr & HP).
  - intros [= <- <-]. split; [done|]. by exists evs.
  - destruct (handler e) as [h|] eqn:Eh.
    + intros E2. destruct (Hh e h Eh _ _ _ E2) as (Ht2 & evs2 & Htr2 & HP2).
      split; [congruence|]. exists (evs ++ evs2).
      rewrite Htr2, Htr, app_assoc. split; [done|]. by apply Forall_app.
    + intros [= <- <-]. split; [done|]. by exists evs.
  - intros [= <- <-]. split; [done|]. by exists evs.
Qed.

Lemma emits_on_Exception {A} P (h : exn -> M A) e m :
  (forall e, emits P (h e)) -> on_Exception h e = Some m -> emits P m.
Proof.
  unfold on_Exception. destruct (is_Exception e); [|done].
  by intros Hh [= <-].
Qed.

Lemma emits_wait_for {A} P (job : M A) : emits P job -> emits P (wait_for job).
Proof.
  intros Hj s r s'. unfold wait_for.
  destruct (job s) as [[a|e|] s1] eqn:E; destruct (Hj _ _ _ E) as (Ht & evs & Htr & HP).
  all: intros [= <- <-]; split; [done|]; by exists evs.
Qed.

Lemma emits_ydl_call (P : event -> Prop) w opts url d :
  (forall before, P (EvYdl opts url before)) -> emits P (ydl_call w opts url d).
Proof.
  intros HP s r s'. unfold ydl_call.
  destruct (ydl_download w opts url (fs s !! d)) as [after [| e |]].
  all: intros [= <- <-]; split; [done|]; eexists [_]; split; [done|]; auto.
Qed.

Lemma emits_quoted P q : emits P (quoted q).
Proof.
  unfold quoted. destruct (quote q); [apply emits_ret|apply emits_raise].
Qed.

Create HintDb footprint discriminated.
#[local] Hint Resolve emits_ret emits_raise emits_get_state emits_set_dir
  emits_iterdir emits_quoted emits_wait_for : footprint.

(** One step of a footprint proof: split sequences and handlers, and close
    the leaves with the facts above. *)
Ltac footprint_step :=
  match goal with
  | |- emits _ (bind _ _) => apply emits_seq; [|intros ?]
  | |- emits _ (try_except _ _) => apply emits_try_except; [|intros ? ? ?]
  | H : on_Exception _ _ = Some _ |- emits _ _ =>
      eapply emits_on_Exception; [|exact H]; intros ?; cbv beta
  | |- emits _ (match ?x with _ => _ end) => destruct x eqn:?
  | |- emits _ (if ?b then _ else _) => destruct b eqn:?
  | |- emits _ (let '(_, _) := ?p in _) => destruct p eqn:?
  | H : Some _ = Some _ |- _ => injection H as <-
  | H : None = Some _ |- _ => discriminate H
  | |- emits _ (emit _) => apply emits_emit
  | |- emits _ (ydl_call _ _ _ _) => apply emits_ydl_call; intros ?
  | |- emits _ _ => solve [eauto with footprint]
  end.

Ltac footprint := repeat footprint_step.

Lemma extract_from_api_emits w u :
  emits (fun ev => is_network ev = true) (extract_from_api w u).
Proof. unfold extract_from_api. footprint; done. Qed.

Lemma extract_from_oembed_emits w u :
  emits (fun ev => is_network ev = true) (extract_from_oembed w u).
Proof. unfold extract_from_oembed. footprint; done. Qed.

Lemma resolve_track_info_emits w r u :
  emits (fun ev => is_network ev = true) (resolve_track_info w r u).
Proof.
  unfold resolve_track_info. footprint;
    auto using extract_from_api_emits, extract_from_oembed_emits.
Qed.

Lemma unlink_files_emits P d : emits P (unlink_files d).
Proof. unfold unlink_files. footprint. Qed.

Lemma format_loop_emits (P : event -> Prop) w o url d total i formats :
  (forall f before, f ∈ formats -> P (EvYdl (with_format o f) url before)) ->
  emits P (format_loop w o url d total i formats).
Proof.
  revert i; induction formats as [|f rest IH]; intros i HP; simpl.
  { footprint. }
  apply emits_seq.
  - apply emits_try_except.
    + footprint. apply HP. by left.
    + intros e h Hh. eapply emits_on_Exception; [|exact Hh].
      intros e'. apply emits_seq; [apply unlink_files_emits|].
      intros _. footprint.
  - intros [file|]; [footprint|].
    apply IH. intros f' before Hf. apply HP. by right.
Qed.

Lemma music_search_emits P q : emits P (music_search q).
Proof. unfold music_search. footprint. Qed.

Lemma _download_emits (P : event -> Prop) w o q d :
  (forall f u before,
      f ∈ [format o; lit "bestaudio/best"; lit "best"] ->
      P (EvYdl (with_format
                  (with_outtmpl o (path_join d (lit "%(title)s.%(ext)s"))) f)
               u before)) ->
  emits P (_download w o q d).
Proof.
  intros HP. unfold _download. apply emits_seq; [apply music_search_emits|].
  intros url. apply format_loop_emits. intros f before Hf. by apply HP.
Qed.

Lemma _fallback_download_emits (P : event -> Prop) w q d :
  (forall u before, P (EvYdl (fallback_opts d) u before)) ->
  emits P (_fallback_download w q d).
Proof.
  intros HP. unfold _fallback_download, _fallback_download_sync.
  apply emits_try_except.
  - apply emits_wait_for. apply emits_seq; [apply music_search_emits|].
    intros url. footprint. apply HP.
  - intros e h Hh. footprint.
Qed.

Lemma download_audio_emits w q d :
  emits (fun ev => is_ydl ev = true) (download_audio w q d).
Proof.
  unfold download_audio. apply emits_try_except.
  - apply emits_wait_for, _download_emits. done.
  - intros e h. destruct e; simpl; intros Hh; try (footprint; fail).
    injection Hh as <-. destruct (is_forbidden msg); [|footprint].
    apply emits_try_except; [by apply _fallback_download_emits|].
    intros e h Hh. footprint.
Qed.

Lemma frontend_deliver_emits w rid d ti :
  emits (fun ev => is_ydl ev = true) (frontend_deliver w rid d ti).
Proof.
  unfold frontend_deliver. apply emits_seq; [apply download_audio_emits|].
  intros res. footprint.
Qed.

(** ** Stepping through sequences *)

Lemma bind_ok {A B} (m : M A) (k : A -> M B) s a s1 :
  m s = (Ok a, s1) -> bind m k s = k a s1.
Proof. unfold bind. by intros ->. Qed.

Lemma bind_raise {A B} (m : M A) (k : A -> M B) s e s1 :
  m s = (Raise e, s1) -> bind m k s = (Raise e, s1).
Proof. unfold bind. by intros ->. Qed.

Lemma bind_pending {A B} (m : M A) (k : A -> M B) s s1 :
  m s = (Pending, s1) -> bind m k s = (Pending, s1).
Proof. unfold bind. by intros ->. Qed.

(** ** The endpoint, run by run *)

(** With complete metadata supplied the track information is built from
    the request alone: nothing is called and the state is untouched. *)
Lemma resolve_with_metadata w r u s :
  has_metadata r = true ->
  resolve_track_info w r u s =
  (Ok {| TrackInfo.name := get_track_name r;
         TrackInfo.artists :=
           if contains COMMA (get_artist_name r)
           then map strip (split COMMA (get_artist_name r))
           else [get_artist_name r];
         TrackInfo.search_query := get_search_query r;
         TrackInfo.album := DownloadRequest.album r;
         TrackInfo.duration := DownloadRequest.duration r |}, s).
Proof. intros H. unfold resolve_track_info. by rewrite H. Qed.

Lemma path_join_nonempty d n : n <> [] -> path_join d n <> [].
Proof.
  unfold path_join. intros Hn. destruct (startswith _ n); [done|].
  destruct (_ || _); intros H; apply app_eq_nil in H as [_ H]; [done|].
  apply app_eq_nil in H as [H _]. by vm_compute in H.
Qed.

(** The name [mkdtemp] makes for the endpoint is not empty. *)
Lemma workspace_nonempty base rid sfx :
  path_join base ((lit "song_dl_" ++ rid ++ lit "_") ++ sfx) <> [].
Proof.
  apply path_join_nonempty. intros H. apply (f_equal head) in H.
  by vm_compute in H.
Qed.

(** What a run of the [try] block leaves behind: either nothing (it
    raised before or while creating the directory), or a directory [d]
    recorded in [temp_dir], followed by network and yt-dlp events only. *)
Lemma frontend_body_run w rid r s res s1 :
  temp_dir s = None ->
  frontend_body w rid r s = (res, s1) ->
  (s1 = s /\ exists e, res = Raise e) \/
  (exists d evs,
      d <> [] /\ fs s !! d = None /\ temp_dir s1 = Some d /\
      trace s1 = trace s ++ EvMkdtemp d :: evs /\
      Forall (fun ev => is_mkdtemp ev = false) evs /\
      (has_metadata r = true -> Forall (fun ev => is_ydl ev = true) evs)).
Proof.
  intros Ht. unfold frontend_body, frontend_prepare.
  destruct (negb (truthy_opt (get_spotify_url r)) && negb (has_metadata r)).
  { cbv [bind raise]. intros [= <- <-]. left. eauto. }
  set (base := if negb (win32 w) then lit "/tmp" else gettempdir w).
  unfold mkdtemp.
  set (d := path_join base
              ((lit "song_dl_" ++ rid ++ lit "_") ++ mkdtemp_suffix w)).
  cbv beta delta [bind get_state]. cbv beta iota.
  destruct (fs s !! d) as [x|] eqn:Ed.
  { cbv [raise]. intros [= <- <-]. left. eauto. }
  cbv beta iota delta [emit set_dir ret set_temp_dir].
  cbn [fs trace temp_dir fst snd].
  set (s2 := {| fs := _; trace := _; temp_dir := Some d |}).
  destruct (resolve_track_info w r (get_spotify_url r) s2)
    as [[ti|e|] s3] eqn:E3.
  all: destruct (resolve_track_info_emits _ _ _ _ _ _ E3)
    as (Ht3 & evs3 & Htr3 & Hev3).
  all: assert (has_metadata r = true -> evs3 = []) as Hmeta
    by (intros Hm; rewrite (resolve_with_metadata _ _ _ _ Hm) in E3;
        injection E3 as _ <-; rewrite <- (app_nil_r (trace s2)) in Htr3 at 1;
        by apply app_inv_head in Htr3).
  2,3: intros [= <- <-]; right; exists d, evs3;
    repeat split; [apply workspace_nonempty|done|by rewrite Ht3| |
      eapply Forall_impl; [exact Hev3|by intros []] |
      by intros Hm; rewrite (Hmeta Hm)];
    rewrite Htr3; subst s2; simpl; by rewrite <- app_assoc.
  cbn [fst snd]. intros E4.
  destruct (frontend_deliver_emits _ _ _ _ _ _ _ E4)
    as (Ht4 & evs4 & Htr4 & Hev4).
  right. exists d, (evs3 ++ evs4).
  repeat split.
  - apply workspace_nonempty.
  - done.
  - by rewrite Ht4, Ht3.
  - rewrite Htr4, Htr3. subst s2. simpl. by rewrite <- !app_assoc.
  - apply Forall_app. split; (eapply Forall_impl; [eassumption|by intros []]).
  - intros Hm. by rewrite (Hmeta Hm).
Qed.

Lemma below_self d : below d d = true.
Proof. unfold below. by rewrite bool_decide_eq_true_2. Qed.

(** The [finally] clause always completes.  Of a directory named by
    [temp_dir] that still exists it leaves what [rmtree] leaves, and the
    call of [rmtree] is what it adds to the trace. *)
Lemma frontend_cleanup_run w s :
  exists s',
    frontend_cleanup w s = (Ok tt, s') /\
    (temp_dir s = None -> s' = s) /\
    (forall d, temp_dir s = Some d -> d <> [] ->
               fs s' !! d = fs s !! d ≫= rmtree_leaves w d /\
               (trace s' = trace s \/ trace s' = trace s ++ [EvRmtree d])).
Proof.
  unfold frontend_cleanup. cbv beta delta [bind get_state]. cbv beta iota.
  destruct (temp_dir s) as [d|] eqn:Ed.
  2: { eexists. split; [reflexivity|]. split; [done|]. by intros. }
  destruct (truthy d) eqn:Hd.
  2: { eexists. split; [reflexivity|]. split; [done|].
       intros d' [= <-]. by destruct d. }
  simpl. case_bool_decide as Hex.
  - unfold rmtree. cbv [bind emit]. eexists. split; [reflexivity|].
    split; [done|]. intros d' [= <-] _. simpl. split; [|by right].
    rewrite map_lookup_imap. destruct (fs s !! d) as [x|]; [|done].
    simpl. by rewrite below_self.
  - eexists. split; [reflexivity|]. split; [done|].
    intros d' [= <-] _. split; [|by left].
    apply eq_None_not_Some in Hex. by rewrite Hex.
Qed.

(** When the directory is still there the [finally] clause calls
    [rmtree]; when it has gone it does nothing. *)
Lemma frontend_cleanup_last w s s' d :
  frontend_cleanup w s = (Ok tt, s') ->
  temp_dir s = Some d -> d <> [] ->
  match fs s !! d with
  | Some _ => trace s' = trace s ++ [EvRmtree d]
  | None => s' = s
  end.
Proof.
  unfold frontend_cleanup. cbv beta delta [bind get_state]. cbv beta iota.
  intros E Hd Hne. rewrite Hd in E. destruct d as [|c d]; [done|].
  cbn [truthy andb] in E. revert E. case_bool_decide as Hex.
  - destruct Hex as [x Hx]. rewrite Hx. unfold rmtree. cbv [bind emit].
    by intros [= <-].
  - apply eq_None_not_Some in Hex. rewrite Hex. by intros [= <-].
Qed.

(** A whole run of the endpoint: the events it appends, the directories it
    creates, and whether it asks the network for metadata. *)
Lemma frontend_run w r s res s' :
  download_song_frontend w r s = (res, s') ->
  exists evs,
    trace s' = trace s ++ evs /\
    (has_metadata r = true -> Forall (fun ev => is_network ev = false) evs).
Proof.
  unfold download_song_frontend.
  set (rid := lit "req_" ++ decimal (time_ms w)).
  cbv beta delta [bind set_temp_dir try_finally try_except]. cbv beta iota.
  set (s0 := {| fs := fs s; trace := trace s; temp_dir := None |}).
  destruct (frontend_body w rid r s0) as [res1 s1] eqn:Eb.
  apply frontend_body_run in Eb; [|done].
  assert (exists res2,
    match res1 with
    | Ok a => (Ok a, s1)
    | Raise e =>
        match
          match e with
          | HTTPException _ _ => Some (raise e)
          | TimeoutError _ =>
              Some (raise (HTTPException 504
                             (lit "Download operation timed out")))
          | _ =>
              on_Exception
                (fun e0 => raise (HTTPException 500
                                    (lit "Unexpected error: " ++ exn_str e0)))
                e
          end
        with
        | Some h => h s1
        | None => (Raise e, s1)
        end
    | Pending => (Pending, s1)
    end = (res2 : outcome StreamingResponse, s1)) as [res2 ->].
  { destruct res1 as [a|e|]; [by eexists| |by eexists].
    destruct e; by eexists. }
  destruct (frontend_cleanup_run w s1) as (s2 & -> & Hnone & Hsome).
  intros [= _ <-].
  destruct Eb as [[-> _]|(d & evs & Hd & Hfs & Ht & Htr & Hmk & Hmeta)].
  - rewrite (Hnone eq_refl). exists []. simpl. rewrite app_nil_r.
    split; [done|]. by intros.
  - destruct (Hsome d Ht Hd) as [_ Htr2].
    assert (exists tl, trace s2 = trace s1 ++ tl /\
                       Forall (fun ev => is_mkdtemp ev = false) tl /\
                       Forall (fun ev => is_network ev = false) tl)
      as (tl & -> & Htl1 & Htl2).
    { destruct Htr2 as [->| ->].
      - exists []. by rewrite app_nil_r.
      - eexists. split; [done|]. by repeat constructor. }
    exists (EvMkdtemp d :: evs ++ tl).
    split.
    + rewrite Htr. simpl. by rewrite <- app_assoc.
    + intros Hm. constructor; [done|]. apply Forall_app. split; [|done].
      eapply Forall_impl; [exact (Hmeta Hm)|]. by intros [].
Qed.

(** ** Workspace release (C1) *)

(** A run of the endpoint is a run of its [try] block, the translation of
    what that raised, and a run of its [finally] clause. *)
Lemma frontend_split w r s res s' :
  download_song_frontend w r s = (res, s') ->
  exists res1 s1,
    frontend_body w (lit "req_" ++ decimal (time_ms w)) r
      {| fs := fs s; trace := trace s; temp_dir := None |} = (res1, s1) /\
    frontend_cleanup w s1 = (Ok tt, s') /\
    res = match res1 with
          | Ok a => Ok a
          | Raise (HTTPException c dt) => Raise (HTTPException c dt)
          | Raise (TimeoutError _) =>
              Raise (HTTPException 504 (lit "Download operation timed out"))
          | Raise (BaseExc m) => Raise (BaseExc m)
          | Raise e =>
              Raise (HTTPException 500 (lit "Unexpected error: " ++ exn_str e))
          | Pending => Pending
          end.
Proof.
  unfold download_song_frontend.
  set (rid := lit "req_" ++ decimal (time_ms w)).
  cbv beta delta [bind set_temp_dir try_finally try_except]. cbv beta iota.
  set (s0 := {| fs := fs s; trace := trace s; temp_dir := None |}).
  destruct (frontend_body w rid r s0) as [res1 s1] eqn:Eb.
  destruct (frontend_cleanup_run w s1) as (s2 & Hc & _).
  destruct res1 as [a|e|].
  - rewrite Hc. intros [= <- <-]. by eexists _, _.
  - destruct e as [c0 dt|m|m|m|m|m];
      cbv [on_Exception is_Exception raise]; rewrite Hc;
      intros [= <- <-]; by eexists _, _.
  - rewrite Hc. intros [= <- <-]. by eexists _, _.
Qed.


(** ** Supplied metadata (C5) *)

(** C5: when the request carries a title and an artist that are not the
    sentinels, the track information is built from the request alone (its
    name is the title as given, its artist list is the artist text, split
    at commas into stripped items when it has one) and no run of the
    endpoint asks the metadata API or the oEmbed endpoint for anything. *)
Theorem C5_supplied_metadata_used w r s :
  has_metadata r = true ->
  (forall u,
      resolve_track_info w r u s =
      (Ok {| TrackInfo.name := get_track_name r;
             TrackInfo.artists :=
               if contains COMMA (get_artist_name r)
               then map strip (split COMMA (get_artist_name r))
               else [get_artist_name r];
             TrackInfo.search_query := get_search_query r;
             TrackInfo.album := DownloadRequest.album r;
             TrackInfo.duration := DownloadRequest.duration r |}, s)) /\
  (forall res s' evs,
      download_song_frontend w r s = (res, s') ->
      trace s' = trace s ++ evs ->
      Forall (fun ev => is_network ev = false) evs).
Proof.
  intros Hm. split.
  - intros u. by apply resolve_with_metadata.
  - intros res s' evs Hrun Htr.
    destruct (frontend_run _ _ _ _ _ Hrun) as (evs' & Htr' & Hnet).
    rewrite Htr' in Htr. apply app_inv_head in Htr as ->. by apply Hnet.
Qed.

(** ** Early rejection (C8) *)

(** C8: a request that yields no URL (none of the URL fields, no track id)
    and lacks a non-sentinel title or artist is answered with status 400
    before anything else happens: no directory is created, no event is
    recorded, the file system is as it was. *)
Theorem C8_rejected_before_workspace w r s :
  truthy_opt (get_spotify_url r) = false ->
  has_metadata r = false ->
  download_song_frontend w r s =
  (Raise (HTTPException 400 EARLY_REJECTION),
   {| fs := fs s; trace := trace s; temp_dir := None |}).
Proof.
  intros Hu Hm. unfold download_song_frontend.
  cbv beta delta [bind set_temp_dir try_finally try_except frontend_body
                  frontend_prepare frontend_cleanup get_state].
  cbv beta iota zeta. rewrite Hu, Hm. reflexivity.
Qed.

(** ** The overall timeout (C7) *)

Lemma download_audio_timeout w q d s s' :
  _download w (default_opts (path_join d (lit "%(title)s.%(ext)s"))) q d s
  = (Pending, s') ->
  download_audio w q d s
  = (Ok (failure (lit "Download timed out after 120 seconds")), s').
Proof.
  intros E. unfold download_audio, try_except, wait_for. by rewrite E.
Qed.

(** C7 fails on the code: when the download is still running at the
    120 s deadline, [download_audio] turns the [TimeoutError] into a failed
    [DownloadResult] itself, so the endpoint answers 500 and its own
    [except asyncio.TimeoutError] clause (status 504) is never reached. *)
Theorem C7_timeout_answers_500 w r s d ti s1 s2 :
  frontend_prepare w (lit "req_" ++ decimal (time_ms w)) r
    {| fs := fs s; trace := trace s; temp_dir := None |}
  = (Ok (d, ti), s1) ->
  _download w (default_opts (path_join d (lit "%(title)s.%(ext)s")))
            (TrackInfo.search_query ti) d s1
  = (Pending, s2) ->
  exists s3,
    download_song_frontend w r s
    = (Raise (HTTPException 500 TIMEOUT_FAILURE), s3).
Proof.
  intros E1 E2. apply download_audio_timeout in E2.
  unfold download_song_frontend.
  cbv beta delta [bind set_temp_dir try_finally try_except frontend_body].
  cbv beta iota. rewrite E1. cbn [fst snd].
  unfold frontend_deliver, bind. rewrite E2.
  cbv beta iota delta [raise]. cbn [negb DownloadResult.success failure].
  cbv beta iota.
  destruct (frontend_cleanup_run w s2) as (s3 & -> & _). by exists s3.
Qed.

(** ** The exceptions a computation can end with *)

Lemma raises_ret {A} P (a : A) : raises_only P (ret a).
Proof. by intros s r s' e [= <- <-]. Qed.

Lemma raises_raise {A} (P : exn -> Prop) e : P e -> raises_only P (@raise A e).
Proof. by intros HP s r s' e' [= <- <-] [= <-]. Qed.

Lemma raises_get_state P : raises_only P get_state.
Proof. by intros s r s' e [= <- <-]. Qed.

Lemma raises_emit P ev : raises_only P (emit ev).
Proof. by intros s r s' e [= <- <-]. Qed.

Lemma raises_set_dir P d x : raises_only P (set_dir d x).
Proof. by intros s r s' e [= <- <-]. Qed.

Lemma raises_set_temp_dir P d : raises_only P (set_temp_dir d).
Proof. by intros s r s' e [= <- <-]. Qed.

Lemma raises_seq {A B} P (m : M A) (k : A -> M B) :
  raises_only P m -> (forall a, raises_only P (k a)) ->
  raises_only P (bind m k).
Proof.
  intros Hm Hk s r s' e. unfold bind.
  destruct (m s) as [[a|e0|] s1] eqn:E.
  - apply Hk.
  - intros [= <- <-] [= <-]. by eapply Hm.
  - by intros [= <- <-].
Qed.

(** A handler that catches every [Exception] leaves only what it raises
    itself and what is no [Exception]. *)
Lemma raises_try_except {A} (P Q : exn -> Prop) (body : M A)
    (handler : exn -> option (M A)) :
  raises_only Q body ->
  (forall e h, Q e -> handler e = Some h -> raises_only P h) ->
  (forall e, Q e -> handler e = None -> P e) ->
  raises_only P (try_except body handler).
Proof.
  intros Hb Hh Hn s r s' e. unfold try_except.
  destruct (body s) as [[a|e0|] s1] eqn:E; [by intros [= <- <-]| |
    by intros [= <- <-]].
  assert (Q e0) as HQ by (by eapply Hb).
  destruct (handler e0) as [h|] eqn:Eh.
  - by apply (Hh e0 h).
  - intros [= <- <-] [= <-]. by apply Hn.
Qed.

Lemma raises_wait_for {A} (P : exn -> Prop) (job : M A) :
  raises_only P job -> P (TimeoutError []) -> raises_only P (wait_for job).
Proof.
  intros Hj HT s r s' e. unfold wait_for.
  destruct (job s) as [[a|e0|] s1] eqn:E; intros [= <- <-] [= <-]; [|done].
  by eapply Hj.
Qed.

Lemma raises_any {A} (m : M A) : raises_only (fun _ => True) m.
Proof. by intros s r s' e _ _. Qed.

Lemma extract_from_api_total w u :
  raises_only (fun _ => False) (extract_from_api w u).
Proof.
  unfold extract_from_api.
  apply (raises_try_except _ (fun e => is_Exception e = true)).
  - apply raises_seq.
    + unfold quoted. destruct (quote u);
        [apply raises_ret|by apply raises_raise].
    + intros q. apply raises_seq; [apply raises_emit|]. intros _.
      destruct (api_get w _) as [status data|]; [|apply raises_ret].
      destruct (aiohttp_installed w);
        [destruct (status =? 200)%N|destruct (_ && _)]; apply raises_ret.
  - unfold on_Exception. intros e h -> [= <-]. apply raises_ret.
  - unfold on_Exception. by intros e ->.
Qed.

Lemma extract_from_oembed_total w u :
  raises_only (fun _ => False) (extract_from_oembed w u).
Proof.
  unfold extract_from_oembed.
  destruct (track_id_of_url u) as [tid|]; [|apply raises_ret].
  destruct (negb (truthy tid)); [apply raises_ret|].
  apply raises_seq; [apply raises_emit|]. intros _.
  destruct (oembed_get w _) as [status title|]; [|apply raises_ret].
  destruct (_ && _); [|apply raises_ret].
  destruct (parse_oembed_title _). apply raises_ret.
Qed.

Lemma download_audio_raises w q d :
  raises_only (fun e => is_Exception e = false) (download_audio w q d).
Proof.
  unfold download_audio.
  apply (raises_try_except _ (fun _ => True)); [apply raises_any| |].
  - intros e h _. destruct e; simpl; intros [= <-]; try apply raises_ret.
    destruct (is_forbidden msg); [|apply raises_ret].
    apply (raises_try_except _ (fun _ => True)); [apply raises_any| |].
    + unfold on_Exception. intros e h _.
      destruct (is_Exception e); [|done]. intros [= <-]. apply raises_ret.
    + unfold on_Exception. intros e _. by destruct (is_Exception e).
  - intros e _. by destruct e.
Qed.

(** The [try] block of the endpoint never raises [TimeoutError]. *)
Lemma frontend_body_raises w rid r :
  raises_only no_gateway_timeout (frontend_body w rid r).
Proof.
  unfold frontend_body. apply raises_seq.
  - unfold frontend_prepare.
    destruct (_ && _); [by apply raises_raise|].
    apply raises_seq.
    + unfold mkdtemp. apply raises_seq; [apply raises_get_state|].
      intros s0. destruct (fs s0 !! _); [by apply raises_raise|].
      apply raises_seq; [apply raises_emit|]. intros _.
      apply raises_seq; [apply raises_set_dir|]. intros _. apply raises_ret.
    + intros d. apply raises_seq; [apply raises_set_temp_dir|]. intros _.
      apply raises_seq; [|intros; apply raises_ret].
      unfold resolve_track_info.
      destruct (has_metadata r); [apply raises_ret|].
      apply raises_seq.
      * apply (raises_try_except _ (fun _ => False)).
        -- apply extract_from_api_total.
        -- by intros e h [].
        -- by intros e [].
      * intros [t|].
        -- apply raises_seq; [apply raises_ret|].
           intros [t'|]; [apply raises_ret|by apply raises_raise].
        -- apply raises_seq.
           ++ intros s0 r0 s0' e E Hr.
              by destruct (extract_from_oembed_total _ _ _ _ _ _ E Hr).
           ++ intros [t'|]; [apply raises_ret|by apply raises_raise].
  - intros [d ti]. unfold frontend_deliver. cbn [fst snd].
    apply raises_seq.
    + intros s0 r0 s0' e E Hr.
      pose proof (download_audio_raises _ _ _ _ _ _ _ E Hr) as He.
      by destruct e.
    + intros dr. destruct (negb _); [by apply raises_raise|].
      destruct (DownloadResult.file_path dr) as [[dir name]|];
        [|by apply raises_raise].
      apply raises_seq; [apply raises_get_state|]. intros s0.
      destruct (fs s0 !! dir ≫= dir_lookup name) as [[c|]|];
        [|by apply raises_raise..].
      destruct (DownloadResult.file_name dr); [|by apply raises_raise].
      apply raises_seq.
      * unfold quoted. destruct (quote _);
          [apply raises_ret|by apply raises_raise].
      * intros qf. cbv zeta. unfold init_headers.
        destruct (omap _ _); [apply raises_ret|by apply raises_raise].
Qed.

(** No run of the endpoint answers with status 504: the clause that would
    is dead code. *)
Lemma frontend_never_504 w r s res s' c detail :
  download_song_frontend w r s = (res, s') ->
  res = Raise (HTTPException c detail) ->
  c <> 504%N.
Proof.
  unfold download_song_frontend.
  set (rid := lit "req_" ++ decimal (time_ms w)).
  cbv beta delta [bind set_temp_dir try_finally try_except]. cbv beta iota.
  set (s0 := {| fs := fs s; trace := trace s; temp_dir := None |}).
  destruct (frontend_body w rid r s0) as [res1 s1] eqn:Eb.
  destruct (frontend_cleanup_run w s1) as (s2 & Hc & _).
  destruct res1 as [a|e|].
  - rewrite Hc. by intros [= <- <-].
  - pose proof (frontend_body_raises _ _ _ _ _ _ e Eb eq_refl) as Hq.
    destruct e as [c0 dt|m|m|m|m|m];
      cbv [on_Exception is_Exception raise]; rewrite Hc;
      intros [= <- <-] [=]; by subst.
  - rewrite Hc. by intros [= <- <-].
Qed.

(** ** Album and duration (C10) *)

Lemma track_info_of_api_bare data ti :
  track_info_of_api data = Some ti ->
  TrackInfo.album ti = None /\ TrackInfo.duration ti = None.
Proof.
  unfold track_info_of_api. destruct (has_error data); [done|].
  destruct (default _ (api_artists data)); [done|]. by intros [= <-].
Qed.

Lemma extract_from_api_bare w u s ti s' :
  extract_from_api w u s = (Ok (Some ti), s') ->
  TrackInfo.album ti = None /\ TrackInfo.duration ti = None.
Proof.
  unfold extract_from_api, try_except, quoted, bind, emit, ret, raise.
  destruct (quote u); [|by intros [=]].
  destruct (api_get w _) as [status data|]; [|by intros [=]].
  destruct (aiohttp_installed w).
  - destruct (status =? 200)%N; [|by intros [=]].
    intros [= H _]. by apply track_info_of_api_bare in H.
  - destruct ((200 <=? status)%N && (status <? 300)%N); [|by intros [=]].
    intros [= H _]. by apply track_info_of_api_bare in H.
Qed.

Lemma extract_from_oembed_bare w u s ti s' :
  extract_from_oembed w u s = (Ok (Some ti), s') ->
  TrackInfo.album ti = None /\ TrackInfo.duration ti = None.
Proof.
  unfold extract_from_oembed, bind, emit, ret.
  destruct (track_id_of_url u) as [tid|]; [|by intros [=]].
  destruct (negb (truthy tid)); [by intros [=]|].
  destruct (oembed_get w _) as [status title|]; [|by intros [=]].
  destruct ((200 <=? status)%N && (status <? 300)%N); [|by intros [=]].
  destruct (parse_oembed_title _). by intros [= <- _].
Qed.

Lemma resolve_without_metadata_bare w r u s ti s' :
  has_metadata r = false ->
  resolve_track_info w r u s = (Ok ti, s') ->
  TrackInfo.album ti = None /\ TrackInfo.duration ti = None.
Proof.
  intros Hm. unfold resolve_track_info. rewrite Hm.
  unfold bind at 1.
  destruct (try_except (extract_from_api w (default [] u)) _ s)
    as [[[t|]|e|] s1] eqn:E1; [| |by intros [=]|by intros [=]].
  - cbv [bind ret]. intros [= <- _].
    unfold try_except in E1.
    destruct (extract_from_api w (default [] u) s) as [[o|e|] s0] eqn:E0.
    + injection E1 as -> ->. by apply extract_from_api_bare in E0.
    + unfold on_Exception in E1. destruct (is_Exception e); by inversion E1.
    + done.
  - unfold bind.
    destruct (extract_from_oembed w (default [] u) s1)
      as [[[t|]|e|] s2] eqn:E2; [| by intros [=] ..].
    cbv [ret]. intros [= <- _]. by apply extract_from_oembed_bare in E2.
Qed.

(** The two optional headers are the album and the duration of the track
    information, when these are non-empty. *)
Lemma optional_headers w rid ti fn qf c :
  assoc (lit "X-Track-Album") (response_headers w rid ti fn qf c)
  = (if truthy_opt (TrackInfo.album ti) then TrackInfo.album ti else None) /\
  assoc (lit "X-Track-Duration") (response_headers w rid ti fn qf c)
  = (if truthy_opt (TrackInfo.duration ti)
     then TrackInfo.duration ti else None).
Proof.
  unfold response_headers.
  destruct (TrackInfo.album ti) as [[|a al]|],
           (TrackInfo.duration ti) as [[|b du]|]; by vm_compute.
Qed.

(** The response of a run that ends well is built from track information
    that the "Get track information" block produced. *)
Lemma frontend_ok_inv w r s resp s' :
  download_song_frontend w r s = (Ok resp, s') ->
  exists u s0 s1 ti rid fn qf c,
    resolve_track_info w r u s0 = (Ok ti, s1) /\
    headers resp = response_headers w rid ti fn qf c.
Proof.
  unfold download_song_frontend.
  set (rid := lit "req_" ++ decimal (time_ms w)).
  cbv beta delta [bind set_temp_dir try_finally try_except]. cbv beta iota.
  set (s0 := {| fs := fs s; trace := trace s; temp_dir := None |}).
  destruct (frontend_body w rid r s0) as [[resp1|e|] s1] eqn:Eb.
  2: { destruct e; cbv [on_Exception is_Exception raise];
       destruct (frontend_cleanup _ _) as [[| |] ?]; by intros [=]. }
  2: { destruct (frontend_cleanup _ _) as [[| |] ?]; by intros [=]. }
  destruct (frontend_cleanup w s1) as [[[]|e|] s2]; intros [= <- <-].
  clear s2. revert Eb. unfold frontend_body, frontend_prepare.
  destruct (negb (truthy_opt (get_spotify_url r)) && negb (has_metadata r));
    [by cbv [bind raise]; intros [=]|].
  unfold bind at 1. unfold bind at 1.
  destruct (mkdtemp w _ _ s0) as [[d|e|] s2]; [|by intros [=] ..].
  unfold bind at 1. unfold set_temp_dir at 1.
  unfold bind at 1.
  destruct (resolve_track_info w r (get_spotify_url r) _)
    as [[ti|e|] s3] eqn:E3; [|by intros [=] ..].
  cbv beta iota delta [ret]. cbn [fst snd].
  unfold frontend_deliver, bind.
  destruct (download_audio w _ d s3) as [[dr|e|] s4]; [|by intros [=] ..].
  destruct (negb (DownloadResult.success dr)); [by intros [=]|].
  destruct (DownloadResult.file_path dr) as [[dir name]|]; [|by intros [=]].
  cbv beta iota delta [get_state].
  destruct (fs s4 !! dir ≫= dir_lookup name) as [[c|]|]; [|by intros [=] ..].
  destruct (DownloadResult.file_name dr) as [fn|]; [|by intros [=]].
  unfold quoted. destruct (quote fn) as [qf|]; [|by intros [=]].
  cbv beta iota zeta delta [ret].
  destruct (init_headers _); [by intros [=]|].
  intros [= <- _]. by repeat eexists.
Qed.

(** C10: track information obtained from the metadata API or from the
    oEmbed endpoint has neither album nor duration; so a response carries
    the header X-Track-Album (X-Track-Duration) only when the request has
    complete metadata and supplies that album (duration) itself. *)
Theorem C10_album_duration_only_from_request :
  (forall w u s ti s',
      extract_from_api w u s = (Ok (Some ti), s') ->
      TrackInfo.album ti = None /\ TrackInfo.duration ti = None) /\
  (forall w u s ti s',
      extract_from_oembed w u s = (Ok (Some ti), s') ->
      TrackInfo.album ti = None /\ TrackInfo.duration ti = None) /\
  (forall w r s resp s',
      download_song_frontend w r s = (Ok resp, s') ->
      (forall v, assoc (lit "X-Track-Album") (headers resp) = Some v ->
                 has_metadata r = true /\ DownloadRequest.album r = Some v) /\
      (forall v, assoc (lit "X-Track-Duration") (headers resp) = Some v ->
                 has_metadata r = true /\
                 DownloadRequest.duration r = Some v)).
Proof.
  split; [exact extract_from_api_bare|]. split; [exact extract_from_oembed_bare|].
  intros w r s resp s' Hrun.
  destruct (frontend_ok_inv _ _ _ _ _ Hrun)
    as (u & s0 & s1 & ti & rid & fn & qf & c & Hres & ->).
  destruct (optional_headers w rid ti fn qf c) as [-> ->].
  destruct (has_metadata r) eqn:Hm.
  - rewrite (resolve_with_metadata _ _ _ _ Hm) in Hres.
    injection Hres as <- _. simpl.
    split; intros v.
    + by destruct (truthy_opt (DownloadRequest.album r)).
    + by destruct (truthy_opt (DownloadRequest.duration r)).
  - destruct (resolve_without_metadata_bare _ _ _ _ _ _ Hm Hres) as [-> ->].
    by split.
Qed.

(** ** The loop over the format preferences *)

Lemma without_files_clean entries :
  Forall (fun e : str * node => is_file e.2 = false) (without_files entries).
Proof.
  unfold without_files. apply Forall_forall. intros e He.
  apply list_elem_of_filter in He as [He _]. by destruct (is_file e.2).
Qed.

(** One iteration of the loop, outcome by outcome. *)
Lemma attempt_step w o f url d total i s :
  let before := fs s !! d in
  let sA after :=
    {| fs := partial_alter (fun _ => after) d (fs s);
       trace := trace s ++ [EvYdl (with_format o f) url before];
       temp_dir := temp_dir s |} in
  let sB after entries :=
    {| fs := partial_alter (fun _ => Some (without_files entries)) d
               (fs (sA after));
       trace := trace (sA after); temp_dir := temp_dir s |} in
  try_except
    (ydl_call w (with_format o f) url d ;;
     entries <- iterdir d ;;
     ret (first_audio_file audio_extensions d entries))
    (on_Exception (fun e =>
       unlink_files d ;; if (i <? total - 1)%nat then ret None else raise e))
    s
  = match ydl_download w (with_format o f) url before with
    | (after, YdlPending) => (Pending, sA after)
    | (None, YdlReturns) => (Raise (NOT_FOUND d), sA None)
    | (Some entries, YdlReturns) =>
        (Ok (first_audio_file audio_extensions d entries), sA (Some entries))
    | (after, YdlRaises e) =>
        if is_Exception e then
          match after with
          | None => (Raise (NOT_FOUND d), sA None)
          | Some entries =>
              if (i <? total - 1)%nat then (Ok None, sB after entries)
              else (Raise e, sB after entries)
          end
        else (Raise e, sA after)
    end.
Proof.
  intros before sA sB. unfold try_except, bind at 1, ydl_call.
  fold before.
  destruct (ydl_download w (with_format o f) url before) as [after out].
  fold (sA after).
  assert (fs (sA after) !! d = after) as Hl
    by (unfold sA; simpl; by rewrite lookup_partial_alter_eq).
  destruct out as [|e|]; [| |by destruct after].
  - unfold bind, iterdir. rewrite Hl. destruct after as [entries|]; [done|].
    unfold on_Exception, NOT_FOUND. simpl.
    unfold unlink_files, bind, iterdir. by rewrite Hl.
  - unfold on_Exception.
    destruct (is_Exception e); [|by destruct after].
    unfold unlink_files, bind at 1, bind at 1, iterdir. rewrite Hl.
    destruct after as [entries|]; [|done].
    unfold set_dir, bind. fold (without_files entries).
    by destruct (i <? total - 1)%nat.
Qed.

Lemma format_loop_run w o url d total formats :
  forall i s res s',
    i + length formats = total ->
    format_loop w o url d total i formats s = (res, s') ->
    exists evs,
      trace s' = trace s ++ evs /\ loop_facts w o url d formats s res s' evs.
Proof.
  induction formats as [|f rest IH]; intros i s res s' Hi.
  { simpl. intros [= <- <-]. exists []. rewrite app_nil_r.
    unfold loop_facts. repeat split; done. }
  cbn [format_loop]. unfold bind at 1.
  pose proof (attempt_step w o f url d total i s) as Hstep.
  cbv zeta in Hstep. rewrite Hstep. clear Hstep.
  set (ev := EvYdl (with_format o f) url (fs s !! d)).
  (* a run that stops after this attempt *)
  assert (forall res0 after,
    (forall e, raised_at w ev = Some e ->
               exists e', res0 = Raise e' /\ (is_Some after -> e' = e)) ->
    (forall m, res0 = Raise (DownloadError m) ->
               rest = [] /\ raised_at w ev = Some (DownloadError m)) ->
    forall s0, trace s0 = trace s ++ [ev] -> fs s0 !! d = after ->
    (res0, s0) = (res, s') ->
    exists evs,
      trace s' = trace s ++ evs /\
      loop_facts w o url d (f :: rest) s res s' evs) as Hstop.
  { intros res0 after Hlast Hdl s0 Htr Hfs [= <- <-]. exists [ev].
    split; [done|]. unfold loop_facts. split; [|split; [|split; [|split]]].
    - simpl. constructor; [by eexists|constructor].
    - by intros ev' [= <-].
    - intros j ev1 ev2 e _ H2. by destruct j.
    - intros ev' e H. simpl in H. rewrite Nat.sub_0_r in H.
      destruct (length rest); [|done]. injection H as <-.
      rewrite Hfs. apply Hlast.
    - intros m Hm. destruct (Hdl m Hm) as [-> Hr]. by exists ev. }
  (* a run that goes on to the next preference *)
  assert (forall s0,
    trace s0 = trace s ++ [ev] ->
    (rest = [] -> raised_at w ev = None) ->
    (forall e, raised_at w ev = Some e ->
               exists entries, fs s0 !! d = Some entries /\
                 Forall (fun x : str * node => is_file x.2 = false) entries) ->
    format_loop w o url d total (S i) rest s0 = (res, s') ->
    exists evs,
      trace s' = trace s ++ evs /\
      loop_facts w o url d (f :: rest) s res s' evs) as Hnext.
  { intros s0 Htr Hnil Hclean Hrun.
    destruct (IH (S i) s0 res s') as (evs & Htr' & HA & HB & HC & HD & HE);
      [simpl in Hi; lia|done|].
    exists (ev :: evs). split; [|split; [|split; [|split; [|split]]]].
    - rewrite Htr', Htr. by rewrite <- app_assoc.
    - simpl. constructor; [by eexists|done].
    - by intros ev' [= <-].
    - intros [|j] ev1 ev2 e H1 H2 Hr; simpl in H1, H2.
      + injection H1 as <-. destruct (Hclean e Hr) as (entries & Hfs & Hcl).
        exists entries. split; [|done].
        rewrite (HB ev2); [by rewrite Hfs|]. by destruct evs.
      + by apply (HC j ev1 ev2 e).
    - intros ev' e H Hr. simpl in H. rewrite Nat.sub_0_r in H.
      destruct rest as [|f' rest'].
      + simpl in H. injection H as <-. by rewrite Hnil in Hr.
      + simpl in H. apply (HD ev' e); [|done].
        simpl. by rewrite Nat.sub_0_r.
    - intros m Hm. destruct (HE m Hm) as (ev' & Hev' & Hr').
      destruct rest as [|f' rest'].
      + apply Forall2_length in HA. rewrite length_take in HA.
        destruct evs; [done|]. simpl in HA. lia.
      + exists ev'. split; [|done]. simpl. simpl in Hev'.
        by rewrite Nat.sub_0_r in Hev'. }
  destruct (ydl_download w (with_format o f) url (fs s !! d))
    as [after out] eqn:Eo.
  assert (raised_at w ev
          = match out with
            | YdlRaises e => if is_Exception e then Some e else None
            | _ => None
            end) as Hraised by (unfold raised_at, ev; by rewrite Eo).
  set (sA := {| fs := partial_alter (fun _ => after) d (fs s);
                trace := trace s ++ [ev]; temp_dir := temp_dir s |}).
  assert (fs sA !! d = after) as HfsA
    by (simpl; by rewrite lookup_partial_alter_eq).
  destruct out as [|e|]; cbv iota in Hraised.
  - (* the call returns *)
    destruct after as [entries|].
    + destruct (first_audio_file audio_extensions d entries) as [file|].
      * apply (Hstop _ (Some entries)); [|done|done|done].
        intros e0 Hr. by rewrite Hraised in Hr.
      * apply Hnext; [done|done|].
        intros e0 Hr. by rewrite Hraised in Hr.
    + apply (Hstop _ None); [|done|done|done].
      intros e0 Hr. by rewrite Hraised in Hr.
  - (* the call raises *)
    destruct (is_Exception e) eqn:He.
    + destruct after as [entries|].
      * set (sB := {| fs := partial_alter _ d (fs sA); trace := trace sA;
                      temp_dir := temp_dir s |}).
        assert (fs sB !! d = Some (without_files entries)) as HfsB
          by (simpl; by rewrite lookup_partial_alter_eq).
        destruct (i <? total - 1)%nat eqn:Hlt.
        -- apply Hnext; [done| |].
           ++ intros ->. apply Nat.ltb_lt in Hlt. simpl in Hi. lia.
           ++ intros _ _. eexists. split; [exact HfsB|].
              apply without_files_clean.
        -- apply (Hstop _ (Some (without_files entries))); [| |done|done].
           ++ rewrite Hraised. intros e0 [= <-]. by exists e.
           ++ intros m [= ->]. split; [|done].
              apply Nat.ltb_ge in Hlt. simpl in Hi.
              destruct rest; [done|]. simpl in Hi. lia.
      * apply (Hstop _ None); [|done|done|done].
        intros e0 _. eexists. split; [done|]. by intros [? [=]].
    + destruct after; (eapply Hstop; [| |done|done]);
        try (intros e0 Hr; by rewrite Hraised in Hr);
        intros m [= ->]; done.
  - (* the call is still running at the deadline *)
    destruct after; (eapply Hstop; [|done|done|done]);
      intros e0 Hr; by rewrite Hraised in Hr.
Qed.

(** ** The fallback pass (C2) *)

Lemma filter_none {A} (p : A -> bool) (l : list A) :
  Forall (fun x => p x = false) l -> filter p l = [].
Proof.
  induction 1 as [|x l Hx _ IH]; [done|].
  rewrite filter_cons_False; [exact IH|]. rewrite Hx. intros H. exact H.
Qed.

Lemma primary_pass_emits w q d :
  emits (fun ev => uses_format fallback_format ev = false) (primary_pass w q d).
Proof.
  apply emits_wait_for, _download_emits. intros f u before Hf.
  repeat (apply elem_of_cons in Hf as [->|Hf]; [by vm_compute|]).
  by apply not_elem_of_nil in Hf.
Qed.

Lemma primary_pass_quote_fails w q d s msg :
  quote q = inr msg ->
  primary_pass w q d s = (Raise (OtherException msg), s).
Proof.
  intros Hq. unfold primary_pass, wait_for, _download, music_search, quoted.
  rewrite Hq. done.
Qed.

(** A [DownloadError] ends the first pass only when the attempt with the
    last of the three preferences raised it. *)
Lemma primary_pass_download_error w q d s m s1 :
  primary_pass w q d s = (Raise (DownloadError m), s1) ->
  exists evs1 ev,
    trace s1 = trace s ++ evs1 /\ evs1 !! 2 = Some ev /\
    raised_at w ev = Some (DownloadError m).
Proof.
  unfold primary_pass, wait_for.
  destruct (_download _ _ _ _ s) as [[dr|e|] s0] eqn:E; intros [= -> <-].
  revert E. unfold _download, music_search, quoted.
  destruct (quote q) as [qq|msg]; [|by cbv [bind raise]; intros [=]].
  cbv beta iota delta [bind ret]. intros Hrun.
  apply format_loop_run in Hrun as (evs1 & Htr & _ & _ & _ & _ & HE); [|done].
  destruct (HE m eq_refl) as (ev & Hev & Hr). by exists evs1, ev.
Qed.

Lemma ydl_call_run w o url d s :
  ydl_call w o url d s =
  (match (ydl_download w o url (fs s !! d)).2 with
   | YdlReturns => Ok tt
   | YdlRaises e => Raise e
   | YdlPending => Pending
   end,
   {| fs := partial_alter (fun _ => (ydl_download w o url (fs s !! d)).1) d
              (fs s);
      trace := trace s ++ [EvYdl o url (fs s !! d)];
      temp_dir := temp_dir s |}).
Proof.
  unfold ydl_call. by destruct (ydl_download w o url (fs s !! d)) as [? []].
Qed.

(** The fallback pass as [download_audio] runs it: one call of yt-dlp with
    the fallback options, then a file, the failure prepared by the caller,
    or an exception that is no [Exception]. *)
Lemma fallback_run w q d s qq error_msg :
  quote q = inl qq ->
  exists r s2,
    try_except (_fallback_download w q d)
               (on_Exception (fun _ => ret (failure error_msg))) s = (r, s2) /\
    trace s2 = trace s ++
      [EvYdl (fallback_opts d)
             (lit "https://music.youtube.com/search?q=" ++ qq) (fs s !! d)] /\
    (forall dr, r = Ok dr -> DownloadResult.success dr = false ->
                dr = failure error_msg).
Proof.
  intros Hq.
  unfold _fallback_download, _fallback_download_sync, music_search, quoted.
  rewrite Hq.
  cbv beta iota delta [try_except wait_for bind ret].
  rewrite ydl_call_run.
  destruct (ydl_download w (fallback_opts d)
              (lit "https://music.youtube.com/search?q=" ++ qq) (fs s !! d))
    as [after out].
  cbn [fst snd].
  set (sA := {| fs := partial_alter (fun _ => after) d (fs s);
                trace := trace s ++
                  [EvYdl (fallback_opts d)
                     (lit "https://music.youtube.com/search?q=" ++ qq)
                     (fs s !! d)];
                temp_dir := temp_dir s |}).
  assert (fs sA !! d = after) as Hl
    by (simpl; by rewrite lookup_partial_alter_eq).
  destruct out as [|e|].
  - unfold iterdir. rewrite Hl. destruct after as [entries|].
    + destruct (first_audio_file fallback_extensions d entries)
        as [file|] eqn:Ef.
      * exists (Ok file), sA. split; [done|]. split; [done|].
        intros dr [= <-] Hs. exfalso. clear -Ef Hs.
        induction entries as [|[n [c|]] entries IH]; simpl in Ef; [done| |auto].
        destruct (in_list _ _); [|auto]. injection Ef as <-. done.
      * exists (Ok (failure error_msg)), sA. split; [done|]. split; [done|].
        by intros dr [= <-].
    + exists (Ok (failure error_msg)), sA. split; [done|]. split; [done|].
      by intros dr [= <-].
  - destruct (is_Exception e) eqn:He.
    + exists (Ok (failure error_msg)), sA. split.
      * unfold on_Exception. rewrite He. cbv [raise]. by rewrite He.
      * split; [done|]. by intros dr [= <-].
    + exists (Raise e), sA. split.
      * unfold on_Exception. rewrite He. by rewrite He.
      * split; [done|]. by intros dr [=].
  - exists (Ok (failure error_msg)), sA. split; [done|]. split; [done|].
    by intros dr [= <-].
Qed.

(** C2, amended: the fallback pass depends on how the first pass (the
    format attempts under their deadline) ends.  It ends by raising a
    [DownloadError] only when the attempt with the last preference raised
    it.  When the text of that error contains "403" or "Forbidden", exactly
    one call with the fallback options follows, and a failure reported
    after it carries the first pass's error; in every other case (a file
    was found, the deadline expired, an extractor error or any other
    exception ended the pass, the download error is not a forbidden one, a
    forbidden error came only from an earlier attempt) no such call is
    made. *)
Theorem C2_fallback_pass w q d s res s' evs :
  download_audio w q d s = (res, s') ->
  trace s' = trace s ++ evs ->
  (forall m,
      (primary_pass w q d s).1 = Raise (DownloadError m) ->
      (exists ev, evs !! 2 = Some ev /\
                  raised_at w ev = Some (DownloadError m)) /\
      (is_forbidden m = true ->
       (exists url before,
           filter (uses_format fallback_format) evs
           = [EvYdl (fallback_opts d) url before]) /\
       (forall dr, res = Ok dr -> DownloadResult.success dr = false ->
                   dr = failure (lit "yt-dlp download error: " ++ m)))) /\
  ((forall m, (primary_pass w q d s).1 = Raise (DownloadError m) ->
              is_forbidden m = false) ->
   filter (uses_format fallback_format) evs = []).
Proof.
  unfold download_audio. cbv zeta. fold (primary_pass w q d).
  unfold try_except at 1.
  destruct (primary_pass w q d s) as [r1 s1] eqn:E1.
  destruct (primary_pass_emits _ _ _ _ _ _ E1) as (_ & evs1 & Htr1 & Hev1).
  apply filter_none in Hev1. cbn [fst].
  assert (forall tl, trace s' = trace s1 ++ tl ->
                     trace s' = trace s ++ evs -> evs = evs1 ++ tl) as Hsplit.
  { intros tl H1 H2. rewrite H1, Htr1, <- app_assoc in H2.
    by apply app_inv_head in H2. }
  assert (s1 = s' -> trace s' = trace s ++ evs ->
          filter (uses_format fallback_format) evs = []) as Hquiet.
  { intros <- Htr. rewrite (Hsplit []); [by rewrite app_nil_r|
      by rewrite app_nil_r|done]. }
  destruct r1 as [dr|e|].
  - intros [= _ <-] Htr. split; [by intros m [=]|]. intros _. by apply Hquiet.
  - destruct e as [c dt|m|m|m|m|m].
    all: try (cbv [on_Exception is_Exception ret]; intros [= _ <-] Htr;
              split; [by intros m' [=]|]; intros _; by apply Hquiet).
    destruct (primary_pass_download_error _ _ _ _ _ _ E1)
      as (evs1' & ev & Htr1' & Hev & Hr).
    rewrite Htr1 in Htr1'. apply app_inv_head in Htr1' as <-.
    destruct (is_forbidden m) eqn:Hf.
    + destruct (quote q) as [qq|msg] eqn:Hq.
      2: { by rewrite (primary_pass_quote_fails _ _ _ _ _ Hq) in E1. }
      destruct (fallback_run w q d s1 qq
                  (lit "yt-dlp download error: " ++ m) Hq)
        as (r & s2 & -> & Htr2 & Hfail).
      intros [= <- <-] Htr. rewrite (Hsplit _ Htr2 Htr).
      split.
      * intros m' [= <-]. split.
        { exists ev. split; [|done]. by apply lookup_app_l_Some. }
        intros _. split; [|exact Hfail].
        eexists _, _. rewrite filter_app, Hev1. simpl.
        rewrite filter_cons_True; [done|]. by vm_compute.
      * intros Hno. by rewrite (Hno m eq_refl) in Hf.
    + cbv [ret]. intros [= _ <-] Htr. split; [|intros _; by apply Hquiet].
      intros m' [= <-]. split.
      * exists ev. split; [|done].
        rewrite (Hsplit []); [by rewrite app_nil_r|by rewrite app_nil_r|done].
      * intros Hf'. by rewrite Hf in Hf'.
  - intros [= _ <-] Htr. split; [by intros m [=]|]. intros _. by apply Hquiet.
Qed.

(** ** The attempts of the engine, in order (C6) *)

(** The attempts of the loop, one after the other: the first one has the
    first preference and finds the directory as it is; an attempt in which
    [ydl.download] raised and left the directory in place is followed by
    the attempt with the next preference, on that directory without its
    files, or, when there is no next preference, makes the loop raise the
    same exception. *)
Lemma format_loop_progress w o url d total formats :
  forall i s res s',
    i + length formats = total ->
    format_loop w o url d total i formats s = (res, s') ->
    exists evs,
      trace s' = trace s ++ evs /\
      (forall f, head formats = Some f ->
                 head evs = Some (EvYdl (with_format o f) url (fs s !! d))) /\
      (forall j ev e entries,
          evs !! j = Some ev -> raised_at w ev = Some e ->
          left_at w ev = Some entries ->
          match formats !! S j with
          | Some f =>
              evs !! S j
              = Some (EvYdl (with_format o f) url
                            (Some (without_files entries)))
          | None => res = Raise e
          end).
Proof.
  induction formats as [|f rest IH]; intros i s res s' Hi.
  { simpl. intros [= <- <-]. exists []. rewrite app_nil_r.
    split; [done|]. split; [done|]. by intros j ev e entries ?. }
  cbn [format_loop]. unfold bind at 1.
  pose proof (attempt_step w o f url d total i s) as Hstep.
  cbv zeta in Hstep. rewrite Hstep. clear Hstep.
  set (ev0 := EvYdl (with_format o f) url (fs s !! d)).
  destruct (ydl_download w (with_format o f) url (fs s !! d))
    as [after out] eqn:Eo.
  assert (raised_at w ev0
          = match out with
            | YdlRaises e => if is_Exception e then Some e else None
            | _ => None
            end) as Hraised by (unfold raised_at, ev0; by rewrite Eo).
  assert (left_at w ev0 = after) as Hleft
    by (unfold left_at, ev0; by rewrite Eo).
  (* a run that stops after this attempt *)
  assert (forall s0,
    trace s0 = trace s ++ [ev0] ->
    (forall e entries, raised_at w ev0 = Some e -> after = Some entries ->
                       rest = [] /\ res = Raise e) ->
    s0 = s' ->
    exists evs,
      trace s' = trace s ++ evs /\
      (forall f0, head (f :: rest) = Some f0 ->
                  head evs = Some (EvYdl (with_format o f0) url (fs s !! d))) /\
      (forall j ev e entries,
          evs !! j = Some ev -> raised_at w ev = Some e ->
          left_at w ev = Some entries ->
          match (f :: rest) !! S j with
          | Some f0 =>
              evs !! S j
              = Some (EvYdl (with_format o f0) url
                            (Some (without_files entries)))
          | None => res = Raise e
          end)) as Hstop.
  { intros s0 Htr Hlast <-. exists [ev0]. split; [done|].
    split; [by intros f0 [= <-]|].
    intros [|j] ev e entries Hev Hr Hl; [|done].
    injection Hev as <-. rewrite Hleft in Hl.
    destruct (Hlast e entries Hr Hl) as [-> ->]. done. }
  (* a run that goes on to the next preference *)
  assert (forall s0,
    trace s0 = trace s ++ [ev0] ->
    (forall e entries, raised_at w ev0 = Some e -> after = Some entries ->
                       rest <> [] /\ fs s0 !! d = Some (without_files entries)) ->
    format_loop w o url d total (S i) rest s0 = (res, s') ->
    exists evs,
      trace s' = trace s ++ evs /\
      (forall f0, head (f :: rest) = Some f0 ->
                  head evs = Some (EvYdl (with_format o f0) url (fs s !! d))) /\
      (forall j ev e entries,
          evs !! j = Some ev -> raised_at w ev = Some e ->
          left_at w ev = Some entries ->
          match (f :: rest) !! S j with
          | Some f0 =>
              evs !! S j
              = Some (EvYdl (with_format o f0) url
                            (Some (without_files entries)))
          | None => res = Raise e
          end)) as Hnext.
  { intros s0 Htr Hclean Hrun.
    destruct (IH (S i) s0 res s') as (evs & Htr' & Hhead & Hprog);
      [simpl in Hi; lia|done|].
    exists (ev0 :: evs). split; [rewrite Htr', Htr; by rewrite <- app_assoc|].
    split; [by intros f0 [= <-]|].
    intros [|j] ev e entries Hev Hr Hl.
    - injection Hev as <-. rewrite Hleft in Hl.
      destruct (Hclean e entries Hr Hl) as [Hrest Hfs].
      destruct rest as [|f1 rest']; [done|].
      change ((f :: f1 :: rest') !! 1) with (Some f1). cbv iota.
      change ((ev0 :: evs) !! 1) with (evs !! 0).
      rewrite <- head_lookup, (Hhead f1 eq_refl). by rewrite Hfs.
    - apply (Hprog j ev e entries Hev Hr Hl). }
  set (sA := {| fs := partial_alter (fun _ => after) d (fs s);
                trace := trace s ++ [ev0]; temp_dir := temp_dir s |}).
  destruct out as [|e|]; cbv iota in Hraised.
  - destruct after as [entries|].
    + destruct (first_audio_file audio_extensions d entries) as [file|].
      * intros [= <- <-]. apply (Hstop sA); [done| |done].
        intros e0 en Hr. by rewrite Hraised in Hr.
      * apply Hnext; [done|]. intros e0 en Hr. by rewrite Hraised in Hr.
    + intros [= <- <-]. apply (Hstop sA); [done| |done].
      intros e0 en Hr. by rewrite Hraised in Hr.
  - destruct (is_Exception e) eqn:He.
    + destruct after as [entries|].
      * set (sB := {| fs := partial_alter _ d (fs sA); trace := trace sA;
                      temp_dir := temp_dir s |}).
        assert (fs sB !! d = Some (without_files entries)) as HfsB
          by (simpl; by rewrite lookup_partial_alter_eq).
        destruct (i <? total - 1)%nat eqn:Hlt.
        -- apply Hnext; [done|].
           intros e0 en _ [= <-]. split; [|done].
           intros ->. apply Nat.ltb_lt in Hlt. simpl in Hi. lia.
        -- intros [= <- <-]. apply (Hstop sB); [done| |done].
           rewrite Hraised. intros e0 en [= <-] _. split; [|done].
           apply Nat.ltb_ge in Hlt. simpl in Hi.
           destruct rest; [done|]. simpl in Hi. lia.
      * intros [= <- <-]. apply (Hstop sA); [done| |done]. by intros e0 en _.
    + destruct after; intros [= <- <-]; (apply (Hstop sA); [done| |done]);
        intros e0 en Hr; by rewrite Hraised in Hr.
  - destruct after; intros [= <- <-]; (apply (Hstop sA); [done| |done]);
      intros e0 en Hr; by rewrite Hraised in Hr.
Qed.

Lemma raised_at_Exception w ev e :
  raised_at w ev = Some e -> is_Exception e = true.
Proof.
  destruct ev as [| | |opts url before|]; try done. unfold raised_at.
  destruct (ydl_download w opts url before).2 as [|e0|]; try done.
  destruct (is_Exception e0) eqn:He; [|done]. by intros [= <-].
Qed.

(** The first pass of [download_audio] for a query that can be quoted:
    between one and three attempts, whose preferences follow the list. *)
Lemma primary_pass_attempts w q qq d s r1 s1 :
  quote q = inl qq ->
  primary_pass w q d s = (r1, s1) ->
  exists evs1,
    trace s1 = trace s ++ evs1 /\
    0 < length evs1 <= 3 /\
    head evs1 = Some (attempt d qq default_format (fs s !! d)) /\
    (forall j ev,
        evs1 !! j = Some ev ->
        exists f before,
          format_attempts (attempt_opts d) !! j = Some f /\
          ev = attempt d qq f before) /\
    (forall j ev e entries,
        evs1 !! j = Some ev -> raised_at w ev = Some e ->
        left_at w ev = Some entries ->
        match format_attempts (attempt_opts d) !! S j with
        | Some f =>
            evs1 !! S j = Some (attempt d qq f (Some (without_files entries)))
        | None => r1 = Raise e
        end) /\
    (forall m, r1 = Raise (DownloadError m) -> length evs1 = 3).
Proof.
  intros Hq. unfold primary_pass, wait_for, _download, music_search, quoted.
  rewrite Hq. cbv beta iota delta [bind ret].
  fold (attempt_opts d). fold (format_attempts (attempt_opts d)).
  set (url := lit "https://music.youtube.com/search?q=" ++ qq).
  destruct (format_loop w (attempt_opts d) url d _ 0 _ s) as [res0 s0] eqn:Hrun.
  pose proof Hrun as Hrun'.
  apply format_loop_run in Hrun as (evs1 & Htr & HA & _ & _ & _ & HE);
    [|done].
  apply format_loop_progress in Hrun' as (evs1' & Htr' & Hhead & Hprog);
    [|done].
  rewrite Htr in Htr'. apply app_inv_head in Htr' as <-.
  specialize (Hhead _ eq_refl).
  assert (length evs1 <= 3) as Hle.
  { apply Forall2_length in HA. rewrite length_take in HA.
    change (length (format_attempts (attempt_opts d))) with 3 in HA. lia. }
  assert (r1 = match res0 with Pending => Raise (TimeoutError []) | r => r end
          /\ s1 = s0 -> exists evs1,
    trace s1 = trace s ++ evs1 /\
    0 < length evs1 <= 3 /\
    head evs1 = Some (attempt d qq default_format (fs s !! d)) /\
    (forall j ev,
        evs1 !! j = Some ev ->
        exists f before,
          format_attempts (attempt_opts d) !! j = Some f /\
          ev = attempt d qq f before) /\
    (forall j ev e entries,
        evs1 !! j = Some ev -> raised_at w ev = Some e ->
        left_at w ev = Some entries ->
        match format_attempts (attempt_opts d) !! S j with
        | Some f =>
            evs1 !! S j = Some (attempt d qq f (Some (without_files entries)))
        | None => r1 = Raise e
        end) /\
    (forall m, r1 = Raise (DownloadError m) -> length evs1 = 3)) as Hall.
  { intros [-> ->]. exists evs1. split; [done|].
    split; [split; [destruct evs1; [done|simpl; lia]|done]|].
    split; [exact Hhead|].
    split; [|split].
    - intros j ev Hev.
      destruct (Forall2_lookup_l _ _ _ _ _ HA Hev) as (f & Hf & b & ->).
      exists f, b. split; [|done]. by apply lookup_take_Some in Hf as [Hf _].
    - intros j ev e entries Hev Hr Hl.
      specialize (Hprog j ev e entries Hev Hr Hl).
      destruct (format_attempts (attempt_opts d) !! S j); [done|].
      by rewrite Hprog.
    - intros m Hm. assert (res0 = Raise (DownloadError m)) as ->
        by (by destruct res0).
      destruct (HE m eq_refl) as (ev & Hev & _).
      apply lookup_lt_Some in Hev. simpl in Hev. lia. }
  intros E. apply Hall. by destruct res0; injection E as <- <-.
Qed.

(** What [download_audio] does once its first pass has ended: the fallback
    pass after a forbidden download error, and nothing more otherwise; an
    [Exception] of the first pass that is no forbidden download error
    becomes a failure result. *)
Lemma download_audio_after_pass w q qq d s r1 s1 res s' :
  quote q = inl qq ->
  primary_pass w q d s = (r1, s1) ->
  download_audio w q d s = (res, s') ->
  exists tl,
    trace s' = trace s1 ++ tl /\
    match r1 with
    | Raise e =>
        if is_forbidden_error e
        then tl = [EvYdl (fallback_opts d)
                         (lit "https://music.youtube.com/search?q=" ++ qq)
                         (fs s1 !! d)]
        else tl = [] /\
             (is_Exception e = true -> exists msg, res = Ok (failure msg))
    | _ => tl = []
    end.
Proof.
  intros Hq E1. unfold download_audio. cbv zeta. fold (primary_pass w q d).
  unfold try_except at 1. rewrite E1.
  destruct r1 as [dr|e|].
  - intros [= <- <-]. exists []. by rewrite app_nil_r.
  - destruct e as [c dt|m|m|m|m|m]; cbn [is_forbidden_error].
    3: { destruct (is_forbidden m) eqn:Hf.
         - destruct (fallback_run w q d s1 qq
                       (lit "yt-dlp download error: " ++ m) Hq)
             as (r & s2 & -> & Htr2 & _).
           intros [= <- <-]. eexists. split; [exact Htr2|done].
         - cbv [ret]. intros [= <- <-]. exists []. rewrite app_nil_r.
           split; [done|]. split; [done|]. by eexists. }
    all: cbv [on_Exception is_Exception ret]; intros [= <- <-]; exists [];
      rewrite app_nil_r; split; [done|]; split; [done|];
      intros He; try done; by eexists.
  - intros [= <- <-]. exists []. by rewrite app_nil_r.
Qed.


(** ** Consistent naming (C9) *)

(** Decide every comparison of names in sight. *)
Ltac name_cases :=
  unfold str_eqb in *; repeat (case_bool_decide; simpl in *);
  try done; try congruence.

Lemma dir_lookup_remove (n m : str) (d : directory) :
  dir_lookup n (filter (fun e : str * node => negb (str_eqb e.1 m)) d)
  = if str_eqb n m then None else dir_lookup n d.
Proof.
  induction d as [|[k x] d IH]; [by name_cases|].
  destruct (decide (k = m)) as [->|Hkm].
  - rewrite filter_cons_False by name_cases.
    rewrite IH. simpl. name_cases.
  - rewrite filter_cons_True by name_cases.
    simpl. rewrite IH. name_cases.
Qed.

Lemma dir_lookup_moved (n src dst : str) (d : directory) :
  src <> dst ->
  dir_lookup n
    (map (fun e : str * node => if str_eqb e.1 src then (dst, e.2) else e)
         (filter (fun e : str * node => negb (str_eqb e.1 dst)) d))
  = if str_eqb n dst then dir_lookup src d
    else if str_eqb n src then None else dir_lookup n d.
Proof.
  intros Hne. induction d as [|[k x] d IH]; [by name_cases|].
  destruct (decide (k = dst)) as [->|Hk].
  - rewrite filter_cons_False by name_cases.
    rewrite IH. simpl. name_cases.
  - rewrite filter_cons_True by name_cases.
    simpl. destruct (str_eqb k src) eqn:Hks; simpl; rewrite IH; name_cases.
Qed.

Lemma dir_lookup_listed (n : str) (d : directory) :
  n ∈ map fst d -> is_Some (dir_lookup n d).
Proof.
  induction d as [|[k x] d IH]; simpl.
  { by intros ?%not_elem_of_nil. }
  intros [->|Hin]%elem_of_cons; name_cases; eauto.
Qed.

Lemma os_remove_lookup od m d d1 n :
  os_remove od m d = inl d1 ->
  dir_lookup n d1 = if str_eqb n m then None else dir_lookup n d.
Proof.
  unfold os_remove. destruct (dir_lookup m d) as [[c|]|] eqn:Hm; [|done..].
  intros [= <-]. apply dir_lookup_remove.
Qed.

Lemma os_rename_lookup od src dst d d1 n :
  src <> dst ->
  os_rename od src dst d = inl d1 ->
  dir_lookup n d1 = if str_eqb n dst then dir_lookup src d
                    else if str_eqb n src then None else dir_lookup n d.
Proof.
  intros Hne. unfold os_rename.
  destruct (dir_lookup src d) as [[c|]|] eqn:Hs,
           (dir_lookup dst d) as [[c'|]|];
    try done; intros [= <-]; rewrite dir_lookup_moved by done;
    by rewrite Hs.
Qed.

Lemma latest_previous_apart (e e' : str) :
  lit "latest" ++ e <> lit "previous" ++ e'.
Proof. intros H. apply (f_equal head) in H. by vm_compute in H. Qed.

Lemma temp_name_apart (t e : str) :
  startswith (lit "temp_download") t = true ->
  t <> lit "latest" ++ e /\ t <> lit "previous" ++ e.
Proof.
  intros Ht. apply startswith_inv in Ht. rewrite Ht.
  split; intros H; apply (f_equal head) in H; by vm_compute in H.
Qed.

(** The rotation loop, when it completes: each [latest.ext] that existed is
    now [previous.ext], no [latest.ext] is left, and names that are neither
    are untouched. *)
Lemma rotate_latest_done od exts :
  NoDup exts ->
  forall d d',
    rotate_latest od exts d = (None, d') ->
    (forall e x, e ∈ exts -> dir_lookup (lit "latest" ++ e) d = Some x ->
                 dir_lookup (lit "previous" ++ e) d' = Some x) /\
    (forall e, e ∈ exts -> dir_lookup (lit "latest" ++ e) d' = None) /\
    (forall n, (forall e, e ∈ exts ->
                          n <> lit "latest" ++ e /\ n <> lit "previous" ++ e) ->
               dir_lookup n d' = dir_lookup n d).
Proof.
  induction 1 as [|ext rest Hnotin Hnodup IH]; intros d d'.
  { simpl. intros [= <-]. repeat split; try done.
    - by intros e x ?%not_elem_of_nil.
    - by intros e ?%not_elem_of_nil. }
  cbn [rotate_latest].
  set (latest := lit "latest" ++ ext). set (previous := lit "previous" ++ ext).
  assert (latest <> previous) as Hlp by apply latest_previous_apart.
  assert (forall d2,
    (forall n, dir_lookup n d2
               = if str_eqb n previous then dir_lookup latest d
                 else if str_eqb n latest then None else dir_lookup n d) ->
    rotate_latest od rest d2 = (None, d') ->
    (forall e x, e ∈ ext :: rest ->
                 dir_lookup (lit "latest" ++ e) d = Some x ->
                 dir_lookup (lit "previous" ++ e) d' = Some x) /\
    (forall e, e ∈ ext :: rest -> dir_lookup (lit "latest" ++ e) d' = None) /\
    (forall n, (forall e, e ∈ ext :: rest ->
                          n <> lit "latest" ++ e /\ n <> lit "previous" ++ e) ->
               dir_lookup n d' = dir_lookup n d)) as Hmoved.
  { intros d2 H2 Hrest. destruct (IH _ _ Hrest) as (Hprev & Hlat & Hother).
    assert (forall e, e ∈ rest ->
              lit "latest" ++ e <> latest /\ lit "latest" ++ e <> previous /\
              lit "previous" ++ e <> latest /\ lit "previous" ++ e <> previous)
      as Hapart.
    { intros e He. repeat split.
      - intros ?%app_inv_head. congruence.
      - apply latest_previous_apart.
      - intros Heq. symmetry in Heq. by apply latest_previous_apart in Heq.
      - intros ?%app_inv_head. congruence. }
    assert (forall n, n <> latest -> n <> previous ->
                      dir_lookup n d2 = dir_lookup n d) as Hsame.
    { intros n H1 H3. rewrite H2. unfold str_eqb.
      by rewrite !bool_decide_eq_false_2. }
    assert (forall n, n = latest \/ n = previous ->
              forall e, e ∈ rest ->
                n <> lit "latest" ++ e /\ n <> lit "previous" ++ e) as Hkept.
    { intros n Hn e He. destruct (Hapart e He) as (?&?&?&?).
      destruct Hn as [-> | ->]; split; congruence. }
    split; [|split].
    - intros e x [->|He]%elem_of_cons Hx.
      + fold previous. fold latest in Hx.
        rewrite (Hother previous); [|by apply Hkept; right].
        rewrite H2. unfold str_eqb. by rewrite bool_decide_eq_true_2.
      + apply (Hprev e x He). destruct (Hapart e He) as (?&?&_).
        by rewrite Hsame.
    - intros e [->|He]%elem_of_cons; [|by apply Hlat].
      fold latest. rewrite (Hother latest); [|by apply Hkept; left].
      rewrite H2. unfold str_eqb.
      by rewrite bool_decide_eq_false_2, bool_decide_eq_true_2.
    - intros n Hn. rewrite Hother.
      + destruct (Hn ext) as [? ?]; [by left|]. by apply Hsame.
      + intros e He. apply Hn. by right. }
  destruct (dir_lookup latest d) as [x|] eqn:Hl.
  - destruct (dir_lookup previous d) as [y|] eqn:Hp.
    + destruct (os_remove od previous d) as [d1|e1] eqn:E1; [|done].
      destruct (os_rename od latest previous d1) as [d2|e2] eqn:E2; [|done].
      apply Hmoved. intros n.
      rewrite (os_rename_lookup _ _ _ _ _ n Hlp E2).
      rewrite !(os_remove_lookup _ _ _ _ _ E1). unfold str_eqb.
      repeat case_bool_decide; congruence.
    + destruct (os_rename od latest previous d) as [d2|e2] eqn:E2; [|done].
      apply Hmoved. intros n.
      rewrite (os_rename_lookup _ _ _ _ _ n Hlp E2). unfold str_eqb.
      repeat case_bool_decide; congruence.
  - intros Hrest. destruct (IH _ _ Hrest) as (Hprev & Hlat & Hother).
    split; [|split].
    + intros e x [->|He]%elem_of_cons Hx;
        [fold latest in Hx; by rewrite Hl in Hx|].
      by apply Hprev.
    + intros e [->|He]%elem_of_cons; [|by apply Hlat].
      fold latest. rewrite Hother; [done|]. intros e He. split.
      * intros ?%app_inv_head. congruence.
      * apply latest_previous_apart.
    + intros n Hn. apply Hother. intros e He. apply Hn. by right.
Qed.

Lemma script_extensions_nodup : NoDup script_extensions.
Proof. apply (bool_decide_unpack _). by vm_compute. Qed.

(** The script has listed its folder only when the path is not empty. *)
Lemma os_listdir_inv od d1 names :
  os_listdir od d1 = inl names -> names = map fst d1.
Proof. unfold os_listdir. destruct (truthy od); by intros [= <-]. Qed.


(** ** How computations end *)

Lemma ends_weaken {A} (P Q : exn -> Prop) (m : M A) :
  (forall e, P e -> Q e) -> ends P m -> ends Q m.
Proof.
  intros HPQ Hm s r s' E. specialize (Hm _ _ _ E). destruct r; auto.
Qed.

Lemma ends_ret {A} P (a : A) : ends P (ret a).
Proof. by intros s r s' [= <- <-]. Qed.

Lemma ends_raise {A} (P : exn -> Prop) e : P e -> ends P (@raise A e).
Proof. by intros HP s r s' [= <- <-]. Qed.

Lemma ends_get_state P : ends P get_state.
Proof. by intros s r s' [= <- <-]. Qed.

Lemma ends_emit P ev : ends P (emit ev).
Proof. by intros s r s' [= <- <-]. Qed.

Lemma ends_set_dir P d x : ends P (set_dir d x).
Proof. by intros s r s' [= <- <-]. Qed.

Lemma ends_set_temp_dir P d : ends P (set_temp_dir d).
Proof. by intros s r s' [= <- <-]. Qed.

Lemma ends_seq {A B} P (m : M A) (k : A -> M B) :
  ends P m -> (forall a, ends P (k a)) -> ends P (bind m k).
Proof.
  intros Hm Hk s r s'. unfold bind.
  destruct (m s) as [[a|e|] s1] eqn:E; pose proof (Hm _ _ _ E) as H0.
  - apply Hk.
  - by intros [= <- <-].
  - done.
Qed.

Lemma ends_try_except {A} (P Q : exn -> Prop) (body : M A)
    (handler : exn -> option (M A)) :
  ends Q body ->
  (forall e h, Q e -> handler e = Some h -> ends P h) ->
  (forall e, Q e -> handler e = None -> P e) ->
  ends P (try_except body handler).
Proof.
  intros Hb Hh Hn s r s'. unfold try_except.
  destruct (body s) as [[a|e|] s1] eqn:E; pose proof (Hb _ _ _ E) as H0;
    [by intros [= <- <-]| |done].
  destruct (handler e) as [h|] eqn:Eh.
  - by apply (Hh e h).
  - intros [= <- <-]. by apply Hn.
Qed.

(** Under a deadline a job that is still running raises [TimeoutError]. *)
Lemma ends_wait_for {A} (P : exn -> Prop) (job : M A) :
  raises_only P job -> P (TimeoutError []) -> ends P (wait_for job).
Proof.
  intros Hj HT s r s'. unfold wait_for.
  destruct (job s) as [[a|e|] s1] eqn:E; intros [= <- <-]; [done| |done].
  by eapply Hj.
Qed.

Lemma ends_quoted (P : exn -> Prop) q :
  (forall m, P (OtherException m)) -> ends P (quoted q).
Proof.
  intros HP. unfold quoted. destruct (quote q);
    [apply ends_ret|by apply ends_raise].
Qed.

Lemma extract_from_api_ends w u : ends (fun _ => False) (extract_from_api w u).
Proof.
  unfold extract_from_api.
  apply (ends_try_except _ (fun e => is_Exception e = true)).
  - apply ends_seq; [by apply ends_quoted|].
    intros q. apply ends_seq; [apply ends_emit|]. intros _.
    destruct (api_get w _) as [status data|]; [|apply ends_ret].
    destruct (aiohttp_installed w);
      [destruct (status =? 200)%N|destruct (_ && _)]; apply ends_ret.
  - unfold on_Exception. intros e h -> [= <-]. apply ends_ret.
  - unfold on_Exception. by intros e ->.
Qed.

Lemma extract_from_oembed_ends w u :
  ends (fun _ => False) (extract_from_oembed w u).
Proof.
  unfold extract_from_oembed.
  destruct (track_id_of_url u) as [tid|]; [|apply ends_ret].
  destruct (negb (truthy tid)); [apply ends_ret|].
  apply ends_seq; [apply ends_emit|]. intros _.
  destruct (oembed_get w _) as [status title|]; [|apply ends_ret].
  destruct (_ && _); [|apply ends_ret].
  destruct (parse_oembed_title _). apply ends_ret.
Qed.

(** ** What computations change *)

Lemma same_outside_refl d s : same_outside d s s.
Proof. by intros p _. Qed.

Lemma same_outside_trans d s1 s2 s3 :
  same_outside d s1 s2 -> same_outside d s2 s3 -> same_outside d s1 s3.
Proof. intros H1 H2 p Hp. by rewrite (H2 p Hp), (H1 p Hp). Qed.

Lemma alters_ret {A} d (a : A) : alters_only d (ret a).
Proof. intros s r s' [= <- <-]. apply same_outside_refl. Qed.

Lemma alters_raise {A} d (e : exn) : alters_only d (@raise A e).
Proof. intros s r s' [= <- <-]. apply same_outside_refl. Qed.

Lemma alters_get_state d : alters_only d get_state.
Proof. intros s r s' [= <- <-]. apply same_outside_refl. Qed.

Lemma alters_emit d ev : alters_only d (emit ev).
Proof. by intros s r s' [= <- <-] p _. Qed.

Lemma alters_set_temp_dir d x : alters_only d (set_temp_dir x).
Proof. by intros s r s' [= <- <-] p _. Qed.

Lemma alters_set_dir d x : alters_only d (set_dir d x).
Proof.
  intros s r s' [= <- <-] p Hp. simpl. by rewrite lookup_partial_alter_ne.
Qed.

Lemma alters_iterdir d d' : alters_only d (iterdir d').
Proof.
  intros s r s'. unfold iterdir. destruct (fs s !! d'); intros [= <- <-].
  all: apply same_outside_refl.
Qed.

Lemma alters_quoted d q : alters_only d (quoted q).
Proof.
  unfold quoted. destruct (quote q); [apply alters_ret|apply alters_raise].
Qed.

Lemma alters_seq {A B} d (m : M A) (k : A -> M B) :
  alters_only d m -> (forall a, alters_only d (k a)) ->
  alters_only d (bind m k).
Proof.
  intros Hm Hk s r s'. unfold bind.
  destruct (m s) as [[a|e|] s1] eqn:E; pose proof (Hm _ _ _ E) as H1.
  - intros E2. eapply same_outside_trans; [exact H1|]. by eapply Hk.
  - by intros [= <- <-].
  - by intros [= <- <-].
Qed.

Lemma alters_try_except {A} d (body : M A) (handler : exn -> option (M A)) :
  alters_only d body ->
  (forall e h, handler e = Some h -> alters_only d h) ->
  alters_only d (try_except body handler).
Proof.
  intros Hb Hh s r s'. unfold try_except.
  destruct (body s) as [[a|e|] s1] eqn:E; pose proof (Hb _ _ _ E) as H1.
  - by intros [= <- <-].
  - destruct (handler e) as [h|] eqn:Eh.
    + intros E2. eapply same_outside_trans; [exact H1|]. by eapply Hh.
    + by intros [= <- <-].
  - by intros [= <- <-].
Qed.

Lemma alters_on_Exception {A} d (h : exn -> M A) e m :
  (forall e, alters_only d (h e)) -> on_Exception h e = Some m ->
  alters_only d m.
Proof.
  unfold on_Exception. destruct (is_Exception e); [|done].
  by intros Hh [= <-].
Qed.

Lemma alters_wait_for {A} d (job : M A) :
  alters_only d job -> alters_only d (wait_for job).
Proof.
  intros Hj s r s'. unfold wait_for.
  destruct (job s) as [[a|e|] s1] eqn:E; pose proof (Hj _ _ _ E) as H1.
  all: by intros [= <- <-].
Qed.

Lemma alters_ydl_call w opts url d : alters_only d (ydl_call w opts url d).
Proof.
  intros s r s'. unfold ydl_call.
  destruct (ydl_download w opts url (fs s !! d)) as [after [| e |]].
  all: intros [= <- <-] p Hp; simpl; by rewrite lookup_partial_alter_ne.
Qed.

Create HintDb frame discriminated.
#[local] Hint Resolve alters_ret alters_raise alters_get_state alters_emit
  alters_set_temp_dir alters_set_dir alters_iterdir alters_quoted
  alters_ydl_call : frame.

(** One step of a frame proof, as [footprint_step] for footprints. *)
Ltac frame_step :=
  match goal with
  | |- alters_only _ (bind _ _) => apply alters_seq; [|intros ?]
  | |- alters_only _ (try_except _ _) =>
      apply alters_try_except; [|intros ? ? ?]
  | |- alters_only _ (wait_for _) => apply alters_wait_for
  | H : on_Exception _ _ = Some _ |- alters_only _ _ =>
      eapply alters_on_Exception; [|exact H]; intros ?; cbv beta
  | |- alters_only _ (match ?x with _ => _ end) => destruct x eqn:?
  | |- alters_only _ (if ?b then _ else _) => destruct b eqn:?
  | |- alters_only _ (let '(_, _) := ?p in _) => destruct p eqn:?
  | H : Some _ = Some _ |- _ => injection H as <-
  | H : None = Some _ |- _ => discriminate H
  | |- alters_only _ _ => solve [eauto with frame]
  end.

Ltac frame := repeat frame_step.

Lemma extract_from_api_alters d w u : alters_only d (extract_from_api w u).
Proof. unfold extract_from_api. frame. Qed.

Lemma extract_from_oembed_alters d w u :
  alters_only d (extract_from_oembed w u).
Proof. unfold extract_from_oembed. frame. Qed.

Lemma resolve_track_info_alters d w r u :
  alters_only d (resolve_track_info w r u).
Proof.
  unfold resolve_track_info. frame;
    auto using extract_from_api_alters, extract_from_oembed_alters.
Qed.

Lemma format_loop_alters w o url d total i formats :
  alters_only d (format_loop w o url d total i formats).
Proof.
  revert i; induction formats as [|f rest IH]; intros i; simpl; [frame|].
  apply alters_seq.
  - apply alters_try_except; [frame|].
    intros e h Hh. eapply alters_on_Exception; [|exact Hh].
    intros e'. unfold unlink_files. frame.
  - intros [file|]; [frame|apply IH].
Qed.

Lemma download_audio_alters w q d : alters_only d (download_audio w q d).
Proof.
  unfold download_audio. apply alters_try_except.
  - apply alters_wait_for. unfold _download, music_search.
    apply alters_seq; [frame|]. intros url. apply format_loop_alters.
  - intros e h. destruct e; simpl; intros Hh; try (frame; fail).
    injection Hh as <-. destruct (is_forbidden msg); [|frame].
    unfold _fallback_download, _fallback_download_sync, music_search.
    frame.
Qed.

(** ** How many calls computations make *)

Lemma calls_weaken {A} n n' (m : M A) :
  n <= n' -> calls_at_most n m -> calls_at_most n' m.
Proof.
  intros Hn Hm s r s' E. destruct (Hm _ _ _ E) as (evs & Htr & Hl).
  exists evs. split; [done|lia].
Qed.

Lemma calls_ret {A} (a : A) : calls_at_most 0 (ret a).
Proof. intros s r s' [= <- <-]. exists []. by rewrite app_nil_r. Qed.

Lemma calls_raise {A} (e : exn) : calls_at_most 0 (@raise A e).
Proof. intros s r s' [= <- <-]. exists []. by rewrite app_nil_r. Qed.

Lemma calls_get_state : calls_at_most 0 get_state.
Proof. intros s r s' [= <- <-]. exists []. by rewrite app_nil_r. Qed.

Lemma calls_set_dir d x : calls_at_most 0 (set_dir d x).
Proof. intros s r s' [= <- <-]. exists []. simpl. by rewrite app_nil_r. Qed.

Lemma calls_set_temp_dir x : calls_at_most 0 (set_temp_dir x).
Proof. intros s r s' [= <- <-]. exists []. simpl. by rewrite app_nil_r. Qed.

Lemma calls_iterdir d : calls_at_most 0 (iterdir d).
Proof.
  intros s r s'. unfold iterdir. destruct (fs s !! d); intros [= <- <-].
  all: exists []; by rewrite app_nil_r.
Qed.

Lemma calls_quoted q : calls_at_most 0 (quoted q).
Proof.
  unfold quoted. destruct (quote q); [apply calls_ret|apply calls_raise].
Qed.

Lemma calls_emit ev : calls_at_most 1 (emit ev).
Proof. intros s r s' [= <- <-]. by exists [ev]. Qed.

Lemma calls_ydl_call w opts url d : calls_at_most 1 (ydl_call w opts url d).
Proof.
  intros s r s'. unfold ydl_call.
  destruct (ydl_download w opts url (fs s !! d)) as [after [| e |]].
  all: intros [= <- <-]; by eexists [_].
Qed.

Lemma calls_seq {A B} n1 n2 (m : M A) (k : A -> M B) :
  calls_at_most n1 m -> (forall a, calls_at_most n2 (k a)) ->
  calls_at_most (n1 + n2) (bind m k).
Proof.
  intros Hm Hk s r s'. unfold bind.
  destruct (m s) as [[a|e|] s1] eqn:E;
    destruct (Hm _ _ _ E) as (evs & Htr & Hl).
  - intros E2. destruct (Hk a _ _ _ E2) as (evs2 & Htr2 & Hl2).
    exists (evs ++ evs2). rewrite Htr2, Htr, app_assoc, length_app.
    split; [done|lia].
  - intros [= <- <-]. exists evs. split; [done|lia].
  - intros [= <- <-]. exists evs. split; [done|lia].
Qed.

Lemma calls_try_except {A} n1 n2 (body : M A)
    (handler : exn -> option (M A)) :
  calls_at_most n1 body ->
  (forall e h, handler e = Some h -> calls_at_most n2 h) ->
  calls_at_most (n1 + n2) (try_except body handler).
Proof.
  intros Hb Hh s r s'. unfold try_except.
  destruct (body s) as [[a|e|] s1] eqn:E;
    destruct (Hb _ _ _ E) as (evs & Htr & Hl).
  - intros [= <- <-]. exists evs. split; [done|lia].
  - destruct (handler e) as [h|] eqn:Eh.
    + intros E2. destruct (Hh e h Eh _ _ _ E2) as (evs2 & Htr2 & Hl2).
      exists (evs ++ evs2). rewrite Htr2, Htr, app_assoc, length_app.
      split; [done|lia].
    + intros [= <- <-]. exists evs. split; [done|lia].
  - intros [= <- <-]. exists evs. split; [done|lia].
Qed.

Lemma calls_on_Exception {A} n (h : exn -> M A) e m :
  (forall e, calls_at_most n (h e)) -> on_Exception h e = Some m ->
  calls_at_most n m.
Proof.
  unfold on_Exception. destruct (is_Exception e); [|done].
  by intros Hh [= <-].
Qed.

Lemma calls_wait_for {A} n (job : M A) :
  calls_at_most n job -> calls_at_most n (wait_for job).
Proof.
  intros Hj s r s'. unfold wait_for.
  destruct (job s) as [[a|e|] s1] eqn:E;
    destruct (Hj _ _ _ E) as (evs & Htr & Hl).
  all: intros [= <- <-]; by exists evs.
Qed.

(** An attempt makes one call, so the loop makes one for each preference
    that is left. *)
Lemma format_loop_calls w o url d total i formats :
  calls_at_most (length formats) (format_loop w o url d total i formats).
Proof.
  revert i; induction formats as [|f rest IH]; intros i; cbn [format_loop].
  { apply calls_raise. }
  change (length (f :: rest)) with (1 + length rest).
  apply calls_seq; [|intros [file|]; [|apply IH]].
  - apply (calls_try_except 1 0).
    + apply (calls_seq 1 0); [apply calls_ydl_call|]. intros _.
      apply (calls_seq 0 0); [apply calls_iterdir|]. intros entries.
      apply calls_ret.
    + intros e h Hh. eapply calls_on_Exception; [|exact Hh]. intros e'.
      unfold unlink_files.
      apply (calls_seq 0 0);
        [apply (calls_seq 0 0); [apply calls_iterdir|intros; apply calls_set_dir]|].
      intros _. destruct (i <? total - 1)%nat; [apply calls_ret|apply calls_raise].
  - eapply calls_weaken; [|apply calls_ret]. lia.
Qed.

Lemma music_search_calls q : calls_at_most 0 (music_search q).
Proof.
  unfold music_search. apply (calls_seq 0 0); [apply calls_quoted|].
  intros; apply calls_ret.
Qed.

Lemma download_audio_calls_at_most w q d :
  calls_at_most 4 (download_audio w q d).
Proof.
  unfold download_audio. apply (calls_try_except 3 1).
  - apply calls_wait_for. unfold _download.
    apply (calls_seq 0 3); [apply music_search_calls|]. intros url.
    apply format_loop_calls.
  - intros e h. 
    assert (forall x, calls_at_most 1 (@ret DownloadResult.t x)) as Hret
      by (intros x; eapply calls_weaken; [|apply calls_ret]; lia).
    destruct e; simpl; intros Hh.
    1,5,6: eapply calls_on_Exception; [|exact Hh]; intros; apply Hret.
    1,3: injection Hh as <-; apply Hret.
    injection Hh as <-. destruct (is_forbidden msg); [|apply Hret].
    apply (calls_try_except 1 0).
    + unfold _fallback_download. apply (calls_try_except 1 0).
      * apply calls_wait_for. unfold _fallback_download_sync.
        apply (calls_seq 0 1); [apply music_search_calls|]. intros url.
        apply (calls_seq 1 0); [apply calls_ydl_call|]. intros _.
        apply (calls_seq 0 0); [apply calls_iterdir|]. intros entries.
        destruct (first_audio_file _ _ _); [apply calls_ret|apply calls_raise].
      * intros e h Hh. eapply calls_on_Exception; [|exact Hh].
        intros; apply calls_raise.
    + intros e h Hh. eapply calls_on_Exception; [|exact Hh].
      intros; apply calls_ret.
Qed.

(** ** The download engine, outcome by outcome *)

Lemma wait_for_ok {A} (job : M A) s a s' :
  wait_for job s = (Ok a, s') -> job s = (Ok a, s').
Proof.
  unfold wait_for. destruct (job s) as [[?|?|] ?]; intros H; by simplify_eq.
Qed.

(** The scan returns the first regular file whose lowered suffix is
    listed. *)
Lemma first_audio_file_found exts d entries dr :
  first_audio_file exts d entries = Some dr ->
  exists before name content rest,
    entries = before ++ (name, File content) :: rest /\
    Forall (fun e : str * node =>
              is_file e.2 && in_list (lower (suffix e.1)) exts = false) before /\
    in_list (lower (suffix name)) exts = true /\
    dr = found_file d name content.
Proof.
  induction entries as [|[n [c|]] entries IH]; simpl; [done| |].
  - destruct (in_list (lower (suffix n)) exts) eqn:E.
    + intros [= <-]. by exists [], n, c, entries.
    + intros H. destruct (IH H) as (b & name & content & rest & -> & Hb & ? & ?).
      exists ((n, File c) :: b), name, content, rest.
      split; [done|]. split; [|done]. constructor; [|done]. simpl. by rewrite E.
  - intros H. destruct (IH H) as (b & name & content & rest & -> & Hb & ? & ?).
    exists ((n, Subdir) :: b), name, content, rest.
    split; [done|]. split; [|done]. by constructor.
Qed.

Lemma format_loop_found w o url d total formats :
  forall i s dr s',
    format_loop w o url d total i formats s = (Ok dr, s') ->
    exists entries,
      fs s' !! d = Some entries /\
      first_audio_file audio_extensions d entries = Some dr.
Proof.
  induction formats as [|f rest IH]; intros i s dr s'; [done|].
  cbn [format_loop]. unfold bind at 1.
  pose proof (attempt_step w o f url d total i s) as Hstep.
  cbv zeta in Hstep. rewrite Hstep. clear Hstep.
  destruct (ydl_download w (with_format o f) url (fs s !! d)) as [after out].
  destruct out as [|e|].
  - destruct after as [entries|]; [|done].
    destruct (first_audio_file audio_extensions d entries) as [file|] eqn:Ef.
    + intros [= <- <-]. exists entries. split; [|done].
      simpl. by rewrite lookup_partial_alter_eq.
    + apply IH.
  - destruct (is_Exception e); [|by destruct after].
    destruct after as [entries|]; [|done].
    destruct (i <? total - 1)%nat; [apply IH|done].
  - by destruct after.
Qed.

Lemma primary_pass_found w q d s dr s' :
  primary_pass w q d s = (Ok dr, s') ->
  exists entries,
    fs s' !! d = Some entries /\
    first_audio_file audio_extensions d entries = Some dr.
Proof.
  intros H. apply wait_for_ok in H. revert H.
  unfold _download, music_search, quoted.
  destruct (quote q) as [qq|msg]; [|by cbv [bind raise]].
  cbv beta iota delta [bind ret]. apply format_loop_found.
Qed.

(** The fallback pass as [download_audio] runs it: a file it found, or the
    failure prepared for it. *)
Lemma fallback_outcome w q d s error_msg r s2 :
  try_except (_fallback_download w q d)
             (on_Exception (fun _ => ret (failure error_msg))) s = (r, s2) ->
  match r with
  | Ok dr =>
      dr = failure error_msg \/
      exists entries,
        fs s2 !! d = Some entries /\
        first_audio_file fallback_extensions d entries = Some dr
  | Raise e => is_Exception e = false
  | Pending => False
  end.
Proof.
  unfold _fallback_download, _fallback_download_sync, music_search, quoted.
  destruct (quote q) as [qq|msg].
  2: { cbv [try_except wait_for bind raise on_Exception is_Exception ret].
       intros [= <- <-]. by left. }
  cbv beta iota delta [try_except wait_for bind ret].
  rewrite ydl_call_run.
  destruct (ydl_download w (fallback_opts d)
              (lit "https://music.youtube.com/search?q=" ++ qq) (fs s !! d))
    as [after out].
  cbn [fst snd].
  set (sA := {| fs := partial_alter (fun _ => after) d (fs s);
                trace := trace s ++
                  [EvYdl (fallback_opts d)
                     (lit "https://music.youtube.com/search?q=" ++ qq)
                     (fs s !! d)];
                temp_dir := temp_dir s |}).
  assert (fs sA !! d = after) as Hl
    by (simpl; by rewrite lookup_partial_alter_eq).
  destruct out as [|e|].
  - unfold iterdir. rewrite Hl. destruct after as [entries|].
    + destruct (first_audio_file fallback_extensions d entries)
        as [file|] eqn:Ef.
      * intros [= <- <-]. right. by exists entries.
      * intros [= <- <-]. by left.
    + intros [= <- <-]. by left.
  - destruct (is_Exception e) eqn:He.
    + unfold on_Exception. rewrite He. cbv [raise]. rewrite He.
      intros [= <- <-]. by left.
    + unfold on_Exception. rewrite He. rewrite He. by intros [= <- <-].
  - intros [= <- <-]. by left.
Qed.

Lemma fallback_extensions_audio (x : str) :
  in_list x fallback_extensions = true -> in_list x audio_extensions = true.
Proof.
  unfold in_list. rewrite !bool_decide_eq_true.
  unfold fallback_extensions, audio_extensions.
  rewrite !elem_of_cons, !elem_of_nil. clear. tauto.
Qed.

(** Every extension the scans accept has a MIME type of its own. *)
Lemma audio_extension_mime (x : str) :
  in_list x audio_extensions = true ->
  exists mime, assoc x content_type_map = Some mime /\
               (x, mime) ∈ content_type_map.
Proof.
  unfold in_list. rewrite bool_decide_eq_true. unfold audio_extensions.
  intros H.
  repeat (apply elem_of_cons in H as [->|H];
          [eexists; split; [by vm_compute|];
           unfold content_type_map; rewrite !elem_of_cons; clear; tauto|]).
  by apply elem_of_nil in H.
Qed.

(** Every way [download_audio] ends. *)
Lemma download_audio_post w q d s r s' :
  download_audio w q d s = (r, s') ->
  match r with
  | Ok dr =>
      (exists msg, dr = failure msg /\ reported msg) \/
      (exists entries name content,
          fs s' !! d = Some entries /\ (name, File content) ∈ entries /\
          in_list (lower (suffix name)) audio_extensions = true /\
          dr = found_file d name content)
  | Raise e => is_Exception e = false
  | Pending => False
  end.
Proof.
  unfold download_audio. cbv zeta. fold (primary_pass w q d).
  unfold try_except at 1.
  destruct (primary_pass w q d s) as [r1 s1] eqn:E1.
  assert (forall exts entries dr,
    (forall x, in_list x exts = true -> in_list x audio_extensions = true) ->
    fs s' !! d = Some entries ->
    first_audio_file exts d entries = Some dr ->
    exists entries name content,
      fs s' !! d = Some entries /\ (name, File content) ∈ entries /\
      in_list (lower (suffix name)) audio_extensions = true /\
      dr = found_file d name content) as Hfound.
  { intros exts entries dr Hsub Hfs Hf.
    apply first_audio_file_found in Hf
      as (b & name & content & rest & -> & _ & Hext & ->).
    exists (b ++ (name, File content) :: rest), name, content.
    repeat split; [done| |by apply Hsub].
    apply elem_of_app. right. by left. }
  destruct r1 as [dr|e|].
  - intros [= <- <-]. right.
    apply primary_pass_found in E1 as (entries & Hfs & Hf).
    by apply (Hfound audio_extensions entries).
  - destruct e as [c dt|m|m|m|m|m].
    + cbv [on_Exception is_Exception ret]. intros [= <- <-]. left.
      eexists. split; [done|]. do 3 right. by eexists.
    + cbv [ret]. intros [= <- <-]. left. eexists. split; [done|]. by left.
    + destruct (is_forbidden m).
      * intros E2. apply fallback_outcome in E2.
        destruct r as [dr|e|]; [|done|done].
        destruct E2 as [->|(entries & Hfs & Hf)].
        -- left. eexists. split; [done|]. right. left. by eexists.
        -- right. apply (Hfound fallback_extensions entries); [|done|done].
           apply fallback_extensions_audio.
      * cbv [ret]. intros [= <- <-]. left. eexists. split; [done|].
        right. left. by eexists.
    + cbv [ret]. intros [= <- <-]. left. eexists. split; [done|].
      right. right. left. by eexists.
    + cbv [on_Exception is_Exception ret]. intros [= <- <-]. left.
      eexists. split; [done|]. do 3 right. by eexists.
    + cbv [on_Exception is_Exception]. by intros [= <- <-].
  - exfalso. revert E1. unfold primary_pass, wait_for.
    by destruct (_download _ _ _ _ s) as [[?|?|] ?].
Qed.

Lemma download_audio_ends w q d :
  ends (fun e => is_Exception e = false) (download_audio w q d).
Proof.
  intros s r s' E. apply download_audio_post in E. by destruct r.
Qed.

Lemma music_search_ok q qq :
  quote q = inl qq ->
  music_search q = ret (lit "https://music.youtube.com/search?q=" ++ qq).
Proof. intros Hq. unfold music_search, quoted. by rewrite Hq. Qed.

Lemma bind_ret_l {A B} (a : A) (k : A -> M B) : bind (ret a) k = k a.
Proof. reflexivity. Qed.

(** The calls of [_download] and of the fallback pass ask for the same
    search, under the same template. *)
Lemma download_audio_music_calls w q d qq :
  quote q = inl qq -> emits (music_call d qq) (download_audio w q d).
Proof.
  intros Hq. unfold download_audio. apply emits_try_except.
  - apply emits_wait_for. unfold _download.
    rewrite (music_search_ok _ _ Hq), bind_ret_l.
    apply format_loop_emits. intros f before _. by eexists _, _.
  - intros e h. destruct e; simpl; intros Hh; try (footprint; fail).
    injection Hh as <-. destruct (is_forbidden msg); [|footprint].
    apply emits_try_except; [|intros e h Hh; footprint].
    unfold _fallback_download, _fallback_download_sync.
    rewrite (music_search_ok _ _ Hq), bind_ret_l.
    apply emits_try_except; [|intros e h Hh; footprint].
    apply emits_wait_for. apply emits_seq; [|intros ?; footprint].
    apply emits_ydl_call. intros before. by eexists _, _.
Qed.

(** A query that cannot be quoted is reported without any call. *)
Lemma download_audio_unquotable w q d s msg :
  quote q = inr msg ->
  download_audio w q d s
  = (Ok (failure (lit "Unexpected download error: " ++ msg)), s).
Proof.
  intros Hq. unfold download_audio. cbv zeta. fold (primary_pass w q d).
  unfold try_except. by rewrite (primary_pass_quote_fails _ _ _ _ _ Hq).
Qed.

(** X1: [download_audio] always answers.  It never ends waiting for
    yt-dlp, an exception it lets through is no [Exception] (it is a
    [BaseException] such as [KeyboardInterrupt]), and a result that is no
    success is [DownloadResult(success=False, error=msg)] where [msg] is
    the timeout message or the text of the exception behind one of three
    prefixes. *)
Theorem X1_download_audio_always_reports w q d s r s' :
  download_audio w q d s = (r, s') ->
  r <> Pending /\
  (forall e, r = Raise e -> is_Exception e = false) /\
  (forall dr, r = Ok dr -> DownloadResult.success dr = false ->
              exists msg, dr = failure msg /\ reported msg).
Proof.
  intros E. apply download_audio_post in E.
  split; [by intros ->|]. split; [by intros e ->|].
  intros dr -> Hs. destruct E as [E|(entries & name & content & _ & _ & _ & ->)];
    [done|done].
Qed.

(** X2: a success of [download_audio] describes a regular file that is in
    the output directory when the function returns: its name, its size,
    an extension among the six audio extensions (compared in lower case)
    and the MIME type the table has for that extension, never the
    "audio/octet-stream" default. *)
Theorem X2_download_audio_success_file w q d s dr s' :
  download_audio w q d s = (Ok dr, s') ->
  DownloadResult.success dr = true ->
  exists entries name content mime,
    fs s' !! d = Some entries /\ (name, File content) ∈ entries /\
    lower (suffix name) ∈ audio_extensions /\
    (lower (suffix name), mime) ∈ content_type_map /\
    DownloadResult.file_path dr = Some (d, name) /\
    DownloadResult.file_name dr = Some name /\
    DownloadResult.file_size dr = Some (N.of_nat (length content)) /\
    DownloadResult.content_type dr = Some mime.
Proof.
  intros E Hs. apply download_audio_post in E.
  destruct E as [(msg & -> & _)|(entries & name & content & Hfs & Hin & Hext & ->)];
    [done|].
  destruct (audio_extension_mime _ Hext) as (mime & Hm & Hin').
  exists entries, name, content, mime.
  repeat split; try done.
  - by apply bool_decide_eq_true in Hext.
  - simpl. unfold _get_content_type. by rewrite Hm.
Qed.

(** X3: a run of [download_audio] calls yt-dlp at most four times (three
    format attempts and one fallback pass); every call searches YouTube
    Music for the quoted query, takes the first result only, and writes
    under the title template of the output directory.  A query that
    [urllib.parse.quote] rejects leads to no call at all. *)
Theorem X3_download_audio_calls w q d s r s' evs :
  download_audio w q d s = (r, s') ->
  trace s' = trace s ++ evs ->
  length evs <= 4 /\
  Forall (fun ev => exists qq, quote q = inl qq /\ music_call d qq ev) evs.
Proof.
  intros E Htr. split.
  - destruct (download_audio_calls_at_most _ _ _ _ _ _ E) as (evs' & Htr' & Hl).
    rewrite Htr' in Htr. by apply app_inv_head in Htr as <-.
  - destruct (quote q) as [qq|msg] eqn:Hq.
    + destruct (download_audio_music_calls _ _ _ _ Hq _ _ _ E)
        as (_ & evs' & Htr' & Hev).
      rewrite Htr' in Htr. apply app_inv_head in Htr as <-.
      eapply Forall_impl; [exact Hev|]. intros ev Hc. by exists qq.
    + rewrite (download_audio_unquotable _ _ _ _ _ Hq) in E.
      injection E as _ <-. rewrite <- (app_nil_r (trace s)) in Htr at 1.
      by apply app_inv_head in Htr as <-.
Qed.

(** X4: of the file system, [download_audio] changes the output directory
    only. *)
Theorem X4_download_audio_frame w q d s r s' p :
  download_audio w q d s = (r, s') -> p <> d -> fs s' !! p = fs s !! p.
Proof. intros E. by apply (download_audio_alters _ _ _ _ _ _ E). Qed.

(** ** The endpoint, part by part *)

Lemma extract_from_api_calls w u : calls_at_most 1 (extract_from_api w u).
Proof.
  unfold extract_from_api. apply (calls_try_except 1 0).
  - apply (calls_seq 0 1); [apply calls_quoted|]. intros q.
    apply (calls_seq 1 0); [apply calls_emit|]. intros _.
    destruct (api_get w _) as [status data|]; [|apply calls_ret].
    destruct (aiohttp_installed w);
      [destruct (status =? 200)%N|destruct (_ && _)]; apply calls_ret.
  - intros e h Hh. eapply calls_on_Exception; [|exact Hh].
    intros; apply calls_ret.
Qed.

Lemma extract_from_oembed_calls w u :
  calls_at_most 1 (extract_from_oembed w u).
Proof.
  assert (forall x, calls_at_most 1 (@ret (option TrackInfo.t) x)) as Hret
    by (intros x; eapply calls_weaken; [|apply calls_ret]; lia).
  unfold extract_from_oembed.
  destruct (track_id_of_url u) as [tid|]; [|apply Hret].
  destruct (negb (truthy tid)); [apply Hret|].
  apply (calls_seq 1 0); [apply calls_emit|]. intros _.
  destruct (oembed_get w _) as [status title|]; [|apply calls_ret].
  destruct (_ && _); [|apply calls_ret].
  destruct (parse_oembed_title _). apply calls_ret.
Qed.

Lemma resolve_track_info_calls w r u :
  calls_at_most 2 (resolve_track_info w r u).
Proof.
  unfold resolve_track_info.
  destruct (has_metadata r).
  { eapply calls_weaken; [|apply calls_ret]. lia. }
  apply (calls_seq 1 1).
  - apply (calls_try_except 1 0); [apply extract_from_api_calls|].
    intros e h Hh. eapply calls_on_Exception; [|exact Hh].
    intros; apply calls_ret.
  - intros ti. apply (calls_seq 1 0).
    + destruct ti; [|apply extract_from_oembed_calls].
      eapply calls_weaken; [|apply calls_ret]. lia.
    + intros [t|]; [apply calls_ret|apply calls_raise].
Qed.

Lemma frontend_deliver_calls w rid d ti :
  calls_at_most 4 (frontend_deliver w rid d ti).
Proof.
  unfold frontend_deliver.
  apply (calls_seq 4 0); [apply download_audio_calls_at_most|].
  intros dr. destruct (negb _); [apply calls_raise|].
  destruct (DownloadResult.file_path dr) as [[dir name]|]; [|apply calls_raise].
  apply (calls_seq 0 0); [apply calls_get_state|]. intros s0.
  destruct (fs s0 !! dir ≫= dir_lookup name) as [[c|]|];
    [|apply calls_raise..].
  destruct (DownloadResult.file_name dr); [|apply calls_raise].
  apply (calls_seq 0 0); [apply calls_quoted|]. intros qf. cbv zeta.
  destruct (init_headers _); [apply calls_raise|apply calls_ret].
Qed.

Lemma frontend_deliver_alters w rid d ti :
  alters_only d (frontend_deliver w rid d ti).
Proof.
  unfold frontend_deliver. apply alters_seq; [apply download_audio_alters|].
  intros dr. frame.
Qed.

(** Every way the second half of the [try] block ends: with the response
    for a file that is in the directory, or with an exception; the status
    404 of line 588 is not among them. *)
Lemma frontend_deliver_post w rid d ti s r s' :
  frontend_deliver w rid d ti s = (r, s') ->
  match r with
  | Ok resp =>
      exists name content qf mime,
        fs s' !! d ≫= dir_lookup name = Some (File content) /\
        quote name = inl qf /\
        (lower (suffix name), mime) ∈ content_type_map /\
        resp = {| media_type := Some mime;
                  headers := response_headers w rid ti name qf content;
                  body_chunks :=
                    chunks_of (length content) (N.to_nat 8192) content |}
  | Raise e => client_or_server_error e
  | Pending => False
  end.
Proof.
  unfold frontend_deliver. unfold bind at 1.
  destruct (download_audio w (TrackInfo.search_query ti) d s)
    as [[dr|e|] s1] eqn:E; apply download_audio_post in E.
  2: { intros [= <- <-]. by destruct e. }
  2: done.
  destruct E as [(msg & -> & _)|(entries & name & content & Hfs & Hin & Hext & ->)].
  { cbn [failure DownloadResult.success negb]. cbv [raise].
    intros [= <- <-]. by right. }
  cbn [found_file DownloadResult.success DownloadResult.file_path
       DownloadResult.file_name DownloadResult.content_type negb].
  cbv beta iota delta [bind get_state]. rewrite Hfs. cbn [mbind option_bind].
  assert (is_Some (dir_lookup name entries)) as [x Hx].
  { apply dir_lookup_listed. apply list_elem_of_fmap. by exists (name, File content). }
  rewrite Hx. destruct x as [c|]; [|by cbv [raise]; intros [= <- <-]].
  unfold quoted. destruct (quote name) as [qf|msg] eqn:Hq;
    [|by cbv [raise]; intros [= <- <-]].
  cbv beta iota zeta delta [ret]. unfold init_headers.
  destruct (omap _ _) as [|msg rest];
    [|by cbv [raise]; intros [= <- <-]].
  intros [= <- <-].
  destruct (audio_extension_mime _ Hext) as (mime & Hm & Hin').
  exists name, c, qf, mime. rewrite Hfs. cbn [mbind option_bind].
  repeat split; try done.
  unfold _get_content_type. by rewrite Hm.
Qed.

Lemma frontend_body_ends w rid r :
  ends client_or_server_error (frontend_body w rid r).
Proof.
  unfold frontend_body. apply ends_seq.
  - unfold frontend_prepare.
    destruct (_ && _); [apply ends_raise; by left|].
    apply ends_seq.
    + unfold mkdtemp. apply ends_seq; [apply ends_get_state|].
      intros s0. destruct (fs s0 !! _); [by apply ends_raise|].
      apply ends_seq; [apply ends_emit|]. intros _.
      apply ends_seq; [apply ends_set_dir|]. intros _. apply ends_ret.
    + intros d. apply ends_seq; [apply ends_set_temp_dir|]. intros _.
      apply ends_seq; [|intros; apply ends_ret].
      unfold resolve_track_info.
      destruct (has_metadata r); [apply ends_ret|].
      apply ends_seq.
      * apply (ends_try_except _ (fun _ => False)).
        -- apply extract_from_api_ends.
        -- by intros e h [].
        -- by intros e [].
      * intros [t|].
        -- apply ends_seq; [apply ends_ret|].
           intros [t'|]; [apply ends_ret|apply ends_raise; by left].
        -- apply ends_seq.
           ++ eapply ends_weaken; [|apply extract_from_oembed_ends]. by intros e [].
           ++ intros [t'|]; [apply ends_ret|apply ends_raise; by left].
  - intros [d ti]. cbn [fst snd]. intros s0 r0 s0' E.
    apply frontend_deliver_post in E. by destruct r0.
Qed.

(** [iter_file_content]: the chunks put together are the content, and none
    is empty or longer than the chunk size. *)
Lemma chunks_of_concat fuel n (b : list N) :
  0 < n -> length b <= fuel -> concat (chunks_of fuel n b) = b.
Proof.
  intros Hn. revert b; induction fuel as [|fuel IH]; intros b Hl.
  - destruct b; [done|simpl in Hl; lia].
  - destruct b as [|c b]; [done|]. cbn [chunks_of concat].
    rewrite IH; [apply take_drop|].
    rewrite length_drop. simpl in *. lia.
Qed.

Lemma chunks_of_bounds fuel n (b : list N) :
  0 < n -> Forall (fun c => 0 < length c <= n) (chunks_of fuel n b).
Proof.
  intros Hn. revert b; induction fuel as [|fuel IH]; intros b; [done|].
  destruct b as [|c b]; [done|]. cbn [chunks_of]. constructor; [|apply IH].
  rewrite length_take. simpl. lia.
Qed.

(** Every chunk that is followed by another one is full. *)
Lemma chunks_of_full fuel n (b : list N) i c :
  0 < n -> chunks_of fuel n b !! i = Some c ->
  S i < length (chunks_of fuel n b) -> length c = n.
Proof.
  intros Hn. revert b i; induction fuel as [|fuel IH]; intros b i; [done|].
  destruct b as [|x b]; [done|]. cbn [chunks_of].
  destruct i as [|i]; simpl.
  - intros [= <-] Hl. rewrite length_take.
    destruct fuel as [|fuel]; [simpl in Hl; lia|].
    destruct (drop n (x :: b)) as [|y rest] eqn:Ed; [simpl in Hl; lia|].
    apply (f_equal length) in Ed. rewrite length_drop in Ed. simpl in *. lia.
  - intros Hc Hl. apply (IH (drop n (x :: b)) i); [done|lia].
Qed.

(** What the first half and the second half of the [try] block leave
    behind: nothing, or the workspace with the network calls of the
    resolution followed by the calls of yt-dlp. *)
Lemma frontend_body_shape w r s res s1 :
  temp_dir s = None ->
  frontend_body w (lit "req_" ++ decimal (time_ms w)) r s = (res, s1) ->
  (s1 = s /\ exists e, res = Raise e) \/
  (exists net ydl,
      fs s !! workspace_of w = None /\
      temp_dir s1 = Some (workspace_of w) /\
      trace s1 = trace s ++ EvMkdtemp (workspace_of w) :: net ++ ydl /\
      Forall (fun ev => is_network ev = true) net /\ length net <= 2 /\
      Forall (fun ev => is_ydl ev = true) ydl /\ length ydl <= 4 /\
      same_outside (workspace_of w) s s1).
Proof.
  intros Ht. unfold frontend_body, frontend_prepare, workspace_of.
  destruct (negb (truthy_opt (get_spotify_url r)) && negb (has_metadata r)).
  { cbv [bind raise]. intros [= <- <-]. left. eauto. }
  set (rid := lit "req_" ++ decimal (time_ms w)).
  set (base := if negb (win32 w) then lit "/tmp" else gettempdir w).
  unfold mkdtemp.
  set (d := path_join base
              ((lit "song_dl_" ++ rid ++ lit "_") ++ mkdtemp_suffix w)).
  cbv beta delta [bind get_state]. cbv beta iota.
  destruct (fs s !! d) as [x|] eqn:Ed.
  { cbv [raise]. intros [= <- <-]. left. eauto. }
  cbv beta iota delta [emit set_dir ret set_temp_dir].
  cbn [fs trace temp_dir fst snd].
  set (s2 := {| fs := _; trace := _; temp_dir := Some d |}).
  assert (same_outside d s s2) as Hs2.
  { intros p Hp. subst s2. simpl. by rewrite lookup_partial_alter_ne. }
  destruct (resolve_track_info w r (get_spotify_url r) s2)
    as [[ti|e|] s3] eqn:E3.
  all: destruct (resolve_track_info_emits _ _ _ _ _ _ E3)
    as (Ht3 & evs3 & Htr3 & Hev3).
  all: destruct (resolve_track_info_calls _ _ _ _ _ _ E3)
    as (evs3' & Htr3' & Hl3).
  all: rewrite Htr3 in Htr3'; apply app_inv_head in Htr3' as <-.
  all: pose proof (resolve_track_info_alters d _ _ _ _ _ _ E3) as Hs3.
  2,3: intros [= <- <-]; right; exists evs3, [];
    split; [done|]; split; [by rewrite Ht3|];
    split; [rewrite Htr3; subst s2; simpl; by rewrite app_nil_r, <- app_assoc|];
    split; [done|]; split; [done|]; split; [done|];
    split; [simpl; lia|]; by eapply same_outside_trans.
  cbn [fst snd]. intros E4.
  destruct (frontend_deliver_emits _ _ _ _ _ _ _ E4)
    as (Ht4 & evs4 & Htr4 & Hev4).
  destruct (frontend_deliver_calls _ _ _ _ _ _ _ E4) as (evs4' & Htr4' & Hl4).
  rewrite Htr4 in Htr4'. apply app_inv_head in Htr4' as <-.
  pose proof (frontend_deliver_alters _ _ _ _ _ _ _ E4) as Hs4.
  right. exists evs3, evs4.
  split; [done|]. split; [by rewrite Ht4, Ht3|].
  split; [rewrite Htr4, Htr3; subst s2; simpl; by rewrite <- !app_assoc|].
  split; [done|]. split; [done|]. split; [done|]. split; [done|].
  eapply same_outside_trans; [|exact Hs4].
  by eapply same_outside_trans.
Qed.

(** The [finally] clause removes what is at or below the directory named
    by [temp_dir], and nothing else. *)
Lemma frontend_cleanup_frame w s s' p :
  frontend_cleanup w s = (Ok tt, s') ->
  (forall d, temp_dir s = Some d ->
             p <> d /\ startswith (d ++ lit "/") p = false) ->
  fs s' !! p = fs s !! p.
Proof.
  unfold frontend_cleanup. cbv beta delta [bind get_state]. cbv beta iota.
  destruct (temp_dir s) as [d|]; [|by intros [= <-]].
  intros E Hp. destruct (Hp d eq_refl) as [Hne Hsw]. revert E.
  destruct (truthy d && bool_decide _); [|by intros [= <-]].
  unfold rmtree. cbv [bind emit]. intros [= <-]. simpl.
  rewrite map_lookup_imap. destruct (fs s !! p) as [x|] eqn:Ex; [|done].
  simpl. unfold below. by rewrite bool_decide_eq_false_2, Hsw.
Qed.

(** X5: whatever the request and whatever yt-dlp and the network do, the
    endpoint answers: it returns the response or raises; what it raises is
    an [HTTPException] with status 400 or 500, or an exception that is no
    [Exception] and passes through.  The statuses 404 and 504 of lines 588
    and 638 are never raised: the file the engine reports is still in the
    workspace when the endpoint looks for it (nothing but the run touches
    the workspace), and the engine has already turned a timeout into a
    failure result. *)
Theorem X5_endpoint_statuses w r s res s' :
  download_song_frontend w r s = (res, s') ->
  res <> Pending /\
  (forall e, res = Raise e ->
     is_Exception e = false \/
     exists c detail, e = HTTPException c detail /\ (c = 400 \/ c = 500)%N).
Proof.
  intros E. apply frontend_split in E as (res1 & s1 & Eb & _ & ->).
  apply frontend_body_ends in Eb.
  destruct res1 as [a|e|]; [by split| |done].
  split; [by destruct e|].
  destruct e as [c0 dt|m|m|m|m|m]; intros e' [= <-].
  1: right; by exists c0, dt.
  1: done.
  4: by left.
  all: right; eexists _, _; split; [done|by right].
Qed.

(** X6: the calls of a run of the endpoint follow one protocol.  A run
    that is rejected, or finds the directory name taken, calls nothing.
    Every other run creates the workspace, whose name is made of the
    temporary directory, the request id and the suffix [mkdtemp] draws;
    then come at most two metadata requests, then at most four calls of
    yt-dlp, and the removal of the workspace comes last. *)
Theorem X6_endpoint_protocol w r s res s' evs :
  download_song_frontend w r s = (res, s') ->
  trace s' = trace s ++ evs ->
  evs = [] \/
  exists net ydl tl,
    evs = EvMkdtemp (workspace_of w) :: net ++ ydl ++ tl /\
    fs s !! workspace_of w = None /\
    Forall (fun ev => is_network ev = true) net /\ length net <= 2 /\
    Forall (fun ev => is_ydl ev = true) ydl /\ length ydl <= 4 /\
    (tl = [] \/ tl = [EvRmtree (workspace_of w)]).
Proof.
  intros E Htr. apply frontend_split in E as (res1 & s1 & Eb & Ec & _).
  apply frontend_body_shape in Eb; [|done].
  destruct (frontend_cleanup_run w s1) as (s2 & Ec' & Hnone & Hsome).
  rewrite Ec in Ec'. injection Ec' as <-.
  destruct Eb as [[-> _]|(net & ydl & Hfs & Ht & Htr1 & Hnet & Hln & Hydl & Hly & _)].
  - left. rewrite (Hnone eq_refl) in Htr. simpl in Htr.
    rewrite <- (app_nil_r (trace s)) in Htr at 1.
    by apply app_inv_head in Htr.
  - right. destruct (Hsome _ Ht (workspace_nonempty _ _ _)) as [_ Htl].
    simpl in Htr1.
    exists net, ydl.
    destruct Htl as [Htl|Htl]; [exists []|exists [EvRmtree (workspace_of w)]].
    all: rewrite Htl, Htr1 in Htr.
    all: split; [|by auto 10].
    + apply app_inv_head in Htr. by rewrite <- Htr, app_nil_r.
    + rewrite <- app_assoc in Htr.
      apply app_inv_head in Htr. rewrite <- Htr. simpl. by rewrite <- app_assoc.
Qed.

(** X7: of the file system, a run of the endpoint changes only what is at
    or below its workspace: every other path holds after the run what it
    held before. *)
Theorem X7_endpoint_frame w r s res s' p :
  download_song_frontend w r s = (res, s') ->
  p <> workspace_of w ->
  startswith (workspace_of w ++ lit "/") p = false ->
  fs s' !! p = fs s !! p.
Proof.
  intros E Hp Hsw. apply frontend_split in E as (res1 & s1 & Eb & Ec & _).
  apply frontend_body_shape in Eb; [|done].
  destruct Eb as [[-> _]|(net & ydl & _ & Ht & _ & _ & _ & _ & _ & Hsame)].
  - by apply (frontend_cleanup_frame _ _ _ p) in Ec.
  - rewrite (frontend_cleanup_frame _ _ _ p Ec).
    + by apply Hsame.
    + intros d Hd. rewrite Ht in Hd. by injection Hd as <-.
Qed.

Lemma frontend_prepare_ok w r s d ti s2 :
  frontend_prepare w (lit "req_" ++ decimal (time_ms w)) r s = (Ok (d, ti), s2) ->
  d = workspace_of w.
Proof.
  unfold frontend_prepare, workspace_of.
  destruct (negb (truthy_opt (get_spotify_url r)) && negb (has_metadata r));
    [by cbv [bind raise]; intros [=]|].
  unfold mkdtemp. cbv beta delta [bind get_state]. cbv beta iota.
  destruct (fs s !! _); [by cbv [raise]; intros [=]|].
  cbv beta iota delta [emit set_dir ret set_temp_dir].
  destruct (resolve_track_info w r (get_spotify_url r) _) as [[ti'|e|] s3];
    by intros [= <- _ _].
Qed.

(** X8: the response of a run that ends well carries the file as
    [read_bytes] found it in the workspace before the clean-up.  The
    chunks of the body put together are that content; no chunk is empty,
    none is longer than 8192 bytes, and every chunk but the last has
    exactly 8192; the header Content-Length is the length of the content
    and the media type is the one the table has for the lowered suffix of
    the file name. *)
Theorem X8_endpoint_response w r s resp s' :
  download_song_frontend w r s = (Ok resp, s') ->
  exists s1 name content mime,
    frontend_cleanup w s1 = (Ok tt, s') /\
    fs s1 !! workspace_of w ≫= dir_lookup name = Some (File content) /\
    concat (body_chunks resp) = content /\
    Forall (fun c => 0 < length c <= N.to_nat 8192) (body_chunks resp) /\
    (forall i c, body_chunks resp !! i = Some c ->
                 S i < length (body_chunks resp) ->
                 length c = N.to_nat 8192) /\
    assoc (lit "Content-Length") (headers resp)
    = Some (decimal (N.of_nat (length content))) /\
    media_type resp = Some mime /\
    (lower (suffix name), mime) ∈ content_type_map.
Proof.
  intros E. apply frontend_split in E as (res1 & s1 & Eb & Ec & Hres).
  assert (res1 = Ok resp) as ->.
  { destruct res1 as [a|e|]; [done| |done]. by destruct e. }
  clear Hres. revert Eb. unfold frontend_body. unfold bind at 1.
  destruct (frontend_prepare w _ r _) as [[[d ti]|e|] s2] eqn:Ep;
    [|by intros [=] ..].
  apply frontend_prepare_ok in Ep as ->. cbn [fst snd]. intros Ed.
  apply frontend_deliver_post in Ed
    as (name & content & qf & mime & Hfile & Hq & Hmime & ->).
  assert (0 < N.to_nat 8192) as Hpos by lia.
  exists s1, name, content, mime. cbn [body_chunks headers media_type].
  split; [done|]. split; [done|].
  split; [by apply chunks_of_concat|].
  split; [by apply chunks_of_bounds|].
  split; [intros i c; by apply chunks_of_full|].
  split; [|done].
  unfold response_headers. by vm_compute.
Qed.

Lemma download_audio_emits_music w q d :
  emits (fun ev => exists qq, quote q = inl qq /\ music_call d qq ev)
        (download_audio w q d).
Proof.
  intros s0 r0 s0' E0. destruct (quote q) as [qq|msg] eqn:Hq.
  - destruct (download_audio_music_calls _ _ _ _ Hq _ _ _ E0)
      as (Ht & evs & Htr & Hev).
    split; [done|]. exists evs. split; [done|].
    eapply Forall_impl; [exact Hev|]. intros ev Hc. by exists qq.
  - rewrite (download_audio_unquotable _ _ _ _ _ Hq) in E0.
    injection E0 as _ <-. split; [done|]. exists []. by rewrite app_nil_r.
Qed.

Lemma frontend_deliver_emits_with (P : event -> Prop) w rid d ti :
  emits P (download_audio w (TrackInfo.search_query ti) d) ->
  emits P (frontend_deliver w rid d ti).
Proof.
  intros H. unfold frontend_deliver. apply emits_seq; [exact H|].
  intros res. footprint.
Qed.

Lemma frontend_cleanup_trace w s s' :
  frontend_cleanup w s = (Ok tt, s') ->
  exists tl, trace s' = trace s ++ tl /\
             Forall (fun ev => is_ydl ev = false) tl.
Proof.
  unfold frontend_cleanup. cbv beta delta [bind get_state]. cbv beta iota.
  assert (s = s' -> exists tl, trace s' = trace s ++ tl /\
                               Forall (fun ev => is_ydl ev = false) tl) as Hsame.
  { intros <-. exists []. by rewrite app_nil_r. }
  destruct (temp_dir s) as [d|]; [|intros [= ?]; by apply Hsame].
  destruct (truthy d && bool_decide _); [|intros [= ?]; by apply Hsame].
  unfold rmtree. cbv [bind emit]. intros [= <-]. simpl.
  eexists. split; [done|]. by repeat constructor.
Qed.

(** X9: what a request with complete metadata makes yt-dlp search for.
    Every call of yt-dlp in such a run asks YouTube Music for the quoted
    form of [get_search_query] of the request, takes the first result
    only, and writes under the title template of the workspace. *)
Theorem X9_endpoint_searches_query w r s res s' evs :
  has_metadata r = true ->
  download_song_frontend w r s = (res, s') ->
  trace s' = trace s ++ evs ->
  Forall (fun ev =>
            is_ydl ev = true ->
            exists qq, quote (get_search_query r) = inl qq /\
                       music_call (workspace_of w) qq ev) evs.
Proof.
  intros Hm E Htr. apply frontend_split in E as (res1 & s1 & Eb & Ec & _).
  apply frontend_cleanup_trace in Ec as (tl & Htl & Hnot).
  assert (exists evs1,
    trace s1 = trace s ++ evs1 /\
    Forall (fun ev =>
              is_ydl ev = true ->
              exists qq, quote (get_search_query r) = inl qq /\
                         music_call (workspace_of w) qq ev) evs1)
    as (evs1 & Htr1 & Hev1).
  { revert Eb. unfold frontend_body, frontend_prepare, workspace_of.
    destruct (negb (truthy_opt (get_spotify_url r)) && negb (has_metadata r)).
    { cbv [bind raise]. intros [= <- <-]. exists []. simpl.
      by rewrite app_nil_r. }
    set (rid := lit "req_" ++ decimal (time_ms w)).
    set (base := if negb (win32 w) then lit "/tmp" else gettempdir w).
    unfold mkdtemp.
    set (d := path_join base
                ((lit "song_dl_" ++ rid ++ lit "_") ++ mkdtemp_suffix w)).
    cbv beta delta [bind get_state]. cbv beta iota. cbn [fs].
    destruct (fs s !! d) as [x|] eqn:Ed.
    { cbv [raise]. intros [= <- <-]. exists []. simpl. by rewrite app_nil_r. }
    cbv beta iota delta [emit set_dir ret set_temp_dir].
    cbn [fs trace temp_dir fst snd].
    rewrite (resolve_with_metadata _ _ _ _ Hm). cbn [fst snd]. intros E4.
    eapply frontend_deliver_emits_with in E4 as (_ & evs4 & Htr4 & Hev4);
      [|apply download_audio_emits_music].
    exists (EvMkdtemp d :: evs4). split.
    - rewrite Htr4. simpl. by rewrite <- app_assoc.
    - constructor; [done|]. eapply Forall_impl; [exact Hev4|].
      intros ev H _. exact H. }
  rewrite Htl, Htr1, <- app_assoc in Htr. apply app_inv_head in Htr as <-.
  apply Forall_app. split; [done|].
  eapply Forall_impl; [exact Hnot|]. intros ev H1 H2. congruence.
Qed.

(** ** The metadata endpoint *)

Lemma get_track_metadata_emits w u :
  emits (fun ev => is_network ev = true) (get_track_metadata w u).
Proof.
  unfold get_track_metadata. apply emits_try_except.
  - footprint; auto using extract_from_api_emits, extract_from_oembed_emits.
  - intros e h Hh. destruct e; simpl in Hh; footprint.
Qed.

Lemma get_track_metadata_calls w u : calls_at_most 2 (get_track_metadata w u).
Proof.
  unfold get_track_metadata. apply (calls_try_except 2 0).
  - apply (calls_seq 1 1); [apply extract_from_api_calls|].
    intros ti. apply (calls_seq 1 0).
    + destruct ti; [|apply extract_from_oembed_calls].
      eapply calls_weaken; [|apply calls_ret]. lia.
    + intros [t|]; [apply calls_ret|apply calls_raise].
  - intros e h. destruct e; simpl; intros Hh.
    1: injection Hh as <-; apply calls_raise.
    all: eapply calls_on_Exception; [|exact Hh]; intros; apply calls_raise.
Qed.

Lemma get_track_metadata_alters d w u : alters_only d (get_track_metadata w u).
Proof.
  unfold get_track_metadata. apply alters_try_except.
  - frame; auto using extract_from_api_alters, extract_from_oembed_alters.
  - intros e h Hh. destruct e; simpl in Hh; frame.
Qed.

(** The block "Get track information" and the metadata endpoint resolve a
    URL in the same way. *)
Lemma resolve_by_extractors w r u s :
  has_metadata r = false ->
  resolve_track_info w r (Some u) s =
  match extract_from_api w u s with
  | (Ok (Some t), s1) => (Ok t, s1)
  | (Ok None, s1) =>
      match extract_from_oembed w u s1 with
      | (Ok (Some t), s2) => (Ok t, s2)
      | (Ok None, s2) =>
          (Raise (HTTPException 400
             (lit "Could not extract track information from Spotify URL")), s2)
      | (Raise e, s2) => (Raise e, s2)
      | (Pending, s2) => (Pending, s2)
      end
  | (Raise e, s1) => (Raise e, s1)
  | (Pending, s1) => (Pending, s1)
  end.
Proof.
  intros Hm. unfold resolve_track_info. rewrite Hm.
  change (default [] (Some u)) with u.
  unfold bind at 1. unfold try_except.
  destruct (extract_from_api w u s) as [[[t|]|e|] s1] eqn:E1.
  - done.
  - unfold bind. by destruct (extract_from_oembed w u s1) as [[[t|]|e|] s2].
  - by destruct (extract_from_api_ends _ _ _ _ _ E1).
  - by destruct (extract_from_api_ends _ _ _ _ _ E1).
Qed.

Lemma metadata_by_extractors w u s :
  get_track_metadata w u s =
  match extract_from_api w u s with
  | (Ok (Some t), s1) => (Ok (metadata_of t), s1)
  | (Ok None, s1) =>
      match extract_from_oembed w u s1 with
      | (Ok (Some t), s2) => (Ok (metadata_of t), s2)
      | (Ok None, s2) => (Raise NO_METADATA, s2)
      | (Raise e, s2) => (Raise e, s2)
      | (Pending, s2) => (Pending, s2)
      end
  | (Raise e, s1) => (Raise e, s1)
  | (Pending, s1) => (Pending, s1)
  end.
Proof.
  unfold get_track_metadata, try_except. unfold bind at 1.
  destruct (extract_from_api w u s) as [[[t|]|e|] s1] eqn:E1.
  - done.
  - unfold bind.
    destruct (extract_from_oembed w u s1) as [[[t|]|e|] s2] eqn:E2; try done.
    by destruct (extract_from_oembed_ends _ _ _ _ _ E2).
  - by destruct (extract_from_api_ends _ _ _ _ _ E1).
  - by destruct (extract_from_api_ends _ _ _ _ _ E1).
Qed.

(** X10: the metadata endpoint either returns the dict or raises the
    [HTTPException] with status 400 of line 671; its clause for status 500
    is never reached.  The dict has neither album nor duration.  A run
    makes at most two requests, both to the metadata sources, and leaves
    the file system as it was. *)
Theorem X10_metadata_endpoint w u s res s' evs :
  get_track_metadata w u s = (res, s') ->
  trace s' = trace s ++ evs ->
  match res with
  | Ok md =>
      TrackMetadata.album md = None /\ TrackMetadata.duration md = None
  | Raise e => e = NO_METADATA
  | Pending => False
  end /\
  length evs <= 2 /\ Forall (fun ev => is_network ev = true) evs /\
  fs s' = fs s.
Proof.
  intros E Htr. split; [|split; [|split]].
  - revert E. rewrite metadata_by_extractors.
    destruct (extract_from_api w u s) as [[[t|]|e|] s1] eqn:E1.
    + intros [= <- <-]. by apply extract_from_api_bare in E1.
    + destruct (extract_from_oembed w u s1) as [[[t|]|e|] s2] eqn:E2.
      * intros [= <- <-]. by apply extract_from_oembed_bare in E2.
      * by intros [= <- <-].
      * by destruct (extract_from_oembed_ends _ _ _ _ _ E2).
      * by destruct (extract_from_oembed_ends _ _ _ _ _ E2).
    + by destruct (extract_from_api_ends _ _ _ _ _ E1).
    + by destruct (extract_from_api_ends _ _ _ _ _ E1).
  - destruct (get_track_metadata_calls _ _ _ _ _ E) as (evs' & Htr' & Hl).
    rewrite Htr' in Htr. by apply app_inv_head in Htr as <-.
  - destruct (get_track_metadata_emits _ _ _ _ _ E) as (_ & evs' & Htr' & Hev).
    rewrite Htr' in Htr. by apply app_inv_head in Htr as <-.
  - apply map_eq. intros p.
    apply (get_track_metadata_alters (0%N :: p) _ _ _ _ _ E).
    intros H. apply (f_equal length) in H. simpl in H. lia.
Qed.

(** X11: for a URL, the metadata endpoint and the download endpoint's
    resolution of a request without metadata agree: they make the same
    requests, and the one returns the dict of the track information the
    other returns, or both raise their status 400. *)
Theorem X11_metadata_endpoint_agrees w r u s :
  has_metadata r = false ->
  get_track_metadata w u s =
  match resolve_track_info w r (Some u) s with
  | (Ok ti, s') => (Ok (metadata_of ti), s')
  | (Raise _, s') => (Raise NO_METADATA, s')
  | (Pending, s') => (Pending, s')
  end.
Proof.
  intros Hm. rewrite (resolve_by_extractors _ _ _ _ Hm), metadata_by_extractors.
  destruct (extract_from_api w u s) as [[[t|]|e|] s1] eqn:E1; try done.
  - destruct (extract_from_oembed w u s1) as [[[t|]|e|] s2] eqn:E2; try done.
    by destruct (extract_from_oembed_ends _ _ _ _ _ E2).
  - by destruct (extract_from_api_ends _ _ _ _ _ E1).
Qed.

(** X12: an answer of the metadata API that has an 'error' key, or whose
    'artists' list is empty (the default of 'searchQuery' indexes it
    whether or not the key is present, and the [IndexError] is swallowed),
    is discarded: [extract_from_api] makes its one request and returns
    [None]. *)
Theorem X12_api_answer_discarded w u s q status data :
  quote u = inl q ->
  api_get w (api_url q) = Response status data ->
  has_error data = true \/ api_artists data = Some [] ->
  extract_from_api w u s
  = (Ok None, {| fs := fs s; trace := trace s ++ [EvApiGet (api_url q)];
                 temp_dir := temp_dir s |}).
Proof.
  intros Hq Hget Hbad.
  assert (track_info_of_api data = None) as Hnone.
  { unfold track_info_of_api. destruct Hbad as [->| ->]; [done|].
    by destruct (has_error data). }
  unfold extract_from_api, try_except, quoted, bind, emit, ret.
  rewrite Hq. fold (api_url q). rewrite Hget, Hnone.
  destruct (aiohttp_installed w);
    [by destruct (status =? 200)%N|by destruct (_ && _)].
Qed.

(** ** Track ids, names and queries *)

(** The first occurrence of [sub] in [a ++ sub ++ rest] is after [a] when
    none starts inside [a]. *)
Lemma find_after (sub a rest : str) :
  (forall k, k < length a -> startswith sub (drop k (a ++ sub ++ rest)) = false) ->
  find sub (a ++ sub ++ rest) = Some (length a).
Proof.
  induction a as [|x a IH]; intros H.
  - simpl. destruct sub as [|c sub]; [by destruct rest|].
    simpl. rewrite N.eqb_refl. simpl. by rewrite startswith_app.
  - assert (startswith sub (x :: a ++ sub ++ rest) = false) as H0
      by (apply (H 0); simpl; lia).
    cbn [app find]. rewrite H0, IH; [done|].
    intros k Hk. apply (H (S k)). simpl. lia.
Qed.

(** Where [find] reports an occurrence, the first character of [sub]
    stands. *)
Lemma find_lookup (c : N) (sub s : str) (n : nat) :
  find (c :: sub) s = Some n -> s !! n = Some c.
Proof.
  intros H. pose proof (find_lt _ _ _ H) as Hl. apply find_occurs in H.
  rewrite H. rewrite lookup_app_r; rewrite length_take; [|lia].
  replace (n - n `min` length s) with 0 by lia. done.
Qed.

Lemma find_absent (c : N) (sub s : str) :
  c ∈ sub -> c ∉ s -> find sub s = None.
Proof.
  intros Hc Hs. destruct (find sub s) as [n|] eqn:E; [|done].
  apply find_occurs in E. exfalso. apply Hs. rewrite E.
  apply elem_of_app. right. apply elem_of_app. by left.
Qed.

(** [s.split(sep)[0]]: the text before the first [sep]. *)
Lemma item0_split (sep s : str) :
  sep <> [] ->
  item 0 (split sep s)
  = match find sep s with Some n => take n s | None => s end.
Proof.
  intros Hsep. destruct (find sep s) as [n|] eqn:E.
  - by rewrite (split_first _ _ _ Hsep E).
  - by rewrite (split_absent _ _ E).
Qed.

(** [s.split(sep)[1]] when [sep] occurs: the text between its first two
    occurrences. *)
Lemma item1_split (sep s : str) (n : nat) :
  sep <> [] -> find sep s = Some n ->
  item 1 (split sep s) = item 0 (split sep (drop (n + length sep) s)).
Proof.
  intros Hsep E. rewrite (split_first _ _ _ Hsep E). unfold item. simpl.
  by destruct (split sep (drop (n + length sep) s)).
Qed.

Lemma item0_split_char (c : N) (a tail : str) :
  c ∉ a -> tail = [] \/ (exists t, tail = c :: t) ->
  item 0 (split [c] (a ++ tail)) = a.
Proof.
  intros Hc [->|[t ->]]; rewrite item0_split by done.
  - rewrite app_nil_r. by rewrite (find_char_absent _ _ Hc).
  - rewrite (find_char _ _ _ Hc). by rewrite take_app_length.
Qed.

(** A prefix of [a ++ tail] that covers [a], where [tail] is empty or
    begins with [c], is [a] followed by nothing or by a text that begins
    with [c]. *)
Lemma prefix_covers (c : N) (a tail : str) (m : nat) :
  length a <= m -> tail = [] \/ (exists t, tail = c :: t) ->
  exists tail', take m (a ++ tail) = a ++ tail' /\
                (tail' = [] \/ (exists t, tail' = c :: t)).
Proof.
  intros Hm Ht. exists (take (m - length a) tail). split.
  - by rewrite take_app_ge.
  - destruct Ht as [->|[t ->]]; [left; by destruct (m - length a)|].
    destruct (m - length a); [by left|right]. simpl. by eexists.
Qed.

(** X13: the track id [extract_from_oembed] reads off a URL.  For the URL
    of a track on open.spotify.com, with or without a query string, it is
    the path segment after "/track/"; for a "spotify:track:" URI it is the
    text after that prefix.  (The id is taken to hold no '/', '?' or ':',
    as track ids do.) *)
Theorem X13_track_id_of_canonical_url (tid tail : str) :
  47%N ∉ tid ->
  (63%N ∉ tid -> tail = [] \/ (exists t, tail = 63%N :: t) ->
   track_id_of_url (lit "https://open.spotify.com/track/" ++ tid ++ tail)
   = Some tid) /\
  (58%N ∉ tid -> track_id_of_url (lit "spotify:track:" ++ tid) = Some tid).
Proof.
  intros Hslash. split.
  - intros Hq Htail. unfold track_id_of_url.
    set (P := lit "https://open.spotify.com").
    set (T := lit "/track/").
    change (lit "https://open.spotify.com/track/" ++ tid ++ tail)
      with (P ++ T ++ tid ++ tail).
    assert (find T (P ++ T ++ tid ++ tail) = Some (length P)) as Hf.
    { apply find_after. intros k Hk.
      do 24 (destruct k as [|k]; [vm_compute; reflexivity|]).
      exfalso. clear -Hk. subst P. vm_compute in Hk. lia. }
    unfold contains. rewrite Hf.
    rewrite (item1_split T _ _ ltac:(done) Hf).
    rewrite (app_assoc P T), drop_app_length' by (by rewrite length_app).
    assert (exists tail', item 0 (split T (tid ++ tail)) = tid ++ tail' /\
              (tail' = [] \/ (exists t, tail' = 63%N :: t)))
      as (tail' & -> & Ht').
    { rewrite item0_split by done.
      destruct (find T (tid ++ tail)) as [m|] eqn:Em; [|by exists tail].
      apply prefix_covers; [|done].
      apply find_lookup in Em.
      destruct (decide (m < length tid)) as [Hlt|]; [|lia].
      exfalso. apply Hslash. rewrite lookup_app_l in Em by done.
      by apply list_elem_of_lookup_2 in Em. }
    change (lit "?") with [63%N].
    by rewrite (item0_split_char _ _ _ Hq Ht').
  - intros Hcolon. unfold track_id_of_url.
    set (U := lit "spotify:track:").
    assert (contains (lit "/track/") (U ++ tid) = false) as ->.
    { unfold contains. rewrite (find_absent 47%N); [done|by vm_compute; left|].
      intros H. apply elem_of_app in H as [H|H]; [|done].
      vm_compute in H. repeat (apply elem_of_cons in H as [H|H]; [done|]).
      by apply elem_of_nil in H. }
    assert (find U (U ++ tid) = Some 0) as Hf.
    { apply (find_after U [] tid). intros k Hk. simpl in Hk. lia. }
    unfold contains. rewrite Hf.
    rewrite (item1_split U _ _ ltac:(done) Hf).
    change (0 + length U) with (length U). rewrite drop_app_length.
    rewrite item0_split by done.
    rewrite (find_absent 58%N); [done| |done].
    apply (bool_decide_unpack _). by vm_compute.
Qed.

(** X14: a request that names its track by [trackId] alone is resolved
    through the URL of that track, and the oEmbed fallback reads the very
    id back from it. *)
Theorem X14_track_id_round_trip (r : DownloadRequest.t) (tid : str) :
  truthy_opt (DownloadRequest.spotify_url r) = false ->
  truthy_opt (DownloadRequest.song_url r) = false ->
  truthy_opt (DownloadRequest.url r) = false ->
  truthy_opt (DownloadRequest.trackUrl r) = false ->
  DownloadRequest.trackId r = Some tid -> truthy tid = true ->
  47%N ∉ tid -> 63%N ∉ tid ->
  exists u, get_spotify_url r = Some u /\ track_id_of_url u = Some tid.
Proof.
  intros H1 H2 H3 H4 Hid Ht Hslash Hq.
  exists (lit "https://open.spotify.com/track/" ++ tid). split.
  - unfold get_spotify_url, py_or. rewrite Hid, H1, H2, H3, H4, Ht. done.
  - rewrite <- (app_nil_r tid) at 1.
    apply (X13_track_id_of_canonical_url tid []); [done|done|by left].
Qed.

Lemma metadata_get_truthy r k v :
  metadata_get r k = Some v -> truthy v = true.
Proof.
  unfold metadata_get. destruct (DownloadRequest.metadata r) as [m|]; [|done].
  destruct (decide (m = ∅)); [done|]. destruct (m !! k) as [x|]; [|done].
  destruct (truthy x) eqn:E; [|done]. by intros [= <-].
Qed.

(** X15: whatever the request holds, [get_track_name] and
    [get_artist_name] return a non-empty string: empty fields and empty
    metadata values give way to the next source and, last, to "Unknown" and
    "Unknown Artist". *)
Theorem X15_names_never_empty (r : DownloadRequest.t) :
  truthy (get_track_name r) = true /\ truthy (get_artist_name r) = true.
Proof.
  split.
  - unfold get_track_name.
    destruct (metadata_get r (lit "name")) as [v|] eqn:E;
      [by apply metadata_get_truthy in E|].
    destruct (py_or _ _) as [x|]; [|done]. by destruct (truthy x) eqn:Ex.
  - unfold get_artist_name.
    destruct (metadata_get r (lit "artist")) as [v|] eqn:E;
      [by apply metadata_get_truthy in E|].
    destruct (py_or _ _) as [x|]; [|done]. by destruct (truthy x) eqn:Ex.
Qed.

Lemma lstrip_clean p s : clean p (lstrip_with p s).
Proof.
  induction s as [|c s IH]; simpl; [done|]. by destruct (p c) eqn:E.
Qed.

Lemma lstrip_of_clean p s : clean p s -> lstrip_with p s = s.
Proof. destruct s as [|c s]; simpl; [done|]. by intros ->. Qed.

Lemma lstrip_suffix p s : exists ws, s = ws ++ lstrip_with p s.
Proof.
  induction s as [|c s [ws IH]]; simpl; [by exists []|].
  destruct (p c); [|by exists []]. exists (c :: ws). simpl. by f_equal.
Qed.

Lemma strip_with_clean p s :
  clean p (strip_with p s) /\ clean p (rev (strip_with p s)).
Proof.
  unfold strip_with. rewrite rev_involutive. split; [|apply lstrip_clean].
  pose proof (lstrip_clean p s) as Ht.
  destruct (lstrip_suffix p (rev (lstrip_with p s))) as [ws Hws].
  destruct (rev (lstrip_with p (rev (lstrip_with p s)))) as [|c u] eqn:Eu;
    [done|].
  apply (f_equal (@rev N)) in Hws. rewrite rev_involutive, rev_app_distr in Hws.
  rewrite Eu in Hws. rewrite Hws in Ht. exact Ht.
Qed.

Lemma strip_with_idemp p s : strip_with p (strip_with p s) = strip_with p s.
Proof.
  destruct (strip_with_clean p s) as [H1 H2].
  unfold strip_with at 1. rewrite (lstrip_of_clean _ _ H1).
  rewrite (lstrip_of_clean _ _ H2). apply rev_involutive.
Qed.

(** X16: when the request supplies no query of its own, the query
    [get_search_query] builds neither begins nor ends with white space:
    stripping it again changes nothing. *)
Theorem X16_constructed_query_stripped (r : DownloadRequest.t) :
  metadata_get r (lit "searchQuery") = None ->
  truthy_opt (DownloadRequest.search_query r) = false ->
  strip (get_search_query r) = get_search_query r /\
  clean isspace (get_search_query r) /\
  clean isspace (rev (get_search_query r)).
Proof.
  intros Hm Hq. unfold get_search_query. rewrite Hm.
  assert (forall c : str,
    match DownloadRequest.search_query r with
    | Some q => if truthy q then q else c
    | None => c
    end = c) as Hc.
  { intros c. destruct (DownloadRequest.search_query r) as [q|]; [|done].
    simpl in Hq. by rewrite Hq. }
  rewrite Hc. unfold strip. split; [apply strip_with_idemp|].
  apply strip_with_clean.
Qed.

(** ** The script: one download *)

Lemma os_remove_exn od n d e : os_remove od n d = inr e -> is_Exception e = true.
Proof.
  unfold os_remove. destruct (dir_lookup n d) as [[c|]|]; by intros [= <-].
Qed.

Lemma os_rename_exn od a b d e :
  os_rename od a b d = inr e -> is_Exception e = true.
Proof.
  unfold os_rename.
  destruct (dir_lookup a d) as [[c|]|], (dir_lookup b d) as [[c'|]|];
    by intros [= <-].
Qed.

Lemma rotate_latest_exn od exts :
  forall d e d', rotate_latest od exts d = (Some e, d') -> is_Exception e = true.
Proof.
  induction exts as [|ext rest IH]; intros d e d'; cbn [rotate_latest];
    [done|]. cbv zeta.
  destruct (dir_lookup (lit "latest" ++ ext) d); [|apply IH].
  destruct (dir_lookup (lit "previous" ++ ext) d).
  - destruct (os_remove od _ d) as [d1|e1] eqn:E1.
    + destruct (os_rename od _ _ d1) as [d2|e2] eqn:E2; [apply IH|].
      intros [= <- _]. by apply os_rename_exn in E2.
    + intros [= <- _]. by apply os_remove_exn in E1.
  - destruct (os_rename od _ _ d) as [d2|e2] eqn:E2; [apply IH|].
    intros [= <- _]. by apply os_rename_exn in E2.
Qed.

Lemma script_except_caught e r :
  is_Exception e = true -> script_except e = r ->
  r = inl (ScriptFailure (lit "Download error: " ++ exn_str e) None).
Proof. unfold script_except. by intros -> <-. Qed.

(** Every way [download_with_ytdlp] ends. *)
Lemma download_with_ytdlp_post sw q od b d res d' :
  download_with_ytdlp sw q od b d = (res, d') ->
  match res with
  | inl (ScriptSuccess file path) =>
      path = path_join od file /\ is_Some (dir_lookup file d')
  | inl (ScriptFailure err details) =>
      (err = lit "Download failed" /\ is_Some details) \/
      (details = None /\
       (err = lit "Download timed out (>180s)" \/
        exists m, err = lit "Download error: " ++ m))
  | inr e => is_Exception e = false
  end.
Proof.
  assert (forall e r (d0 : directory),
    (script_except e, d0) = (r, d') ->
    match r with
    | inl (ScriptSuccess file path) =>
        path = path_join od file /\ is_Some (dir_lookup file d')
    | inl (ScriptFailure err details) =>
        (err = lit "Download failed" /\ is_Some details) \/
        (details = None /\
         (err = lit "Download timed out (>180s)" \/
          exists m, err = lit "Download error: " ++ m))
    | inr e => is_Exception e = false
    end) as Hexc.
  { intros e r d0. unfold script_except.
    destruct (is_Exception e) eqn:He; intros [= <- _]; [|done].
    right. split; [done|]. right. by eexists. }
  unfold download_with_ytdlp.
  destruct (quote q) as [qq|msg]; [|apply Hexc].
  set (cmd := ytdlp_cmd sw _ _).
  destruct (subprocess_run sw cmd d) as [d1 [rc stderr| |e]] eqn:Erun.
  2: { intros [= <- _]. right. split; [done|]. by left. }
  2: apply Hexc.
  assert (forall r0 : script_result + exn,
    (inl (ScriptFailure (lit "Download failed") (Some stderr)), d1) = (r0, d') ->
    match r0 with
    | inl (ScriptSuccess file path) =>
        path = path_join od file /\ is_Some (dir_lookup file d')
    | inl (ScriptFailure err details) =>
        (err = lit "Download failed" /\ is_Some details) \/
        (details = None /\
         (err = lit "Download timed out (>180s)" \/
          exists m, err = lit "Download error: " ++ m))
    | inr e => is_Exception e = false
    end) as Hfail.
  { intros r0 [= <- _]. left. by split. }
  destruct (negb (rc =? 0)%Z); [apply Hfail|].
  destruct (os_listdir od d1) as [names|e] eqn:El; [|apply Hexc].
  apply os_listdir_inv in El as ->.
  destruct b.
  - destruct (filter _ (map fst d1)) as [|temp_file tl] eqn:Ef; [apply Hfail|].
    assert (temp_file ∈ temp_file :: tl) as Hin by left.
    rewrite <- Ef in Hin. apply list_elem_of_filter in Hin as [Hname Hlisted].
    apply andb_prop_elim in Hname as [Hstart _].
    apply Is_true_true in Hstart.
    destruct (dir_lookup_listed _ _ Hlisted) as [x Hx].
    destruct (rotate_latest od script_extensions d1) as [[e|] d2] eqn:Er;
      [apply Hexc|].
    destruct (rotate_latest_done _ _ script_extensions_nodup _ _ Er)
      as (_ & _ & Hother).
    set (latest := lit "latest" ++ splitext_ext temp_file).
    destruct (os_rename od temp_file latest d2) as [d3|e] eqn:En;
      [|apply Hexc].
    intros [= <- <-]. split; [done|].
    assert (temp_file <> latest) as Hne by (by apply temp_name_apart).
    rewrite (os_rename_lookup _ _ _ _ _ latest Hne En). unfold str_eqb.
    rewrite bool_decide_eq_true_2 by done. rewrite Hother; [done|].
    intros e _. by apply temp_name_apart.
  - destruct (last (filter _ (map fst d1))) as [f|] eqn:El; [|apply Hfail].
    intros [= <- <-]. split; [done|].
    apply dir_lookup_listed. apply last_Some_elem_of in El.
    by apply list_elem_of_filter in El as [_ El].
Qed.

(** X17: [download_with_ytdlp] answers with a dict whatever happens: the
    only exceptions it lets through are those that are no [Exception].  A
    success names a file that is in the output folder; a failure is
    "Download failed" with the stderr of yt-dlp, or one of two messages
    without details: the timeout, or "Download error: " followed by the
    text of the exception. *)
Theorem X17_script_download_reports sw q od b d res d' :
  download_with_ytdlp sw q od b d = (res, d') ->
  (forall e, res = inr e -> is_Exception e = false) /\
  (forall file path,
      res = inl (ScriptSuccess file path) ->
      path = path_join od file /\ is_Some (dir_lookup file d')) /\
  (forall err details,
      res = inl (ScriptFailure err details) ->
      (err = lit "Download failed" /\ is_Some details) \/
      (details = None /\
       (err = lit "Download timed out (>180s)" \/
        exists m, err = lit "Download error: " ++ m))).
Proof.
  intros E. apply download_with_ytdlp_post in E.
  split; [by intros e ->|]. split; [by intros file path ->|].
  by intros err details ->.
Qed.

(** X18: without consistent naming the script itself changes nothing in
    the folder.  A success means that yt-dlp was given the title template
    and exited with status 0, and the file reported is the last entry of
    the folder whose name ends with one of the five extensions, whether or
    not this run wrote it. *)
Theorem X18_script_plain_mode sw q od d file path d' :
  download_with_ytdlp sw q od false d = (inl (ScriptSuccess file path), d') ->
  exists cmd stderr,
    subprocess_run sw cmd d = (d', Exited 0 stderr) /\
    path_join od (lit "%(title)s.%(ext)s") ∈ cmd /\
    last (filter (ends_with_any script_extensions) (map fst d')) = Some file /\
    path = path_join od file.
Proof.
  unfold download_with_ytdlp.
  destruct (quote q) as [qq|msg]; [|by intros [=]].
  set (cmd := ytdlp_cmd sw _ _).
  destruct (subprocess_run sw cmd d) as [d1 [rc stderr| |e]] eqn:Erun.
  2: by intros [=].
  2: { unfold script_except. destruct (is_Exception e); by intros [=]. }
  destruct (rc =? 0)%Z eqn:Hrc; [|by intros [=]]. cbn [negb]. cbv beta iota.
  apply Z.eqb_eq in Hrc as ->.
  destruct (os_listdir od d1) as [names|e] eqn:Els.
  2: { unfold script_except. destruct (is_Exception e); by intros [=]. }
  apply os_listdir_inv in Els as ->.
  destruct (last (filter _ (map fst d1))) as [f|] eqn:El; [|by intros [=]].
  intros [= <- <- <-]. exists cmd, stderr.
  repeat split; try done. subst cmd. unfold ytdlp_cmd. do 13 right. left.
Qed.

(** ** The script: titles, track information and [main] *)

(** X19: the script's title parser and the endpoint's agree on a title
    that has no surrounding white space, is not empty and has no " · ":
    the endpoint's result is the script's with the sentinels cleaned. *)
Theorem X19_title_parsers_agree (title : str) :
  strip title = title -> truthy title = true ->
  contains SEP_DOT title = false ->
  parse_oembed_title title
  = (clean_name (script_parse_title title).1,
     clean_artist (script_parse_title title).2).
Proof.
  intros Hs Ht Hd. unfold parse_oembed_title, script_parse_title.
  rewrite Hs, Ht, Hd. unfold clean_name, clean_artist.
  destruct (contains SEP_QUOTED title).
  { destruct (split_title SEP_QUOTED title) as [n a]. cbn [fst snd].
    by destruct (str_eqb _ _), (in_list _ _). }
  destruct (contains SEP_DASH title).
  { destruct (split_title SEP_DASH title) as [n a]. cbn [fst snd].
    by destruct (str_eqb _ _), (in_list _ _). }
  destruct (contains SEP_BY title).
  { destruct (split_title SEP_BY title) as [n a]. cbn [fst snd].
    by destruct (str_eqb _ _), (in_list _ _). }
  cbn [fst snd]. by destruct (str_eqb _ _), (in_list _ _).
Qed.

Lemma script_api_artists w u t evs :
  extract_track_info_from_api w u = (Some t, evs) -> info_artists t <> [].
Proof.
  unfold extract_track_info_from_api. destruct (quote u); [|done].
  destruct (api_get w _) as [status data|]; [|done].
  destruct (_ && _); [|done]. unfold script_track_info_of_api.
  destruct (has_error data); [done|].
  destruct (default _ (api_artists data)) as [|a0 l0] eqn:E; [done|].
  by intros [= <- _].
Qed.

Lemma script_url_artists w u t evs :
  extract_track_info_from_url w u = (Some t, evs) -> info_artists t <> [].
Proof.
  unfold extract_track_info_from_url.
  destruct (track_id_of_url u) as [tid|]; [|done].
  destruct (negb (truthy tid)); [done|].
  destruct (oembed_get w _) as [status title|]; [|done].
  destruct (_ && _); [|done].
  destruct (script_parse_title _). by intros [= <- _].
Qed.

Lemma script_api_events w u :
  (extract_track_info_from_api w u).2 = []
  \/ exists x, (extract_track_info_from_api w u).2 = [EvApiGet x].
Proof.
  unfold extract_track_info_from_api. destruct (quote u); [|by left].
  right. by eexists.
Qed.

Lemma script_url_events w u :
  (extract_track_info_from_url w u).2 = []
  \/ exists x, (extract_track_info_from_url w u).2 = [EvOembedGet x].
Proof.
  unfold extract_track_info_from_url.
  destruct (track_id_of_url u) as [tid|]; [|by left].
  destruct (negb (truthy tid)); [by left|]. right. by eexists.
Qed.

(** The track information [main] works with, and the requests made for
    it. *)
Lemma script_resolution w u :
  exists ti evs,
    (let '(track_info, evs1) := extract_track_info_from_api w u in
     let '(track_info, evs2) :=
       match track_info with
       | Some t => (Some t, [])
       | None => extract_track_info_from_url w u
       end in
     (track_info, evs1 ++ evs2)) = (ti, evs) /\
    (forall t, ti = Some t -> info_artists t <> []) /\
    api_then_oembed evs.
Proof.
  unfold api_then_oembed.
  pose proof (script_api_events w u) as Ha.
  pose proof (script_url_events w u) as Hu.
  destruct (extract_track_info_from_api w u) as [[t|] evs1] eqn:E1.
  - eexists _, _. split; [done|]. split.
    + intros t' [= <-]. by apply script_api_artists in E1.
    + rewrite app_nil_r. simpl in Ha. destruct Ha as [->|[x ->]]; eauto.
  - destruct (extract_track_info_from_url w u) as [ti evs2] eqn:E2.
    eexists _, _. split; [done|]. split.
    + intros t' ->. by apply script_url_artists in E2.
    + simpl in Ha, Hu.
      destruct Ha as [->|[x ->]], Hu as [->|[y ->]]; simpl; eauto 10.
Qed.

(** What [main] does once it has its arguments and its folder. *)
Lemma script_main_run w sw argv folder :
  script_main w sw argv folder =
  if (length argv <? 3)%nat then
    (inl {| stdout := OutUsage; exit_code := 1 |}, folder, [])
  else
    match makedirs sw (item 2 argv) folder with
    | inr e => (inr e, folder, [])
    | inl d =>
        let p :=
          let '(track_info, evs1) :=
            extract_track_info_from_api w (item 1 argv) in
          let '(track_info, evs2) :=
            match track_info with
            | Some t => (Some t, [])
            | None => extract_track_info_from_url w (item 1 argv)
            end in
          (track_info, evs1 ++ evs2) in
        match p.1 with
        | None =>
            (inl {| stdout := OutNoTrack; exit_code := 1 |}, Folder d, p.2)
        | Some t =>
            match info_artists t with
            | [] =>
                (inr (OtherException (lit "list index out of range")),
                 Folder d, p.2)
            | _ :: _ =>
                match download_with_ytdlp sw (info_search_query t)
                        (item 2 argv)
                        ((3 <? length argv)%nat
                         && str_eqb (lower (item 3 argv)) (lit "true")) d with
                | (inr e, d') => (inr e, Folder d', p.2)
                | (inl (ScriptSuccess file path), d') =>
                    (inl {| stdout :=
                              OutSuccess file path (info_name t)
                                         (info_artists t);
                            exit_code := 0 |},
                     Folder d', p.2)
                | (inl (ScriptFailure error details), d') =>
                    (inl {| stdout :=
                              OutFailure error (info_name t) (info_artists t)
                                (match details with
                                 | Some x =>
                                     if truthy x then take 500 x
                                     else lit "Unknown error"
                                 | None => lit "Unknown error"
                                 end);
                            exit_code := 1 |},
                     Folder d', p.2)
                end
            end
        end
    end.
Proof.
  unfold script_main. destruct (length argv <? 3)%nat; [done|].
  destruct (makedirs _ _ folder) as [d|e]; [|done].
  destruct (extract_track_info_from_api w (item 1 argv)) as [[t|] evs1];
    [done|].
  by destruct (extract_track_info_from_url w (item 1 argv)) as [ti evs2].
Qed.

(** X20: what the script's [main] reports.  It exits with status 0 exactly
    when it prints the success object, and with status 1 otherwise; it
    prints the usage error exactly when fewer than two arguments follow the
    script name; the details of a failure are never empty and never longer
    than 500 characters; unless it stopped at the usage error the output
    folder exists afterwards; and it asks the metadata API first and the
    oEmbed endpoint after it, each at most once. *)
Theorem X20_script_main_report w sw argv folder out folder' evs :
  script_main w sw argv folder = (inl out, folder', evs) ->
  (exit_code out = if is_success (stdout out) then 0 else 1)%Z /\
  (stdout out = OutUsage <-> length argv < 3) /\
  (forall e n a details,
      stdout out = OutFailure e n a details ->
      truthy details = true /\ length details <= 500) /\
  (stdout out <> OutUsage -> exists d, folder' = Folder d) /\
  api_then_oembed evs.
Proof.
  rewrite script_main_run.
  destruct (length argv <? 3)%nat eqn:Hl.
  { apply Nat.ltb_lt in Hl. intros [= <- <- <-]. simpl.
    repeat split; try done. by left. }
  apply Nat.ltb_ge in Hl.
  destruct (makedirs _ _ folder) as [d|e]; [|done].
  destruct (script_resolution w (item 1 argv)) as (ti & evs0 & -> & _ & Hev).
  cbv zeta. cbn [fst snd].
  assert (forall o : script_output, o <> OutUsage ->
            (o = OutUsage <-> length argv < 3)) as Hno.
  { intros o Ho. split; [done|lia]. }
  destruct ti as [t|].
  2: { intros [= <- <- <-]. cbn [stdout exit_code is_success].
       split; [done|]. split; [by apply Hno|]. split; [done|].
       split; [by eauto|done]. }
  destruct (info_artists t) as [|a l]; [done|].
  destruct (download_with_ytdlp _ _ _ _ d) as [[[file path|err details]|e] d'];
    [| |done].
  - intros [= <- <- <-]. cbn [stdout exit_code is_success].
    split; [done|]. split; [by apply Hno|]. split; [done|].
    split; [by eauto|done].
  - intros [= <- <- <-]. cbn [stdout exit_code is_success].
    split; [done|]. split; [by apply Hno|]. split; [|split; [by eauto|done]].
    intros ? ? ? ? [= _ _ _ <-].
    destruct details as [x|]; [destruct (truthy x) eqn:Hx|].
    + split; [by destruct x|]. rewrite length_take. lia.
    + split; [done|]. change (length (lit "Unknown error")) with 13. lia.
    + split; [done|]. change (length (lit "Unknown error")) with 13. lia.
Qed.

(** X21: an exception that is an [Exception] ends [main] only when
    [os.makedirs] raised it, before anything was requested or downloaded:
    the output path is empty, or taken by something that is no directory,
    or the directory is missing and cannot be created.  With the output
    folder in place the only exceptions that end [main] are those that are
    no [Exception]; in particular the [IndexError] that [artists[0]] could
    raise is never raised, as both extractors return a non-empty list of
    artists. *)
Theorem X21_script_main_uncaught w sw argv folder e folder' evs :
  script_main w sw argv folder = (inr e, folder', evs) ->
  (is_Exception e = true ->
   makedirs sw (item 2 argv) folder = inr e /\ folder' = folder /\ evs = []) /\
  (forall d, folder = Folder d -> truthy (item 2 argv) = true ->
             is_Exception e = false).
Proof.
  rewrite script_main_run.
  destruct (length argv <? 3)%nat; [done|].
  destruct (makedirs sw (item 2 argv) folder) as [d0|e0] eqn:Em.
  2: { intros [= <- <- <-]. split; [done|]. intros d -> Ht.
       unfold makedirs in Em. by rewrite Ht in Em. }
  destruct (script_resolution w (item 1 argv)) as (ti & evs0 & -> & Hart & _).
  cbv zeta; cbn [fst snd].
  destruct ti as [t|]; [|done].
  specialize (Hart t eq_refl).
  destruct (info_artists t) as [|a l]; [done|].
  destruct (download_with_ytdlp _ _ _ _ _)
    as [[[file path|err details]|e1] d'] eqn:Ed; [done|done|].
  intros [= <- _ _]. apply download_with_ytdlp_post in Ed.
  split; [by rewrite Ed|done].
Qed.

(** ** The cookie merger *)

Lemma replaces_spec (existing cookie : Cookie.t) :
  replaces existing cookie = true <->
  (Cookie.expiration existing < Cookie.expiration cookie)%Z \/
  (Cookie.expiration existing = Cookie.expiration cookie /\
   length (Cookie.value existing) < length (Cookie.value cookie)).
Proof.
  unfold replaces.
  destruct (Z.eqb_spec (Cookie.expiration existing) 0),
           (Z.ltb_spec 0 (Cookie.expiration cookie)),
           (Z.eqb_spec (Cookie.expiration cookie) 0),
           (Z.ltb_spec 0 (Cookie.expiration existing)),
           (Z.ltb_spec (Cookie.expiration existing) (Cookie.expiration cookie)),
           (Z.eqb_spec (Cookie.expiration cookie) (Cookie.expiration existing));
    cbn [andb]; rewrite ?Nat.ltb_lt; split; intros ?; try done; try lia.
Qed.

(** X22: which of two cookies with the same domain and name is kept.  The
    one just read replaces the one held exactly when it expires later, or
    at the same time with a longer value; otherwise the one held is at
    least as good and stays.  The two clauses for session cookies
    (expiration 0) never decide otherwise. *)
Theorem X22_replaces_later_or_longer (existing cookie : Cookie.t) :
  (replaces existing cookie = true <->
   (Cookie.expiration existing < Cookie.expiration cookie)%Z \/
   (Cookie.expiration existing = Cookie.expiration cookie /\
    length (Cookie.value existing) < length (Cookie.value cookie))) /\
  (replaces existing cookie = false <-> at_least cookie existing).
Proof.
  split; [apply replaces_spec|].
  pose proof (replaces_spec existing cookie) as H. unfold at_least.
  destruct (replaces existing cookie).
  - split; [done|]. intros Ha. assert (true = true) as Ht by done.
    apply H in Ht. lia.
  - split; [|done]. intros _.
    assert (~ ((Cookie.expiration existing < Cookie.expiration cookie)%Z \/
               (Cookie.expiration existing = Cookie.expiration cookie /\
                length (Cookie.value existing) < length (Cookie.value cookie))))
      as Hn by (intros Hc; by apply H in Hc).
    lia.
Qed.

Lemma at_least_refl c : at_least c c.
Proof. right. split; [done|lia]. Qed.

Lemma at_least_trans c1 c2 c3 :
  at_least c1 c2 -> at_least c2 c3 -> at_least c1 c3.
Proof. unfold at_least. lia. Qed.

Lemma jar_get_set k k' c jar :
  jar_get k' (jar_set k c jar)
  = if bool_decide (k = k') then Some c else jar_get k' jar.
Proof.
  induction jar as [|[k0 v] jar IH]; simpl; [done|].
  destruct (bool_decide (k0 = k)) eqn:E0; simpl; rewrite ?IH;
    repeat case_bool_decide; congruence.
Qed.

Lemma jar_set_keys k c jar :
  map fst (jar_set k c jar)
  = match jar_get k jar with
    | Some _ => map fst jar
    | None => map fst jar ++ [k]
    end.
Proof.
  induction jar as [|[k0 v] jar IH]; simpl; [done|].
  case_bool_decide; simpl; [done|]. rewrite IH.
  by destruct (jar_get k jar).
Qed.

Lemma jar_set_elem k c jar kv :
  kv ∈ jar_set k c jar -> kv ∈ jar \/ kv = (k, c).
Proof.
  induction jar as [|[k0 v] jar IH]; simpl.
  - intros H. apply list_elem_of_singleton in H. by right.
  - case_bool_decide as Hk; rewrite !elem_of_cons.
    + intros [->|H]; [right; by subst|left; by right].
    + intros [->|H]; [left; by left|].
      destruct (IH H) as [H'|H']; [left; by right|by right].
Qed.

Lemma jar_get_elem k c jar : jar_get k jar = Some c -> (k, c) ∈ jar.
Proof.
  induction jar as [|[k0 v] jar IH]; simpl; [done|].
  case_bool_decide as Hk.
  - intros [= <-]. subst. by left.
  - intros H. right. by apply IH.
Qed.

Lemma jar_get_absent k jar : jar_get k jar = None -> k ∉ map fst jar.
Proof.
  induction jar as [|[k0 v] jar IH]; simpl; [intros _; apply not_elem_of_nil|].
  case_bool_decide as Hk; [done|]. intros H.
  apply not_elem_of_cons. split; [done|by apply IH].
Qed.

Lemma jar_elem_get k c jar :
  NoDup (map fst jar) -> (k, c) ∈ jar -> jar_get k jar = Some c.
Proof.
  induction jar as [|[k0 v] jar IH]; simpl; intros Hnd Hin.
  { by apply elem_of_nil in Hin. }
  apply NoDup_cons in Hnd as [Hk0 Hnd].
  apply elem_of_cons in Hin as [[= <- <-]|Hin].
  - by rewrite bool_decide_eq_true_2.
  - rewrite bool_decide_eq_false_2; [by apply IH|].
    intros ->. apply Hk0. apply list_elem_of_fmap. by exists (k, c).
Qed.

Lemma jar_set_ok k c jar :
  cookie_key c = k -> jar_ok jar -> jar_ok (jar_set k c jar).
Proof.
  intros Hk [Hnd Hkeys]. split.
  - rewrite jar_set_keys. destruct (jar_get k jar) eqn:E; [done|].
    apply NoDup_app. split; [done|]. split; [|apply NoDup_singleton].
    intros x Hx Hx'. apply list_elem_of_singleton in Hx' as ->.
    by apply jar_get_absent in E.
  - apply Forall_forall. intros kv Hin.
    apply jar_set_elem in Hin as [Hin| ->]; [|done].
    rewrite Forall_forall in Hkeys. by apply Hkeys.
Qed.

(** One cookie read: the jar stays well formed, gains at most that cookie,
    holds for its key a cookie that is at least as good, and no key gets a
    worse cookie. *)
Lemma jar_step c jar :
  jar_ok jar ->
  let jar' :=
    match jar_get (cookie_key c) jar with
    | Some existing =>
        if replaces existing c then jar_set (cookie_key c) c jar else jar
    | None => jar_set (cookie_key c) c jar
    end in
  jar_ok jar' /\
  (forall kv, kv ∈ jar' -> kv ∈ jar \/ kv.2 = c) /\
  (exists c', jar_get (cookie_key c) jar' = Some c' /\ at_least c c') /\
  (forall k c0, jar_get k jar = Some c0 ->
                exists c', jar_get k jar' = Some c' /\ at_least c0 c').
Proof.
  intros Hok.
  assert (let jar' := jar_set (cookie_key c) c jar in
          (forall c0, jar_get (cookie_key c) jar = Some c0 -> at_least c0 c) ->
          jar_ok jar' /\
          (forall kv, kv ∈ jar' -> kv ∈ jar \/ kv.2 = c) /\
          (exists c', jar_get (cookie_key c) jar' = Some c' /\ at_least c c') /\
          (forall k c0, jar_get k jar = Some c0 ->
                        exists c', jar_get k jar' = Some c' /\ at_least c0 c'))
    as Hset.
  { intros jar' Hbetter. split; [by apply jar_set_ok|]. split; [|split].
    - intros kv Hin. apply jar_set_elem in Hin as [Hin| ->]; auto.
    - exists c. subst jar'. rewrite jar_get_set, bool_decide_eq_true_2 by done.
      split; [done|apply at_least_refl].
    - intros k c0 Hget. subst jar'. rewrite jar_get_set.
      case_bool_decide as Hk.
      + exists c. split; [done|]. subst k. by apply Hbetter.
      + exists c0. split; [done|apply at_least_refl]. }
  destruct (jar_get (cookie_key c) jar) as [existing|] eqn:Eg; [|by apply Hset].
  destruct (replaces existing c) eqn:Er.
  - apply Hset. intros c0 [= <-].
    apply replaces_spec in Er. unfold at_least. lia.
  - split; [done|]. split; [by left|]. split.
    + exists existing. split; [done|].
      assert (~ ((Cookie.expiration existing < Cookie.expiration c)%Z \/
                 (Cookie.expiration existing = Cookie.expiration c /\
                  length (Cookie.value existing) < length (Cookie.value c))))
        as Hn.
      { intros H. apply replaces_spec in H. congruence. }
      unfold at_least. lia.
    + intros k c0 Hget. exists c0. split; [done|apply at_least_refl].
Qed.

Lemma reads_cons_skip line rest c :
  negb (truthy (strip line)) || startswith (lit "#") (strip line) = true ->
  reads (line :: rest) c -> reads rest c.
Proof.
  intros Hskip (l & Hin & Ht & Hc & Hp).
  apply elem_of_cons in Hin as [->|Hin]; [|by exists l].
  rewrite Ht, Hc in Hskip. done.
Qed.

Lemma reads_cons line rest c : reads rest c -> reads (line :: rest) c.
Proof.
  intros (l & Hin & H). exists l. split; [by right|done].
Qed.

(** The loop over the lines of a file, when it ends without an
    exception. *)
Lemma merge_lines_spec lines :
  forall jar jar',
    jar_ok jar -> merge_lines lines jar = inl jar' ->
    jar_ok jar' /\
    (forall kv, kv ∈ jar' -> kv ∈ jar \/ reads lines kv.2) /\
    (forall k c0, jar_get k jar = Some c0 ->
                  exists c', jar_get k jar' = Some c' /\ at_least c0 c') /\
    (forall c, reads lines c ->
               exists c', jar_get (cookie_key c) jar' = Some c' /\
                          at_least c c').
Proof.
  induction lines as [|line rest IH]; intros jar jar' Hok.
  { intros [= <-]. split; [done|]. split; [by left|]. split.
    - intros k c0 H. exists c0. split; [done|apply at_least_refl].
    - intros c (l & Hin & _). by apply elem_of_nil in Hin. }
  cbn [merge_lines]. cbv zeta.
  destruct (negb (truthy (strip line)) || startswith (lit "#") (strip line))
    eqn:Hskip.
  { intros Hrun. destruct (IH _ _ Hok Hrun) as (H1 & H2 & H3 & H4).
    split; [done|]. split; [|split; [done|]].
    - intros kv Hin. destruct (H2 kv Hin) as [?|?]; [by left|].
      right. by apply reads_cons.
    - intros c Hc. apply H4. by eapply reads_cons_skip. }
  destruct (parse_cookie_line (strip line)) as [[|c0]|e] eqn:Hp; [done| |done].
  cbn [parsed_truthy negb]. cbv iota.
  destruct (jar_step c0 jar Hok) as (Hok1 & Hnew & Hmine & Hmono).
  cbv zeta in Hok1, Hnew, Hmine, Hmono.
  intros Hrun. destruct (IH _ _ Hok1 Hrun) as (H1 & H2 & H3 & H4).
  apply orb_false_iff in Hskip as [Ht Hc]. apply negb_false_iff in Ht.
  assert (reads (line :: rest) c0) as Hread.
  { exists line. split; [by left|done]. }
  split; [done|]. split; [|split].
  - intros kv Hin. destruct (H2 kv Hin) as [Hin'|?].
    + destruct (Hnew kv Hin') as [?| ->]; [by left|by right].
    + right. by apply reads_cons.
  - intros k c1 Hget. destruct (Hmono k c1 Hget) as (c2 & Hget2 & Hle).
    destruct (H3 k c2 Hget2) as (c3 & Hget3 & Hle3).
    exists c3. split; [done|]. by eapply at_least_trans.
  - intros c (l & Hin & Hlt & Hlc & Hlp).
    apply elem_of_cons in Hin as [->|Hin].
    + rewrite Hp in Hlp. injection Hlp as <-.
      destruct Hmine as (c2 & Hget2 & Hle).
      destruct (H3 _ c2 Hget2) as (c3 & Hget3 & Hle3).
      exists c3. split; [done|]. by eapply at_least_trans.
    + apply H4. by exists l.
Qed.

Lemma merge_lines_app l1 l2 jar :
  merge_lines (l1 ++ l2) jar
  = match merge_lines l1 jar with
    | inl jar1 => merge_lines l2 jar1
    | inr e => inr e
    end.
Proof.
  revert jar; induction l1 as [|line rest IH]; intros jar; [done|].
  cbn [app merge_lines]. cbv zeta.
  destruct (_ || _); [apply IH|].
  destruct (parse_cookie_line (strip line)) as [[|c0]|e]; [done| |done].
  cbn [parsed_truthy negb]. cbv iota. apply IH.
Qed.

(** The files are read as one list of lines. *)
Lemma merged_jar_lines yt mu :
  merged_jar yt mu = merge_lines (lines_read yt mu) [].
Proof.
  unfold merged_jar, lines_read. rewrite merge_lines_app.
  destruct yt as [l1|], mu as [l2|]; simpl; try done.
  by destruct (merge_lines l1 []).
Qed.

Lemma merge_lines_exn lines :
  forall jar e, merge_lines lines jar = inr e -> is_Exception e = true.
Proof.
  induction lines as [|line rest IH]; intros jar e; [done|].
  cbn [merge_lines]. cbv zeta.
  destruct (_ || _); [apply IH|].
  unfold parse_cookie_line at 1.
  destruct (length _ <? 7)%nat.
  { cbn [parsed_truthy negb]. by intros [= <-]. }
  destruct (if negb _ then _ else _) as [n|msg]; [|by intros [= <-]].
  cbn [parsed_truthy negb]. cbv iota. apply IH.
Qed.

(** A line that is read and has fewer than seven fields ends the loop
    with an exception. *)
Lemma merge_lines_malformed lines line :
  line ∈ lines -> truthy (strip line) = true ->
  startswith (lit "#") (strip line) = false ->
  length (split TAB (strip line)) < 7 ->
  forall jar, exists e, merge_lines lines jar = inr e.
Proof.
  intros Hin Ht Hc Hl.
  induction lines as [|l rest IH]; intros jar;
    [by apply elem_of_nil in Hin|].
  cbn [merge_lines]. cbv zeta.
  apply elem_of_cons in Hin as [<-|Hin].
  - rewrite Ht, Hc. cbn [negb orb]. unfold parse_cookie_line.
    unfold strip at 1. rewrite strip_with_idemp. fold (strip line).
    apply Nat.ltb_lt in Hl. rewrite Hl. cbn [parsed_truthy negb].
    by eexists.
  - destruct (_ || _); [by apply IH|].
    destruct (parse_cookie_line (strip l)) as [[|c0]|e]; [by eexists| |by eexists].
    cbn [parsed_truthy negb]. cbv iota. by apply IH.
Qed.

(** The order of strings. *)
Lemma str_ltb_asym a b : str_ltb a b = true -> str_ltb b a = false.
Proof.
  revert b; induction a as [|x a IH]; intros [|y b]; simpl; try done.
  destruct (N.ltb_spec x y), (N.ltb_spec y x), (N.eqb_spec x y),
    (N.eqb_spec y x); simpl; try done; try lia.
  apply IH.
Qed.

Lemma str_ltb_connex a b : str_ltb a b = false -> a <> b -> str_ltb b a = true.
Proof.
  revert b; induction a as [|x a IH]; intros [|y b]; simpl; try done.
  destruct (N.ltb_spec x y), (N.ltb_spec y x), (N.eqb_spec x y),
    (N.eqb_spec y x); simpl; try done; try lia.
  intros Hlt Hne. apply IH; [done|]. intros ->. by subst.
Qed.

Lemma key_leb_total k1 k2 : key_leb k1 k2 = false -> key_leb k2 k1 = true.
Proof.
  unfold key_leb, str_eqb. intros H.
  apply orb_false_iff in H as [H1 H2].
  case_bool_decide as He; simpl in H2.
  - apply negb_false_iff in H2. apply str_ltb_asym in H2.
    rewrite H2. rewrite bool_decide_eq_true_2 by done.
    by rewrite orb_true_r.
  - rewrite (str_ltb_connex _ _ H1 He). done.
Qed.

Lemma insert_by_key_perm c l : insert_by_key c l ≡ₚ c :: l.
Proof.
  induction l as [|y l IH]; simpl; [done|].
  destruct (key_leb _ _); [done|]. rewrite IH. apply Permutation_swap.
Qed.

Lemma sorted_by_key_perm l : sorted_by_key l ≡ₚ l.
Proof.
  induction l as [|c l IH]; simpl; [done|].
  rewrite insert_by_key_perm. by rewrite IH.
Qed.

Lemma insert_by_key_sorted c l :
  Sorted key_le l -> Sorted key_le (insert_by_key c l).
Proof.
  induction l as [|y l IH]; simpl; intros Hs.
  { by repeat constructor. }
  destruct (key_leb (cookie_key c) (cookie_key y)) eqn:E.
  { constructor; [done|]. by constructor. }
  apply Sorted_inv in Hs as [Hs Hhd]. constructor; [by apply IH|].
  apply key_leb_total in E.
  destruct l as [|z l]; simpl.
  - by constructor.
  - destruct (key_leb (cookie_key c) (cookie_key z)); constructor; [done|].
    by apply HdRel_inv in Hhd.
Qed.

Lemma sorted_by_key_sorted l : Sorted key_le (sorted_by_key l).
Proof.
  induction l as [|c l IH]; simpl; [constructor|].
  by apply insert_by_key_sorted.
Qed.

(** The values of a well-formed jar, seen through their keys. *)
Lemma jar_keys jar :
  jar_ok jar -> map cookie_key (map snd jar) = map fst jar.
Proof.
  intros [_ Hk]. induction Hk as [|[k v] jar Hkv _ IH]; simpl; [done|].
  simpl in Hkv. by rewrite Hkv, IH.
Qed.

Lemma jar_ok_nil : jar_ok [].
Proof. split; constructor. Qed.

(** What [merge_cookie_files] writes, in terms of the jar. *)
Lemma merge_cookie_files_inv yt mu now out n :
  merge_cookie_files yt mu now = inl (out, n) ->
  exists jar,
    merge_lines (lines_read yt mu) [] = inl jar /\ jar_ok jar /\
    out = COOKIE_HEADER now
          ++ map Cookie.raw_line (sorted_by_key (map snd jar)) /\
    n = length jar.
Proof.
  unfold merge_cookie_files. rewrite merged_jar_lines.
  destruct (merge_lines (lines_read yt mu) []) as [jar|e] eqn:E; [|done].
  intros [= <- <-]. exists jar. split; [done|]. split; [|done].
  by destruct (merge_lines_spec _ _ _ jar_ok_nil E) as [Hok _].
Qed.

(** X23: the file [merge_cookie_files] writes.  After the nine lines of
    the header come the cookies, one line each, in ascending order of
    (domain, name); no two have the same domain and name; each line is the
    stripped text of a line that was read; and the number returned is the
    number of these lines. *)
Theorem X23_merged_file_structure yt mu now out n :
  merge_cookie_files yt mu now = inl (out, n) ->
  exists cs,
    out = COOKIE_HEADER now ++ map Cookie.raw_line cs /\
    n = length cs /\
    Sorted key_le cs /\
    NoDup (map cookie_key cs) /\
    (forall c, c ∈ cs ->
       exists line, line ∈ lines_read yt mu /\ Cookie.raw_line c = strip line /\
                    reads (lines_read yt mu) c).
Proof.
  intros E. apply merge_cookie_files_inv in E as (jar & Hrun & Hok & -> & ->).
  exists (sorted_by_key (map snd jar)).
  pose proof (sorted_by_key_perm (map snd jar)) as Hperm.
  split; [done|]. split; [|split; [|split]].
  - by rewrite Hperm, length_map.
  - apply sorted_by_key_sorted.
  - rewrite Hperm, (jar_keys _ Hok). apply Hok.
  - intros c Hc. rewrite Hperm in Hc.
    apply list_elem_of_fmap in Hc as ([k v] & -> & Hin).
    destruct (merge_lines_spec _ _ _ jar_ok_nil Hrun) as (_ & Hfrom & _).
    destruct (Hfrom _ Hin) as [Hnil|Hread]; [by apply elem_of_nil in Hnil|].
    simpl in *. destruct Hread as (line & Hl & Ht & Hcm & Hp).
    exists line. split; [done|]. split; [|by exists line].
    revert Hp. unfold parse_cookie_line.
    destruct (length _ <? 7)%nat; [done|].
    destruct (if negb _ then _ else _) as [m|msg]; [|done].
    intros [= <-]. simpl. unfold strip. by rewrite strip_with_idemp.
Qed.

(** X24: no cookie is lost and the better one wins.  For every cookie
    that was read, the file written has a line for the same domain and
    name, and the cookie of that line, itself one that was read, expires
    at least as late, or at the same time with a value at least as
    long. *)
Theorem X24_merged_file_selection yt mu now out n c :
  merge_cookie_files yt mu now = inl (out, n) ->
  reads (lines_read yt mu) c ->
  exists c',
    reads (lines_read yt mu) c' /\ Cookie.raw_line c' ∈ out /\
    cookie_key c' = cookie_key c /\ at_least c c'.
Proof.
  intros E Hc. apply merge_cookie_files_inv in E as (jar & Hrun & Hok & -> & _).
  destruct (merge_lines_spec _ _ _ jar_ok_nil Hrun) as (_ & Hfrom & _ & Hbest).
  destruct (Hbest c Hc) as (c' & Hget & Hle).
  apply jar_get_elem in Hget.
  exists c'. split; [|split; [|split; [|done]]].
  - destruct (Hfrom _ Hget) as [Hnil|?]; [by apply elem_of_nil in Hnil|done].
  - apply elem_of_app. right. apply list_elem_of_fmap. exists c'.
    split; [done|]. rewrite sorted_by_key_perm.
    apply list_elem_of_fmap. by exists (cookie_key c, c').
  - destruct Hok as [_ Hk]. rewrite Forall_forall in Hk.
    by apply (Hk _ Hget).
Qed.

(** X25: a line that is neither blank nor a comment and has fewer than
    seven tab-separated fields stops the merge.  [parse_cookie_line]
    returns the tuple [(None, {})] for it, which is true, so the line is
    not skipped and indexing the tuple raises; nothing is written. *)
Theorem X25_malformed_line_aborts yt mu now line :
  line ∈ lines_read yt mu -> truthy (strip line) = true ->
  startswith (lit "#") (strip line) = false ->
  length (split TAB (strip line)) < 7 ->
  parse_cookie_line line = inl NoCookie /\
  exists e, merge_cookie_files yt mu now = inr e /\ is_Exception e = true.
Proof.
  intros Hin Ht Hc Hl. split.
  - unfold parse_cookie_line. apply Nat.ltb_lt in Hl. by rewrite Hl.
  - destruct (merge_lines_malformed _ _ Hin Ht Hc Hl []) as [e He].
    exists e. unfold merge_cookie_files. rewrite merged_jar_lines, He.
    split; [done|]. by apply merge_lines_exn in He.
Qed.

Lemma cookie_files_nodup : NoDup COOKIE_FILES.
Proof. apply (bool_decide_unpack _). by vm_compute. Qed.

(** A run of [main] that returns 0, step by step. *)
Lemma cookies_main_inv win32 rename_error now dir dir' :
  cookies_main win32 rename_error now dir = (0%Z, dir') ->
  exists out n,
    (is_Some (dir !! YOUTUBE_FILE) \/ is_Some (dir !! MUSIC_FILE)) /\
    merge_cookie_files (dir !! YOUTUBE_FILE) (dir !! MUSIC_FILE) now
    = inl (out, n) /\
    dir' =
    (let d0 := <[OUTPUT_FILE := out]> dir in
     let d1 := match dir !! YOUTUBE_FILE with
               | Some l => <[YOUTUBE_FILE ++ lit ".backup" := l]>
                             (delete YOUTUBE_FILE d0)
               | None => d0
               end in
     match dir !! MUSIC_FILE with
     | Some l => <[MUSIC_FILE ++ lit ".backup" := l]> (delete MUSIC_FILE d1)
     | None => d1
     end).
Proof.
  pose proof cookie_files_nodup as Hnd. unfold COOKIE_FILES in Hnd.
  unfold cookies_main. revert Hnd.
  generalize (YOUTUBE_FILE ++ lit ".backup") (MUSIC_FILE ++ lit ".backup").
  generalize YOUTUBE_FILE MUSIC_FILE OUTPUT_FILE.
  intros Y M O YB MB Hnd.
  apply NoDup_cons in Hnd as [H1 Hnd]. apply NoDup_cons in Hnd as [H2 Hnd].
  apply NoDup_cons in Hnd as [H3 Hnd]. apply NoDup_cons in Hnd as [H4 _].
  repeat rewrite not_elem_of_cons in H1. repeat rewrite not_elem_of_cons in H2.
  repeat rewrite not_elem_of_cons in H3. repeat rewrite not_elem_of_cons in H4.
  destruct H1 as (? & ? & ? & ? & _), H2 as (? & ? & ? & _),
    H3 as (? & ? & _), H4 as (? & _).
  destruct (negb (bool_decide (is_Some (dir !! Y)))
            && negb (bool_decide (is_Some (dir !! M)))) eqn:Hsrc; [done|].
  destruct (merge_cookie_files (dir !! Y) (dir !! M) now)
    as [[out n]|e] eqn:Em; [|done].
  cbv zeta. unfold rename_file.
  rewrite !lookup_insert_ne by done.
  intros Hrun. exists out, n. split.
  { apply andb_false_iff in Hsrc as [Hs|Hs]; apply negb_false_iff in Hs;
      apply bool_decide_eq_true in Hs; auto. }
  split; [done|]. revert Hrun.
  destruct (dir !! Y) as [ly|] eqn:Ey.
  - rewrite bool_decide_eq_true_2 by done.
    destruct (win32 && _); [done|]. destruct (rename_error Y YB); [done|].
    rewrite lookup_insert_ne, lookup_delete_ne, lookup_insert_ne by done.
    destruct (dir !! M) as [lm|] eqn:Emu.
    + rewrite bool_decide_eq_true_2 by done.
      destruct (win32 && _); [done|]. destruct (rename_error M MB); [done|].
      by intros [= <-].
    + rewrite bool_decide_eq_false_2 by (by intros [? ?]). by intros [= <-].
  - rewrite bool_decide_eq_false_2 by (by intros [? ?]).
    rewrite lookup_insert_ne by done.
    destruct (dir !! M) as [lm|] eqn:Emu.
    + rewrite bool_decide_eq_true_2 by done.
      destruct (win32 && _); [done|]. destruct (rename_error M MB); [done|].
      by intros [= <-].
    + rewrite bool_decide_eq_false_2 by (by intros [? ?]). by intros [= <-].
Qed.

(** Name the five files and keep only that they are distinct. *)
Ltac cookie_names :=
  let Hnd := fresh "Hnd" in
  pose proof cookie_files_nodup as Hnd; unfold COOKIE_FILES in *; revert Hnd;
  generalize (YOUTUBE_FILE ++ lit ".backup") (MUSIC_FILE ++ lit ".backup");
  generalize YOUTUBE_FILE MUSIC_FILE OUTPUT_FILE;
  let H1 := fresh "H" in let H2 := fresh "H" in
  let H3 := fresh "H" in let H4 := fresh "H" in
  intros Y M O YB MB Hnd;
  apply NoDup_cons in Hnd as [H1 Hnd]; apply NoDup_cons in Hnd as [H2 Hnd];
  apply NoDup_cons in Hnd as [H3 Hnd]; apply NoDup_cons in Hnd as [H4 _];
  repeat rewrite not_elem_of_cons in H1; repeat rewrite not_elem_of_cons in H2;
  repeat rewrite not_elem_of_cons in H3; repeat rewrite not_elem_of_cons in H4;
  destruct H1 as (? & ? & ? & ? & _), H2 as (? & ? & ? & _),
    H3 as (? & ? & _), H4 as (? & _).

Lemma cookies_main_sources_gone win32 rename_error now dir dir' :
  cookies_main win32 rename_error now dir = (0%Z, dir') ->
  dir' !! YOUTUBE_FILE = None /\ dir' !! MUSIC_FILE = None.
Proof.
  intros E. apply cookies_main_inv in E as (out & n & _ & _ & ->).
  cbv zeta. cookie_names.
  destruct (dir !! Y) as [ly|] eqn:Ey, (dir !! M) as [lm|] eqn:Em;
    by simplify_map_eq.
Qed.

(** X26: a run of [main] that returns 0.  At least one of the two source
    files was there; cookies.txt holds what [merge_cookie_files] wrote for
    them; neither source file is left under its name, each one that
    existed is now its ".backup" file; and no other file of the directory
    has changed. *)
Theorem X26_cookies_main_success win32 rename_error now dir dir' :
  cookies_main win32 rename_error now dir = (0%Z, dir') ->
  exists out n,
    (is_Some (dir !! YOUTUBE_FILE) \/ is_Some (dir !! MUSIC_FILE)) /\
    merge_cookie_files (dir !! YOUTUBE_FILE) (dir !! MUSIC_FILE) now
    = inl (out, n) /\
    dir' !! OUTPUT_FILE = Some out /\
    dir' !! YOUTUBE_FILE = None /\ dir' !! MUSIC_FILE = None /\
    (forall l, dir !! YOUTUBE_FILE = Some l ->
               dir' !! (YOUTUBE_FILE ++ lit ".backup") = Some l) /\
    (forall l, dir !! MUSIC_FILE = Some l ->
               dir' !! (MUSIC_FILE ++ lit ".backup") = Some l) /\
    (forall p, p ∉ COOKIE_FILES -> dir' !! p = dir !! p).
Proof.
  intros E. apply cookies_main_inv in E as (out & n & Hsrc & Hm & ->).
  exists out, n. split; [done|]. split; [done|]. clear Hsrc Hm.
  cbv zeta. cookie_names.
  destruct (dir !! Y) as [ly|] eqn:Ey, (dir !! M) as [lm|] eqn:Em.
  all: repeat split; try (by simplify_map_eq).
  all: try (intros l [= <-]; by simplify_map_eq).
  all: intros p Hp; repeat rewrite not_elem_of_cons in Hp;
    destruct Hp as (? & ? & ? & ? & ? & _); by simplify_map_eq.
Qed.

(** What a run of [main] that was stopped by a refused backup leaves: the
    merged cookies.txt, a source file, and every other file as it was. *)
Ltac stopped_at_backup :=
  intros [= <-]; split; [by simplify_map_eq|];
  split; [by (left + right); simplify_map_eq|];
  intros p Hp; repeat rewrite not_elem_of_cons in Hp;
  destruct Hp as (? & ? & ? & ? & ? & _); by simplify_map_eq.


End Program.

(** ** Concrete runs *)

Abbreviation song_run :=
  (download_song_frontend py_isspace ascii_lower utf8_quote
    (world_with ydl_writes) song_request initial).

Abbreviation forbidden_first_run :=
  (download_audio ascii_lower utf8_quote (world_with ydl_forbidden_first)
    (lit "Song A") workspace in_workspace).

Abbreviation forbidden_run :=
  (download_audio ascii_lower utf8_quote (world_with ydl_forbidden)
    (lit "Song A") workspace in_workspace).

Abbreviation third_time_run :=
  (_download ascii_lower utf8_quote (world_with ydl_third_time)
    (default_opts TEMPLATE) (lit "Song A") workspace in_workspace).

Abbreviation kept_run :=
  (download_song_frontend py_isspace ascii_lower utf8_quote
    world_undeletable song_request initial).

Abbreviation rescued_run :=
  (download_audio ascii_lower utf8_quote (world_with ydl_fallback_works)
    (lit "Song A") workspace in_workspace).

Abbreviation stale_run :=
  (download_with_ytdlp utf8_quote script_world (lit "Song A") (lit "/music")
    true stale_folder).

Abbreviation writes_run :=
  (download_audio ascii_lower utf8_quote (world_with ydl_writes)
    (lit "Song A") workspace in_workspace).

Abbreviation hanging_run :=
  (download_song_frontend py_isspace ascii_lower utf8_quote
    (world_with ydl_hangs) song_request initial).

Abbreviation metadata_run :=
  (get_track_metadata py_isspace ascii_lower utf8_quote
    (world_with ydl_writes) TRACK_URL initial).

Abbreviation plain_run :=
  (download_with_ytdlp utf8_quote script_world (lit "Song A") (lit "/music")
    false music_folder).

Abbreviation rotating_run :=
  (download_with_ytdlp utf8_quote script_world (lit "Song A") (lit "/music")
    true music_folder).

Abbreviation script_run :=
  (script_main ascii_lower utf8_quote (world_with ydl_writes) script_world
    [lit "download_spotify_song_simple.py"; TRACK_URL; lit "/music";
     lit "TRUE"]
    (Folder music_folder)).

Abbreviation merged_cookies :=
  (merge_cookie_files py_isspace ascii_int (Some youtube_cookies)
    (Some music_cookies) (lit "2026-01-01T00:00:00")).

Abbreviation cookies_run :=
  (cookies_main py_isspace ascii_int false (fun _ _ => None)
    (lit "2026-01-01T00:00:00") cookies_dir).

Abbreviation refused_run :=
  (cookies_main py_isspace ascii_int false refuse_backup
    (lit "2026-01-01T00:00:00") cookies_dir).

(** ** Concrete instances of the theorems, and counterexamples *)



(** In [song_run] no download outlives its deadline and the removal
    succeeds: the workspace has gone when the run ends. *)
Example song_run_released :
  Forall (fun ev => outlives (world_with ydl_writes) ev = false)
         (trace song_run.2)
  /\ fs song_run.2 !! workspace = None.
Proof.
  split; [|vm_compute; reflexivity].
  apply (bool_decide_unpack _). vm_compute. exact I.
Qed.

(** The text of the [UnicodeEncodeError] for the title "x" followed by
    U+1F600, and for a title of three code points above 255. *)
Example latin1_error_texts :
  latin1_error [120; 128512]%N
  = Some (lit "'latin-1' codec can't encode character '\U0001f600' in position 1: ordinal not in range(256)")
  /\ latin1_error [26085; 26412; 35486; 32; 115]%N
     = Some (lit "'latin-1' codec can't encode characters in position 0-2: ordinal not in range(256)")
  /\ latin1_error (lit "Song A") = None.
Proof. repeat split; vm_compute; reflexivity. Qed.

(** In [forbidden_first_run] the first attempt fails with a 403 download
    error, the engine reports failure, and no call with the fallback
    options was made. *)
Lemma C2_counterexample :
  ~ forbidden_attempt_triggers_fallback ascii_lower utf8_quote.
Proof.
  intros H.
  destruct (H (world_with ydl_forbidden_first) (lit "Song A") workspace
              in_workspace
              (failure (lit "yt-dlp download error: ERROR: Requested format is not available"))
              forbidden_first_run.2 (trace forbidden_first_run.2)
              (EvYdl (with_format (with_outtmpl (default_opts TEMPLATE) TEMPLATE)
                                  default_format)
                     (lit "https://music.youtube.com/search?q=Song%20A")
                     (Some []))
              (lit "ERROR: unable to download video data: HTTP Error 403: Forbidden"))
    as (url & before & Hin).
  - vm_compute. reflexivity.
  - reflexivity.
  - reflexivity.
  - vm_compute. left.
  - vm_compute. reflexivity.
  - vm_compute. reflexivity.
  - vm_compute in Hin.
    repeat (apply elem_of_cons in Hin as [Heq|Hin]; [discriminate Heq|]).
    by apply not_elem_of_nil in Hin.
Qed.

Lemma C2_witness :
  exists url before,
    filter (uses_format fallback_format) (trace forbidden_run.2)
    = [EvYdl (fallback_opts workspace) url before].
Proof.
  refine (proj1 (proj2 (proj1 (C2_fallback_pass ascii_lower utf8_quote
                                 (world_with ydl_forbidden)
                                 (lit "Song A") workspace in_workspace
                                 forbidden_run.1 forbidden_run.2
                                 (trace forbidden_run.2)
                                 (surjective_pairing _) eq_refl)
                              (lit "HTTP Error 403: Forbidden") _) _)).
  - vm_compute. reflexivity.
  - vm_compute. reflexivity.
Defined.

(** With both queries in the request the nested one is used. *)
Lemma C3_counterexample : ~ explicit_query_first py_isspace.
Proof.
  intros H.
  specialize (H two_queries_request (lit "explicit words") eq_refl eq_refl).
  vm_compute in H. discriminate H.
Qed.

Lemma C3_witness : get_search_query py_isspace song_request = lit "Song A".
Proof.
  etrans.
  - apply (proj1 (proj2 (proj2 (C3_search_query_precedence
                                  py_isspace song_request))
                        eq_refl eq_refl)
                 (lit "A") (lit " B") eq_refl).
    apply (bool_decide_unpack _). vm_compute. exact I.
  - vm_compute. reflexivity.
Defined.



Lemma C5_witness :
  resolve_track_info py_isspace ascii_lower utf8_quote
    (world_with ydl_writes) song_request None initial
  = (Ok {| TrackInfo.name := lit "Song";
           TrackInfo.artists := [lit "A"; lit "B"];
           TrackInfo.search_query := lit "Song A";
           TrackInfo.album := Some (lit "LP");
           TrackInfo.duration := None |}, initial).
Proof.
  etrans.
  - apply (proj1 (C5_supplied_metadata_used py_isspace ascii_lower utf8_quote
                    (world_with ydl_writes) song_request initial eq_refl)).
  - vm_compute. reflexivity.
Defined.



Lemma C7_witness :
  exists s3,
    download_song_frontend py_isspace ascii_lower utf8_quote
      (world_with ydl_hangs) song_request initial
    = (Raise (HTTPException 500 TIMEOUT_FAILURE), s3).
Proof.
  eapply C7_timeout_answers_500.
  - vm_compute. reflexivity.
  - vm_compute. reflexivity.
Defined.

Lemma C8_witness :
  download_song_frontend py_isspace ascii_lower utf8_quote
    (world_with ydl_writes) no_request initial
  = (Raise (HTTPException 400 EARLY_REJECTION), initial).
Proof.
  apply (C8_rejected_before_workspace py_isspace ascii_lower utf8_quote
           (world_with ydl_writes) no_request initial).
  - vm_compute. reflexivity.
  - vm_compute. reflexivity.
Defined.



Lemma C10_witness :
  has_metadata song_request = true /\
  DownloadRequest.album song_request = Some (lit "LP").
Proof.
  eassert (download_song_frontend py_isspace ascii_lower utf8_quote
             (world_with ydl_writes) song_request initial = (Ok _, _))
    as Hrun by (vm_compute; reflexivity).
  apply (proj1 (proj2 (proj2 (C10_album_duration_only_from_request
                                py_isspace ascii_lower utf8_quote))
                      _ _ _ _ _ Hrun) (lit "LP")).
  vm_compute. reflexivity.
Defined.

(** What the rotation leaves in [music_folder]: the old [latest.m4a] as
    [previous.m4a], the download as [latest.m4a]. *)
Example rotated_music_folder :
  download_with_ytdlp utf8_quote script_world (lit "Song A") (lit "/music")
    true music_folder
  = (inl (ScriptSuccess (lit "latest.m4a") (lit "/music/latest.m4a")),
     [(lit "previous.m4a", File [1]%N); (lit "latest.m4a", File [9; 9]%N)]).
Proof. vm_compute. reflexivity. Qed.

(** After two failed attempts the third finds the directory without the
    partial files and delivers its own. *)
Example third_time_lucky :
  third_time_run.1
  = Ok (found_file ascii_lower workspace (lit "Song.webm") [7]%N)
  /\ fs third_time_run.2 !! workspace
     = Some [(lit "Song.webm", File [7]%N)].
Proof. split; vm_compute; reflexivity. Qed.

(** ** Concrete instances of the further theorems *)

Lemma X1_witness :
  forbidden_run.1 <> Pending /\
  (forall e, forbidden_run.1 = Raise e -> is_Exception e = false) /\
  (forall dr, forbidden_run.1 = Ok dr -> DownloadResult.success dr = false ->
              exists msg, dr = failure msg /\ reported msg).
Proof.
  apply (X1_download_audio_always_reports ascii_lower utf8_quote
           (world_with ydl_forbidden) (lit "Song A") workspace in_workspace
           forbidden_run.1 forbidden_run.2).
  vm_compute. reflexivity.
Defined.

Lemma X2_witness :
  exists entries name content mime,
    fs writes_run.2 !! workspace = Some entries /\
    (name, File content) ∈ entries /\
    ascii_lower (suffix name) ∈ audio_extensions /\
    (ascii_lower (suffix name), mime) ∈ content_type_map /\
    Some (workspace, lit "Song.m4a") = Some (workspace, name) /\
    Some (lit "Song.m4a") = Some name /\
    Some 3%N = Some (N.of_nat (length content)) /\
    Some (lit "audio/mp4") = Some mime.
Proof.
  apply (X2_download_audio_success_file ascii_lower utf8_quote
           (world_with ydl_writes) (lit "Song A") workspace in_workspace
           (found_file ascii_lower workspace (lit "Song.m4a") [1; 2; 3]%N)
           writes_run.2).
  - vm_compute. reflexivity.
  - reflexivity.
Defined.

Lemma X3_witness :
  length (trace forbidden_run.2) <= 4 /\
  Forall (fun ev => exists qq, utf8_quote (lit "Song A") = inl qq /\
                               music_call workspace qq ev)
         (trace forbidden_run.2).
Proof.
  apply (X3_download_audio_calls ascii_lower utf8_quote
           (world_with ydl_forbidden) (lit "Song A") workspace in_workspace
           forbidden_run.1 forbidden_run.2 (trace forbidden_run.2)).
  - vm_compute. reflexivity.
  - reflexivity.
Defined.

Lemma X4_witness :
  fs forbidden_run.2 !! lit "/home/music" = fs in_workspace !! lit "/home/music".
Proof.
  apply (X4_download_audio_frame ascii_lower utf8_quote
           (world_with ydl_forbidden) (lit "Song A") workspace in_workspace
           forbidden_run.1 forbidden_run.2 (lit "/home/music")).
  - vm_compute. reflexivity.
  - apply (bool_decide_unpack _). vm_compute. exact I.
Defined.

Lemma X5_witness :
  hanging_run.1 <> Pending /\
  (forall e, hanging_run.1 = Raise e ->
     is_Exception e = false \/
     exists c detail, e = HTTPException c detail /\ (c = 400 \/ c = 500)%N).
Proof.
  apply (X5_endpoint_statuses py_isspace ascii_lower utf8_quote
           (world_with ydl_hangs) song_request initial
           hanging_run.1 hanging_run.2).
  vm_compute. reflexivity.
Defined.

Lemma X6_witness :
  trace song_run.2 = [] \/
  exists net ydl tl,
    trace song_run.2
    = EvMkdtemp (workspace_of (world_with ydl_writes)) :: net ++ ydl ++ tl /\
    fs initial !! workspace_of (world_with ydl_writes) = None /\
    Forall (fun ev => is_network ev = true) net /\ length net <= 2 /\
    Forall (fun ev => is_ydl ev = true) ydl /\ length ydl <= 4 /\
    (tl = [] \/ tl = [EvRmtree (workspace_of (world_with ydl_writes))]).
Proof.
  apply (X6_endpoint_protocol py_isspace ascii_lower utf8_quote
           (world_with ydl_writes) song_request initial
           song_run.1 song_run.2 (trace song_run.2)).
  - vm_compute. reflexivity.
  - reflexivity.
Defined.

Lemma X7_witness :
  fs song_run.2 !! lit "/tmp/other" = fs initial !! lit "/tmp/other".
Proof.
  apply (X7_endpoint_frame py_isspace ascii_lower utf8_quote
           (world_with ydl_writes) song_request initial
           song_run.1 song_run.2 (lit "/tmp/other")).
  - vm_compute. reflexivity.
  - apply (bool_decide_unpack _). vm_compute. exact I.
  - vm_compute. reflexivity.
Defined.

Lemma X8_witness :
  exists resp s1 name content mime,
    song_run.1 = Ok resp /\
    frontend_cleanup (world_with ydl_writes) s1 = (Ok tt, song_run.2) /\
    fs s1 !! workspace_of (world_with ydl_writes) ≫= dir_lookup name
    = Some (File content) /\
    concat (body_chunks resp) = content /\
    Forall (fun c => 0 < length c <= N.to_nat 8192) (body_chunks resp) /\
    (forall i c, body_chunks resp !! i = Some c ->
                 S i < length (body_chunks resp) ->
                 length c = N.to_nat 8192) /\
    assoc (lit "Content-Length") (headers resp)
    = Some (decimal (N.of_nat (length content))) /\
    media_type resp = Some mime /\
    (ascii_lower (suffix name), mime) ∈ content_type_map.
Proof.
  eassert (song_run = (Ok _, _)) as Hrun by (vm_compute; reflexivity).
  destruct (X8_endpoint_response py_isspace ascii_lower utf8_quote
              (world_with ydl_writes) song_request initial _ _ Hrun)
    as (s1 & name & content & mime & H).
  eexists _, s1, name, content, mime. split; [|exact H].
  vm_compute. reflexivity.
Defined.

Lemma X9_witness :
  Forall (fun ev =>
            is_ydl ev = true ->
            exists qq,
              utf8_quote (get_search_query py_isspace song_request) = inl qq /\
              music_call (workspace_of (world_with ydl_writes)) qq ev)
         (trace song_run.2).
Proof.
  apply (X9_endpoint_searches_query py_isspace ascii_lower utf8_quote
           (world_with ydl_writes) song_request initial
           song_run.1 song_run.2 (trace song_run.2)).
  - vm_compute. reflexivity.
  - vm_compute. reflexivity.
  - reflexivity.
Defined.

Lemma X10_witness :
  match metadata_run.1 with
  | Ok md =>
      TrackMetadata.album md = None /\ TrackMetadata.duration md = None
  | Raise e => e = NO_METADATA
  | Pending => False
  end /\
  length (trace metadata_run.2) <= 2 /\
  Forall (fun ev => is_network ev = true) (trace metadata_run.2) /\
  fs metadata_run.2 = fs initial.
Proof.
  apply (X10_metadata_endpoint py_isspace ascii_lower utf8_quote
           (world_with ydl_writes) TRACK_URL initial
           metadata_run.1 metadata_run.2 (trace metadata_run.2)).
  - vm_compute. reflexivity.
  - reflexivity.
Defined.

Lemma X11_witness :
  metadata_run =
  match resolve_track_info py_isspace ascii_lower utf8_quote
          (world_with ydl_writes) no_request (Some TRACK_URL) initial with
  | (Ok ti, s') => (Ok (metadata_of ti), s')
  | (Raise _, s') => (Raise NO_METADATA, s')
  | (Pending, s') => (Pending, s')
  end.
Proof.
  apply (X11_metadata_endpoint_agrees py_isspace ascii_lower utf8_quote
           (world_with ydl_writes) no_request TRACK_URL initial).
  vm_compute. reflexivity.
Defined.

Lemma X12_witness :
  extract_from_api utf8_quote world_no_artists TRACK_URL initial
  = (Ok None,
     {| fs := fs initial;
        trace := trace initial
                 ++ [EvApiGet (api_url (lit "https%3A//open.spotify.com/track/4uLU6hMCjMI75M1A2tKUQC"))];
        temp_dir := temp_dir initial |}).
Proof.
  apply (X12_api_answer_discarded utf8_quote world_no_artists TRACK_URL initial
           (lit "https%3A//open.spotify.com/track/4uLU6hMCjMI75M1A2tKUQC")
           200
           {| has_error := false; api_name := Some (lit "Track");
              api_artists := Some [];
              api_searchQuery := Some (lit "Track Singer") |}).
  - vm_compute. reflexivity.
  - reflexivity.
  - right. reflexivity.
Defined.

Lemma X13_witness :
  track_id_of_url (TRACK_URL ++ lit "?si=0a1b2c") = Some TRACK_ID.
Proof.
  unfold TRACK_URL. rewrite <- app_assoc.
  apply (proj1 (X13_track_id_of_canonical_url TRACK_ID (lit "?si=0a1b2c") ltac:(apply (bool_decide_unpack _); vm_compute; exact I))).
  - apply (bool_decide_unpack _). vm_compute. exact I.
  - right. eexists. reflexivity.
Defined.

Lemma X14_witness :
  exists u, get_spotify_url id_request = Some u /\
            track_id_of_url u = Some TRACK_ID.
Proof.
  apply (X14_track_id_round_trip id_request TRACK_ID); try reflexivity.
  - apply (bool_decide_unpack _). vm_compute. exact I.
  - apply (bool_decide_unpack _). vm_compute. exact I.
Defined.

Lemma X16_witness :
  strip py_isspace (get_search_query py_isspace song_request)
  = get_search_query py_isspace song_request /\
  clean py_isspace (get_search_query py_isspace song_request) /\
  clean py_isspace (rev (get_search_query py_isspace song_request)).
Proof.
  apply (X16_constructed_query_stripped py_isspace song_request).
  - reflexivity.
  - reflexivity.
Defined.

Lemma X17_witness :
  (forall e, rotating_run.1 = inr e -> is_Exception e = false) /\
  (forall file path,
      rotating_run.1 = inl (ScriptSuccess file path) ->
      path = path_join (lit "/music") file /\
      is_Some (dir_lookup file rotating_run.2)) /\
  (forall err details,
      rotating_run.1 = inl (ScriptFailure err details) ->
      (err = lit "Download failed" /\ is_Some details) \/
      (details = None /\
       (err = lit "Download timed out (>180s)" \/
        exists m, err = lit "Download error: " ++ m))).
Proof.
  apply (X17_script_download_reports utf8_quote script_world (lit "Song A")
           (lit "/music") true music_folder rotating_run.1 rotating_run.2).
  vm_compute. reflexivity.
Defined.

Lemma X18_witness :
  exists cmd stderr,
    subprocess_run script_world cmd music_folder
    = (plain_run.2, Exited 0 stderr) /\
    path_join (lit "/music") (lit "%(title)s.%(ext)s") ∈ cmd /\
    last (filter (ends_with_any script_extensions) (map fst plain_run.2))
    = Some (lit "temp_download.m4a") /\
    lit "/music/temp_download.m4a"
    = path_join (lit "/music") (lit "temp_download.m4a").
Proof.
  apply (X18_script_plain_mode utf8_quote script_world (lit "Song A")
           (lit "/music") music_folder).
  vm_compute. reflexivity.
Defined.

Lemma X19_witness :
  parse_oembed_title py_isspace ascii_lower (lit "Track - Singer")
  = (clean_name ascii_lower (script_parse_title (lit "Track - Singer")).1,
     clean_artist ascii_lower (script_parse_title (lit "Track - Singer")).2).
Proof.
  apply (X19_title_parsers_agree py_isspace ascii_lower (lit "Track - Singer")).
  - vm_compute. reflexivity.
  - reflexivity.
  - vm_compute. reflexivity.
Defined.

Lemma X20_witness :
  (0 = if is_success (OutSuccess (lit "latest.m4a") (lit "/music/latest.m4a")
                        (lit "Track") [lit "Singer"])
       then 0 else 1)%Z /\
  (OutSuccess (lit "latest.m4a") (lit "/music/latest.m4a") (lit "Track")
     [lit "Singer"] = OutUsage <-> 4 < 3) /\
  (forall e n a details,
      OutSuccess (lit "latest.m4a") (lit "/music/latest.m4a") (lit "Track")
        [lit "Singer"] = OutFailure e n a details ->
      truthy details = true /\ length details <= 500) /\
  (OutSuccess (lit "latest.m4a") (lit "/music/latest.m4a") (lit "Track")
     [lit "Singer"] <> OutUsage ->
   exists d, script_run.1.2 = Folder d) /\
  api_then_oembed script_run.2.
Proof.
  apply (X20_script_main_report ascii_lower utf8_quote (world_with ydl_writes)
           script_world
           [lit "download_spotify_song_simple.py"; TRACK_URL; lit "/music";
            lit "TRUE"]
           (Folder music_folder)
           {| stdout := OutSuccess (lit "latest.m4a") (lit "/music/latest.m4a")
                          (lit "Track") [lit "Singer"];
              exit_code := 0 |}
           script_run.1.2 script_run.2).
  vm_compute. reflexivity.
Defined.

Lemma X21_witness :
  (is_Exception
     (OtherException (lit "[Errno 20] Not a directory: '/etc/passwd/x'"))
   = true ->
   makedirs script_world_no_mkdir
     (item 2 [lit "download_spotify_song_simple.py"; TRACK_URL;
              lit "/etc/passwd/x"])
     NoFolder
   = inr (OtherException (lit "[Errno 20] Not a directory: '/etc/passwd/x'"))
   /\ NoFolder = NoFolder /\ @nil event = []) /\
  (forall d,
      NoFolder = Folder d ->
      truthy (item 2 [lit "download_spotify_song_simple.py"; TRACK_URL;
                      lit "/etc/passwd/x"]) = true ->
      is_Exception
        (OtherException (lit "[Errno 20] Not a directory: '/etc/passwd/x'"))
      = false).
Proof.
  apply (X21_script_main_uncaught ascii_lower utf8_quote (world_with ydl_writes)
           script_world_no_mkdir
           [lit "download_spotify_song_simple.py"; TRACK_URL;
            lit "/etc/passwd/x"]
           NoFolder
           (OtherException (lit "[Errno 20] Not a directory: '/etc/passwd/x'"))
           NoFolder []).
  vm_compute. reflexivity.
Defined.

Lemma X23_witness :
  exists cs,
    COOKIE_HEADER (lit "2026-01-01T00:00:00") ++ [SID_2027]
    = COOKIE_HEADER (lit "2026-01-01T00:00:00") ++ map Cookie.raw_line cs /\
    1 = length cs /\
    Sorted key_le cs /\
    NoDup (map cookie_key cs) /\
    (forall c, c ∈ cs ->
       exists line,
         line ∈ lines_read (Some youtube_cookies) (Some music_cookies) /\
         Cookie.raw_line c = strip py_isspace line /\
         reads py_isspace ascii_int
           (lines_read (Some youtube_cookies) (Some music_cookies)) c).
Proof.
  apply (X23_merged_file_structure py_isspace ascii_int (Some youtube_cookies)
           (Some music_cookies) (lit "2026-01-01T00:00:00")).
  vm_compute. reflexivity.
Defined.

Lemma X24_witness :
  exists c',
    reads py_isspace ascii_int
      (lines_read (Some youtube_cookies) (Some music_cookies)) c' /\
    Cookie.raw_line c'
      ∈ COOKIE_HEADER (lit "2026-01-01T00:00:00") ++ [SID_2027] /\
    cookie_key c' = cookie_key sid_2023 /\ at_least sid_2023 c'.
Proof.
  apply (X24_merged_file_selection py_isspace ascii_int (Some youtube_cookies)
           (Some music_cookies) (lit "2026-01-01T00:00:00") _ 1).
  - vm_compute. reflexivity.
  - exists SID_2023. split; [|split; [|split]].
    + apply (bool_decide_unpack _). vm_compute. exact I.
    + vm_compute. reflexivity.
    + vm_compute. reflexivity.
    + vm_compute. reflexivity.
Defined.

Lemma X25_witness :
  parse_cookie_line py_isspace ascii_int
    (join TAB [lit ".youtube.com"; lit "TRUE"; lit "/"]) = inl NoCookie /\
  exists e,
    merge_cookie_files py_isspace ascii_int (Some youtube_cookies)
      (Some broken_cookies) (lit "2026-01-01T00:00:00") = inr e /\
    is_Exception e = true.
Proof.
  apply (X25_malformed_line_aborts py_isspace ascii_int (Some youtube_cookies)
           (Some broken_cookies) (lit "2026-01-01T00:00:00")).
  - apply (bool_decide_unpack _). vm_compute. exact I.
  - vm_compute. reflexivity.
  - vm_compute. reflexivity.
  - vm_compute. lia.
Defined.

Lemma X26_witness :
  exists out n,
    (is_Some (cookies_dir !! YOUTUBE_FILE)
     \/ is_Some (cookies_dir !! MUSIC_FILE)) /\
    merge_cookie_files py_isspace ascii_int (cookies_dir !! YOUTUBE_FILE)
      (cookies_dir !! MUSIC_FILE) (lit "2026-01-01T00:00:00")
    = inl (out, n) /\
    cookies_run.2 !! OUTPUT_FILE = Some out /\
    cookies_run.2 !! YOUTUBE_FILE = None /\
    cookies_run.2 !! MUSIC_FILE = None /\
    (forall l, cookies_dir !! YOUTUBE_FILE = Some l ->
               cookies_run.2 !! (YOUTUBE_FILE ++ lit ".backup") = Some l) /\
    (forall l, cookies_dir !! MUSIC_FILE = Some l ->
               cookies_run.2 !! (MUSIC_FILE ++ lit ".backup") = Some l) /\
    (forall p, p ∉ COOKIE_FILES -> cookies_run.2 !! p = cookies_dir !! p).
Proof.
  apply (X26_cookies_main_success py_isspace ascii_int false (fun _ _ => None)
           (lit "2026-01-01T00:00:00") cookies_dir cookies_run.2).
  vm_compute. reflexivity.
Defined.


(** In [refused_run] the merge succeeds and the first backup is refused:
    [main] returns 1, and cookies.txt, which did not exist, has been
    written. *)
Example refused_run_writes :
  refused_run.1 = 1%Z /\ cookies_dir !! OUTPUT_FILE = None /\
  is_Some (refused_run.2 !! OUTPUT_FILE).
Proof.
  split; [vm_compute; reflexivity|]. split; [vm_compute; reflexivity|].
  apply (bool_decide_unpack _). vm_compute. exact I.
Qed.
